(** * SpineDebugRenderer: a shallow embedding of
    [packages/base/src/SpineDebugRenderer.ts]

    The renderer keeps a registration map from spine objects to a bundle of
    debug drawing surfaces and, once per frame, clears and redraws these
    surfaces from the skeleton's pose.  The scene graph of the host engine
    (containers, graphics, parent/child links, destruction) is modelled as
    an object heap addressed by object identities; JavaScript numbers are
    IEEE 754 binary64 values; the methods are written in a state monad with
    exceptions, since a JavaScript [throw] keeps the mutations made before
    it. *)

From Stdlib Require Import Floats ZArith Bool.
From stdpp Require Import list strings.

Set Warnings "-inexact-float".

Open Scope float_scope.

(** ** JavaScript numbers and values *)

Definition number := float.

(** A value read from an array slot or passed to a drawing call: a number,
    or [undefined] ([None]) when the index is out of range or the argument
    is omitted. *)
Definition value := option number.

(** [ToBoolean] on a number: [0], [-0] and [NaN] are falsy. *)
Definition truthy (v : number) : bool :=
  negb (PrimFloat.eqb v 0 || PrimFloat.is_nan v).

(** [a || b] on numbers. *)
Definition js_or (a b : number) : number := if truthy a then a else b.

(** [a > b]. *)
Definition gtb (a b : number) : bool := PrimFloat.ltb b a.

Definition Math_PI : number := 0x1.921fb54442d18p+1.
Definition Math_abs (v : number) : number := PrimFloat.abs v.
Definition Math_sqrt (v : number) : number := PrimFloat.sqrt v.

(** [Math.pow(v, 2)]: the square of [v]. *)
Definition Math_pow2 (v : number) : number := v * v.

(** [ToInt32] on an integral number, and the signed shift [h >> 1]. *)
Definition ToInt32 (z : Z) : Z := ((z + 2 ^ 31) mod 2 ^ 32 - 2 ^ 31)%Z.
Definition sar1 (z : Z) : Z := Z.shiftr (ToInt32 z) 1.

(** [arr[i]] on an array or typed array: [undefined] out of range. *)
Definition arr_get {A} (l : list A) (i : Z) : option A :=
  if (i <? 0)%Z then None else l !! Z.to_nat i.

(** ** Pose data (owned by the animation runtime) *)

Record Matrix := mkMatrix {
  m_a : number; m_b : number; m_c : number; m_d : number;
  m_tx : number; m_ty : number
}.

#[warnings="-register-all"]
Inductive BoneData := mkBoneData {
  bd_name : string;
  bd_length : number;
  bd_parent : option BoneData     (* [null] for a bone without parent *)
}.

Record Bone := mkBone {
  bone_data : BoneData;
  bone_matrix : Matrix;
  bone_active : bool
}.

Inductive AttachmentType :=
  | Region | BoundingBox | Mesh | LinkedMesh | Path | Point | Clipping.

Definition AttachmentType_eqb (a b : AttachmentType) : bool :=
  match a, b with
  | Region, Region | BoundingBox, BoundingBox | Mesh, Mesh
  | LinkedMesh, LinkedMesh | Path, Path | Point, Point
  | Clipping, Clipping => true
  | _, _ => false
  end.

(** The stored fields of an attachment object.  [att_stored] stands for the
    numeric fields of the runtime's attachment class that this file does not
    read itself (a region's placement and its cached corner offsets). *)
Record AttachmentData := mkAttachmentData {
  att_name : string;
  att_type : AttachmentType;
  worldVerticesLength : nat;
  triangles : list nat;
  hullLength : Z;
  closed : bool;
  att_stored : list number
}.

(** An attachment object: its stored fields and the two methods the
    renderer calls on it.
    - [computeWorldVertices] fills the buffer it is handed; it is given the
      object's fields, the bone of the slot and the number of values to
      produce, and returns the values the buffer holds afterwards;
    - [updateOffset] is the optional method [updateOffset?: () => void]: it
      takes no argument and returns nothing, so all it can do is to update
      the object it is called on. *)
Record Attachment := mkAttachment {
  att_data : AttachmentData;
  computeWorldVertices : AttachmentData -> Bone -> nat -> list number;
  updateOffset : option (AttachmentData -> AttachmentData)
}.

(** Attachments are objects shared between slots (and between the spines of
    one skeleton data): slots refer to them by identity. *)
Abbreviation aid := nat.

Record Slot := mkSlot {
  slot_bone : Bone;
  slot_attachment : option aid      (* [getAttachment()], [null] if none *)
}.

Record Skeleton := mkSkeleton {
  sk_x : number;
  sk_y : number;
  sk_bones : list Bone;
  sk_slots : list Slot
}.

(** The result of [new SkeletonBoundsBase()] followed by
    [update(skeleton, true)], as far as the renderer reads it. *)
Record SkeletonBounds := mkBounds {
  minX : number;
  minY : number;
  getWidth : number;
  getHeight : number;
  polygons : list (list number)
}.

(** ** The scene graph of the host engine *)

Abbreviation oid := nat.

(** Calls recorded by a [Graphics] object since its last [clear()]. *)
Inductive GCmd :=
  | LineStyle (width color alpha : value)
  | BeginFill (color alpha : value)
  | EndFill
  | DrawPolygon (path : list value)
  | DrawCircle (cx cy radius : value)
  | DrawRect (rx ry rw rh : value)
  | MoveTo (px py : value)
  | LineTo (px py : value)
  | BezierCurveTo (cpX cpY cpX2 cpY2 toX toY : value).

Record SpineBase := mkSpine {
  scale_x : number;
  scale_y : number;
  skeleton : Skeleton
}.

Inductive Payload :=
  | PContainer
  | PGraphics (commands : list GCmd)
  | PSpine (s : SpineBase).

Record DisplayObject := mkObj {
  parent : option oid;
  children : list oid;
  destroyed : bool;
  pos_x : number;
  pos_y : number;
  pivot_y : number;
  rotation : number;
  payload : Payload
}.

Definition new_object (p : Payload) : DisplayObject :=
  mkObj None [] false 0 0 0 0 p.

Definition set_parent (q : option oid) (o : DisplayObject) : DisplayObject :=
  mkObj q (children o) (destroyed o) (pos_x o) (pos_y o) (pivot_y o)
        (rotation o) (payload o).

Definition set_children (cs : list oid) (o : DisplayObject) : DisplayObject :=
  mkObj (parent o) cs (destroyed o) (pos_x o) (pos_y o) (pivot_y o)
        (rotation o) (payload o).

Definition set_payload (p : Payload) (o : DisplayObject) : DisplayObject :=
  mkObj (parent o) (children o) (destroyed o) (pos_x o) (pos_y o) (pivot_y o)
        (rotation o) p.

Definition set_x (v : number) (o : DisplayObject) : DisplayObject :=
  mkObj (parent o) (children o) (destroyed o) v (pos_y o) (pivot_y o)
        (rotation o) (payload o).

Definition set_y (v : number) (o : DisplayObject) : DisplayObject :=
  mkObj (parent o) (children o) (destroyed o) (pos_x o) v (pivot_y o)
        (rotation o) (payload o).

Definition set_pivot_y (v : number) (o : DisplayObject) : DisplayObject :=
  mkObj (parent o) (children o) (destroyed o) (pos_x o) (pos_y o) v
        (rotation o) (payload o).

Definition set_rotation (v : number) (o : DisplayObject) : DisplayObject :=
  mkObj (parent o) (children o) (destroyed o) (pos_x o) (pos_y o) (pivot_y o)
        v (payload o).

(** [destroy()] of a display object, after it left its parent: the links
    are dropped and the object is marked. *)
Definition mark_destroyed (o : DisplayObject) : DisplayObject :=
  mkObj None [] true (pos_x o) (pos_y o) (pivot_y o) (rotation o) (payload o).

(** A call on a [Graphics] is appended to its record; [clear()] empties it.
    On another kind of object there is nothing to record. *)
Definition add_cmd (c : GCmd) (o : DisplayObject) : DisplayObject :=
  match payload o with
  | PGraphics cs => set_payload (PGraphics (cs ++ [c])) o
  | _ => o
  end.

Definition clear_cmds (o : DisplayObject) : DisplayObject :=
  match payload o with
  | PGraphics _ => set_payload (PGraphics []) o
  | _ => o
  end.

(** [removeItems(children, indexOf(c), 1)]: the first occurrence goes. *)
Fixpoint remove_first (c : oid) (cs : list oid) : list oid :=
  match cs with
  | [] => []
  | c' :: cs' => if Nat.eqb c' c then cs' else c' :: remove_first c cs'
  end.

Definition push_child (c : oid) (o : DisplayObject) : DisplayObject :=
  set_children (children o ++ [c]) o.

Definition remove_child (c : oid) (o : DisplayObject) : DisplayObject :=
  set_children (remove_first c (children o)) o.

Abbreviation Heap := (list DisplayObject).

(** [Container.addChild(child)]: the child leaves its former parent, gets
    the new one and is pushed at the end of the children. *)
Definition heap_addChild (p c : oid) (h : Heap) : Heap :=
  let h1 := match h !! c ≫= parent with
            | Some q => alter (remove_child c) q h
            | None => h
            end in
  let h2 := alter (set_parent (Some p)) c h1 in
  alter (push_child c) p h2.

(** [destroy({children: true, ...})]: the object is removed from its
    parent and marked destroyed, its children are detached and destroyed in
    turn.  The recursion follows the scene tree; [fuel] bounds its depth. *)
Fixpoint heap_destroy (fuel : nat) (o : oid) (h : Heap) : Heap :=
  match fuel with
  | O => h
  | S fuel' =>
      match h !! o with
      | None => h
      | Some obj =>
          let h1 := match parent obj with
                    | Some q => alter (remove_child o) q h
                    | None => h
                    end in
          let h2 := alter mark_destroyed o h1 in
          let h3 := foldl (fun h' c => alter (set_parent None) c h') h2 (children obj) in
          foldl (fun h' c => heap_destroy fuel' c h') h3 (children obj)
      end
  end.

(** ** The renderer *)

Record DebugDisplayObjects := mkDDO {
  bones : oid;
  skeletonXY : oid;
  regionAttachmentsShape : oid;
  meshTrianglesLine : oid;
  meshHullLine : oid;
  clippingPolygon : oid;
  boundingBoxesRect : oid;
  boundingBoxesCircle : oid;
  boundingBoxesPolygon : oid;
  pathsCurve : oid;
  pathsLine : oid;
  parentDebugContainer : oid
}.

(** The public configuration fields, with their initial values below. No
    method assigns any of them. *)
Record Config := mkConfig {
  drawDebug : bool;
  drawMeshHull : bool;
  drawMeshTriangles : bool;
  drawBones : bool;
  drawPaths : bool;
  drawBoundingBoxes : bool;
  drawClipping : bool;
  drawRegionAttachments : bool;
  lineWidth : number;
  regionAttachmentsColor : number;
  meshHullColor : number;
  meshTrianglesColor : number;
  clippingPolygonColor : number;
  boundingBoxesRectColor : number;
  boundingBoxesPolygonColor : number;
  boundingBoxesCircleColor : number;
  pathsCurveColor : number;
  pathsLineColor : number;
  skeletonXYColor : number;
  bonesColor : number
}.

Definition default_config : Config :=
  mkConfig true true true true true true true true
           1 0x0078ff 0x0078ff 0xffcc00 0xff00ff 0x00ff00 0x00ff00 0x00ff00
           0xff0000 0xff00ff 0xff0000 0x00eecc.

(** [registeredSpines] is a JavaScript [Map] keyed by object identity,
    kept as the list of its entries in insertion order. *)
Definition SpineMap := list (oid * DebugDisplayObjects).

Fixpoint Map_get (k : oid) (m : SpineMap) : option DebugDisplayObjects :=
  match m with
  | [] => None
  | (k', v) :: m' => if Nat.eqb k' k then Some v else Map_get k m'
  end.

Definition Map_has (k : oid) (m : SpineMap) : bool :=
  match Map_get k m with Some _ => true | None => false end.

(** [set]: the value of an existing entry is replaced in place, a new key
    is appended. *)
Fixpoint Map_set (k : oid) (v : DebugDisplayObjects) (m : SpineMap) : SpineMap :=
  match m with
  | [] => [(k, v)]
  | (k', v') :: m' =>
      if Nat.eqb k' k then (k', v) :: m' else (k', v') :: Map_set k v m'
  end.

(** [delete]: the entry found for the key is removed. *)
Fixpoint Map_delete (k : oid) (m : SpineMap) : SpineMap :=
  match m with
  | [] => []
  | (k', v') :: m' =>
      if Nat.eqb k' k then m' else (k', v') :: Map_delete k m'
  end.

(** ** Program state and the method monad *)

Record St := mkSt {
  registeredSpines : SpineMap;
  heap : Heap;
  attachments : list Attachment;
  console : list (string * oid)        (* [console.warn(message, spine)] *)
}.

Inductive Exn :=
  | TypeError (msg : string)
  | RangeError (msg : string)
  | Error (msg : string).

Inductive Completion (A : Type) :=
  | Normal (a : A)
  | Throw (e : Exn).
Arguments Normal {A} a.
Arguments Throw {A} e.

Definition M (A : Type) : Type := St -> St * Completion A.

Definition ret {A} (a : A) : M A := fun st => (st, Normal a).

Definition bind {A B} (m : M A) (k : A -> M B) : M B :=
  fun st =>
    match m st with
    | (st', Normal a) => k a st'
    | (st', Throw e) => (st', Throw e)
    end.

Definition throw {A} (e : Exn) : M A := fun st => (st, Throw e).

Notation "'let*' x ':=' c 'in' k" := (bind c (fun x => k))
  (at level 10, x name, c at level 200, k at level 200).
Notation "c >> k" := (bind c (fun _ => k))
  (at level 100, k at level 200, right associativity).

Definition get_state : M St := fun st => (st, Normal st).

Definition get_attachments : M (list Attachment) :=
  fun st => (st, Normal (attachments st)).

Definition modify_heap (f : Heap -> Heap) : M unit :=
  fun st => (mkSt (registeredSpines st) (f (heap st)) (attachments st) (console st),
             Normal tt).

Definition modify_map (f : SpineMap -> SpineMap) : M unit :=
  fun st => (mkSt (f (registeredSpines st)) (heap st) (attachments st) (console st),
             Normal tt).

Definition modify_attachments (f : list Attachment -> list Attachment) : M unit :=
  fun st => (mkSt (registeredSpines st) (heap st) (f (attachments st)) (console st),
             Normal tt).

Definition console_warn (msg : string) (spine : oid) : M unit :=
  fun st => (mkSt (registeredSpines st) (heap st) (attachments st)
                  (console st ++ [(msg, spine)]),
             Normal tt).

Definition when (b : bool) (m : M unit) : M unit := if b then m else ret tt.

(** [new Container()] and [new Graphics()]: a fresh object, whose identity
    is its position in the heap. *)
Definition new_obj (p : Payload) : M oid :=
  fun st => (mkSt (registeredSpines st) (heap st ++ [new_object p])
                  (attachments st) (console st),
             Normal (length (heap st))).

Definition new_Container : M oid := new_obj PContainer.
Definition new_Graphics : M oid := new_obj (PGraphics []).

Definition addChild (p c : oid) : M unit := modify_heap (heap_addChild p c).

Definition gfx (g : oid) (c : GCmd) : M unit := modify_heap (alter (add_cmd c) g).

Definition gfx_clear (g : oid) : M unit := modify_heap (alter clear_cmds g).

Definition set_prop (g : oid) (f : DisplayObject -> DisplayObject) : M unit :=
  modify_heap (alter f g).

(** [obj.destroy({children: true, texture: true, baseTexture: true})]; a
    scene tree has fewer levels than the heap has objects. *)
Definition destroy (o : oid) : M unit :=
  modify_heap (fun h => heap_destroy (length h) o h).

(** Iteration over an array, [for (let i = 0, len = a.length; i < len; i++)]. *)
Fixpoint for_each {A} (l : list A) (body : A -> M unit) : M unit :=
  match l with
  | [] => ret tt
  | a :: l' => body a >> for_each l' body
  end.

(** A counted loop [for (let i = i0; i < n; i += step)] carrying the
    variables [s] that the body assigns; [fuel] bounds the iterations. *)
Fixpoint for_loop {S} (fuel : nat) (n step : Z) (body : Z -> S -> M S)
         (i : Z) (s : S) : M S :=
  match fuel with
  | O => ret s
  | Datatypes.S fuel' =>
      if (i <? n)%Z
      then let* s' := body i s in for_loop fuel' n step body (i + step)%Z s'
      else ret s
  end.

(** Reading through references.  The arguments are typed references in the
    source; a reference that does not lead to an object of the expected
    kind makes the property access fail. *)
Definition spine_at (h : Heap) (o : oid) : option SpineBase :=
  match h !! o with
  | Some obj => match payload obj with PSpine s => Some s | _ => None end
  | None => None
  end.

Definition read_spine (spine : oid) : M SpineBase :=
  fun st =>
    match spine_at (heap st) spine with
    | Some s => (st, Normal s)
    | None => (st, Throw (TypeError "Cannot read properties of undefined"))
    end.

Definition children_of (h : Heap) (o : oid) : list oid :=
  match h !! o with Some obj => children obj | None => [] end.

(** The calls recorded by the [Graphics] [o]. *)
Definition commands_of (h : Heap) (o : oid) : list GCmd :=
  match h !! o with
  | Some obj => match payload obj with PGraphics cs => cs | _ => [] end
  | None => []
  end.

Definition is_graphics (h : Heap) (o : oid) : Prop :=
  exists obj cs, h !! o = Some obj /\ payload obj = PGraphics cs.

Definition is_destroyed (h : Heap) (o : oid) : bool :=
  match h !! o with Some obj => destroyed obj | None => false end.

(** [slot.getAttachment()], with the identity of the object returned. *)
Definition getAttachment (slot : Slot) : M (option (aid * Attachment)) :=
  fun st =>
    (st, Normal (match slot_attachment slot with
                 | Some a => match attachments st !! a with
                             | Some att => Some (a, att)
                             | None => None
                             end
                 | None => None
                 end)).

(** What a [Float32Array] of length [n], once allocated, holds after a
    method has filled it: the length is fixed, the places not written keep
    their initial [0]. *)
Definition Float32Array_after (n : nat) (written : list number) : list number :=
  take n (written ++ replicate (n - length written) 0).

Section Renderer.

(** [Math.acos], which the language leaves to the implementation. *)
Variable Math_acos : number -> number.

(** [new SkeletonBoundsBase().update(skeleton, true)], a class of the base
    package outside this file; it reads the skeleton and the attachments. *)
Variable SkeletonBounds_update : Skeleton -> list Attachment -> SkeletonBounds.

(** [new Float32Array(n)] raises a [RangeError] when the engine cannot
    allocate a buffer of [n] numbers.  Which lengths an engine refuses, and
    with which message, is left to it: [Float32Array_refused n] is the
    message for a length that it refuses.  The lengths concerned are those
    read from the pose, [worldVerticesLength] of a mesh, clipping or path
    attachment; the buffer of the constant length 8 from which a region is
    drawn is one of 32 bytes, which is taken to be allocated always. *)
Variable Float32Array_refused : nat -> option string.

Definition new_Float32Array (n : nat) : M unit :=
  match Float32Array_refused n with
  | Some msg => throw (RangeError msg)
  | None => ret tt
  end.

Variable this : Config.

(** *** registerSpine *)

Definition registerSpine (spine : oid) : M unit :=
  let* st := get_state in
  when (Map_has spine (registeredSpines st))
       (console_warn "SpineDebugRenderer.registerSpine() - this spine is already registered!" spine) >>
  let* o_parentDebugContainer := new_Container in
  let* o_bones := new_Container in
  let* o_skeletonXY := new_Graphics in
  let* o_regionAttachmentsShape := new_Graphics in
  let* o_meshTrianglesLine := new_Graphics in
  let* o_meshHullLine := new_Graphics in
  let* o_clippingPolygon := new_Graphics in
  let* o_boundingBoxesRect := new_Graphics in
  let* o_boundingBoxesCircle := new_Graphics in
  let* o_boundingBoxesPolygon := new_Graphics in
  let* o_pathsCurve := new_Graphics in
  let* o_pathsLine := new_Graphics in
  let debugDisplayObjects :=
    {| parentDebugContainer := o_parentDebugContainer;
       bones := o_bones;
       skeletonXY := o_skeletonXY;
       regionAttachmentsShape := o_regionAttachmentsShape;
       meshTrianglesLine := o_meshTrianglesLine;
       meshHullLine := o_meshHullLine;
       clippingPolygon := o_clippingPolygon;
       boundingBoxesRect := o_boundingBoxesRect;
       boundingBoxesCircle := o_boundingBoxesCircle;
       boundingBoxesPolygon := o_boundingBoxesPolygon;
       pathsCurve := o_pathsCurve;
       pathsLine := o_pathsLine |} in
  addChild (parentDebugContainer debugDisplayObjects) (bones debugDisplayObjects) >>
  addChild (parentDebugContainer debugDisplayObjects) (skeletonXY debugDisplayObjects) >>
  addChild (parentDebugContainer debugDisplayObjects) (regionAttachmentsShape debugDisplayObjects) >>
  addChild (parentDebugContainer debugDisplayObjects) (meshTrianglesLine debugDisplayObjects) >>
  addChild (parentDebugContainer debugDisplayObjects) (meshHullLine debugDisplayObjects) >>
  addChild (parentDebugContainer debugDisplayObjects) (clippingPolygon debugDisplayObjects) >>
  addChild (parentDebugContainer debugDisplayObjects) (boundingBoxesRect debugDisplayObjects) >>
  addChild (parentDebugContainer debugDisplayObjects) (boundingBoxesCircle debugDisplayObjects) >>
  addChild (parentDebugContainer debugDisplayObjects) (boundingBoxesPolygon debugDisplayObjects) >>
  addChild (parentDebugContainer debugDisplayObjects) (pathsCurve debugDisplayObjects) >>
  addChild (parentDebugContainer debugDisplayObjects) (pathsLine debugDisplayObjects) >>
  addChild spine (parentDebugContainer debugDisplayObjects) >>
  modify_map (Map_set spine debugDisplayObjects).

(** *** drawBonesFunc *)

(** The length [c] of the segment drawn for a bone, as the loop body
    computes it. *)
Definition bone_c (skeletonX skeletonY : number) (bone : Bone) : number :=
  let boneLen := bd_length (bone_data bone) in
  let starX := skeletonX + m_tx (bone_matrix bone) in
  let starY := skeletonY + m_ty (bone_matrix bone) in
  let endX := skeletonX + boneLen * m_a (bone_matrix bone) + m_tx (bone_matrix bone) in
  let endY := skeletonY + boneLen * m_b (bone_matrix bone) + m_ty (bone_matrix bone) in
  let w := Math_abs (starX - endX) in
  let h := Math_abs (starY - endY) in
  let a2 := Math_pow2 w in
  let b2 := Math_pow2 h in
  Math_sqrt (a2 + b2).

Definition drawBone (debugDisplayObjects : DebugDisplayObjects)
           (lineWidth scale skeletonX skeletonY : number) (bone : Bone) : M unit :=
  let boneLen := bd_length (bone_data bone) in
  let starX := skeletonX + m_tx (bone_matrix bone) in
  let starY := skeletonY + m_ty (bone_matrix bone) in
  let endX := skeletonX + boneLen * m_a (bone_matrix bone) + m_tx (bone_matrix bone) in
  let endY := skeletonY + boneLen * m_b (bone_matrix bone) + m_ty (bone_matrix bone) in
  if String.eqb (bd_name (bone_data bone)) "root"
     || match bd_parent (bone_data bone) with None => true | Some _ => false end
  then ret tt        (* continue *)
  else
    let w := Math_abs (starX - endX) in
    let h := Math_abs (starY - endY) in
    let a2 := Math_pow2 w in
    let b := h in
    let b2 := Math_pow2 h in
    let c := Math_sqrt (a2 + b2) in
    let c2 := Math_pow2 c in
    let rad := Math_PI / 180 in
    let B := js_or (Math_acos ((c2 + b2 - a2) / (2 * b * c))) 0 in
    if PrimFloat.eqb c 0
    then ret tt      (* continue *)
    else
      let* gp := new_Graphics in
      addChild (bones debugDisplayObjects) gp >>
      let refRation := c / 50 / scale in
      gfx gp (BeginFill (Some (bonesColor this)) (Some 1)) >>
      gfx gp (DrawPolygon [Some 0; Some 0;
                           Some (0 - refRation); Some (c - refRation * 3);
                           Some 0; Some (c - refRation);
                           Some (0 + refRation); Some (c - refRation * 3)]) >>
      gfx gp EndFill >>
      set_prop gp (set_x starX) >>
      set_prop gp (set_y starY) >>
      set_prop gp (set_pivot_y c) >>
      let rotation :=
        if PrimFloat.ltb starX endX && PrimFloat.ltb starY endY then - B + 180 * rad
        else if gtb starX endX && PrimFloat.ltb starY endY then 180 * rad + B
        else if gtb starX endX && gtb starY endY then - B
        else if PrimFloat.ltb starX endX && gtb starY endY then B
        else if PrimFloat.eqb starY endY && PrimFloat.ltb starX endX then 90 * rad
        else if PrimFloat.eqb starY endY && gtb starX endX then -90 * rad
        else if PrimFloat.eqb starX endX && PrimFloat.ltb starY endY then 180 * rad
        else if PrimFloat.eqb starX endX && gtb starY endY then 0
        else 0 in
      set_prop gp (set_rotation rotation) >>
      gfx gp (LineStyle (Some (lineWidth + refRation / 2.4)) (Some (bonesColor this)) (Some 1)) >>
      gfx gp (BeginFill (Some 0x000000) (Some 0.6)) >>
      gfx gp (DrawCircle (Some 0) (Some c) (Some (refRation * 1.2))) >>
      gfx gp EndFill.

Definition drawBonesFunc (spine : oid) (debugDisplayObjects : DebugDisplayObjects)
           (lineWidth scale : number) : M unit :=
  let* sp := read_spine spine in
  let skeleton := skeleton sp in
  let skeletonX := sk_x skeleton in
  let skeletonY := sk_y skeleton in
  let bones := sk_bones skeleton in
  gfx (skeletonXY debugDisplayObjects)
      (LineStyle (Some lineWidth) (Some (skeletonXYColor this)) (Some 1)) >>
  for_each bones (drawBone debugDisplayObjects lineWidth scale skeletonX skeletonY) >>
  let startDotSize := lineWidth * 3 in
  gfx (skeletonXY debugDisplayObjects)
      (MoveTo (Some (skeletonX - startDotSize)) (Some (skeletonY - startDotSize))) >>
  gfx (skeletonXY debugDisplayObjects)
      (LineTo (Some (skeletonX + startDotSize)) (Some (skeletonY + startDotSize))) >>
  gfx (skeletonXY debugDisplayObjects)
      (MoveTo (Some (skeletonX + startDotSize)) (Some (skeletonY - startDotSize))) >>
  gfx (skeletonXY debugDisplayObjects)
      (LineTo (Some (skeletonX - startDotSize)) (Some (skeletonY + startDotSize))).

(** *** drawRegionAttachmentsFunc *)

(** [regionAttachment?.updateOffset()]: the attachment is not null here, so
    the method is looked up and called; where the object has no such method
    the call fails.  The method updates the attachment object in place. *)
Definition call_updateOffset (a : aid) (att : Attachment) : M Attachment :=
  match updateOffset att with
  | None => throw (TypeError "regionAttachment.updateOffset is not a function")
  | Some f =>
      let att' := mkAttachment (f (att_data att)) (computeWorldVertices att)
                               (updateOffset att) in
      modify_attachments (fun atts => <[a := att']> atts) >>
      ret att'
  end.

Definition drawRegionSlot (debugDisplayObjects : DebugDisplayObjects) (slot : Slot) : M unit :=
  let* attachment := getAttachment slot in
  match attachment with
  | None => ret tt
  | Some (a, att) =>
      if negb (AttachmentType_eqb (att_type (att_data att)) Region)
      then ret tt
      else
        let* regionAttachment := call_updateOffset a att in
        let vertices :=
          Float32Array_after 8
            (computeWorldVertices regionAttachment (att_data regionAttachment)
                                  (slot_bone slot) 8) in
        gfx (regionAttachmentsShape debugDisplayObjects)
            (DrawPolygon (map Some (take 8 vertices)))
  end.

Definition drawRegionAttachmentsFunc (spine : oid)
           (debugDisplayObjects : DebugDisplayObjects) (lineWidth : number) : M unit :=
  let* sp := read_spine spine in
  let slots := sk_slots (skeleton sp) in
  gfx (regionAttachmentsShape debugDisplayObjects)
      (LineStyle (Some lineWidth) (Some (regionAttachmentsColor this)) (Some 1)) >>
  for_each slots (drawRegionSlot debugDisplayObjects).

(** *** drawMeshHullAndMeshTriangles *)

(** [vertices[t * 2 + k]] for a triangle index [t] that may itself be
    [undefined]. *)
Definition tri_vertex (vertices : list number) (t : option nat) (k : nat) : value :=
  match t with
  | Some t => vertices !! (t * 2 + k)%nat
  | None => None
  end.

Definition drawTriangle (debugDisplayObjects : DebugDisplayObjects)
           (vertices : list number) (t1 t2 t3 : option nat) : M unit :=
  gfx (meshTrianglesLine debugDisplayObjects)
      (MoveTo (tri_vertex vertices t1 0) (tri_vertex vertices t1 1)) >>
  gfx (meshTrianglesLine debugDisplayObjects)
      (LineTo (tri_vertex vertices t2 0) (tri_vertex vertices t2 1)) >>
  gfx (meshTrianglesLine debugDisplayObjects)
      (LineTo (tri_vertex vertices t3 0) (tri_vertex vertices t3 1)).

(** [for (let i = 0, len = triangles.length; i < len; i += 3)] *)
Fixpoint drawTriangles (debugDisplayObjects : DebugDisplayObjects)
         (vertices : list number) (triangles : list nat) : M unit :=
  match triangles with
  | [] => ret tt
  | [t1] => drawTriangle debugDisplayObjects vertices (Some t1) None None
  | [t1; t2] => drawTriangle debugDisplayObjects vertices (Some t1) (Some t2) None
  | t1 :: t2 :: t3 :: rest =>
      drawTriangle debugDisplayObjects vertices (Some t1) (Some t2) (Some t3) >>
      drawTriangles debugDisplayObjects vertices rest
  end.

Definition drawHullSegment (debugDisplayObjects : DebugDisplayObjects)
           (vertices : list number) (i : Z) (last : value * value) : M (value * value) :=
  let x := arr_get vertices i in
  let y := arr_get vertices (i + 1) in
  gfx (meshHullLine debugDisplayObjects) (MoveTo x y) >>
  gfx (meshHullLine debugDisplayObjects) (LineTo (fst last) (snd last)) >>
  ret (x, y).

Definition drawMeshSlot (debugDisplayObjects : DebugDisplayObjects) (slot : Slot) : M unit :=
  if negb (bone_active (slot_bone slot)) then ret tt
  else
    let* attachment := getAttachment slot in
    match attachment with
    | None => ret tt
    | Some (_, meshAttachment) =>
        if negb (AttachmentType_eqb (att_type (att_data meshAttachment)) Mesh)
        then ret tt
        else
          let n := worldVerticesLength (att_data meshAttachment) in
          new_Float32Array n >>
          let vertices :=
            Float32Array_after n
              (computeWorldVertices meshAttachment (att_data meshAttachment)
                                    (slot_bone slot) n) in
          let triangles := triangles (att_data meshAttachment) in
          let hullLength := hullLength (att_data meshAttachment) in
          when (drawMeshTriangles this)
               (drawTriangles debugDisplayObjects vertices triangles) >>
          if drawMeshHull this && (0 <? hullLength)%Z
          then
            let hullLength := (sar1 hullLength * 2)%Z in
            let lastX := arr_get vertices (hullLength - 2) in
            let lastY := arr_get vertices (hullLength - 1) in
            for_loop (Z.to_nat hullLength) hullLength 2
                     (drawHullSegment debugDisplayObjects vertices) 0%Z (lastX, lastY) >>
            ret tt
          else ret tt
    end.

Definition drawMeshHullAndMeshTriangles (spine : oid)
           (debugDisplayObjects : DebugDisplayObjects) (lineWidth : number) : M unit :=
  let* sp := read_spine spine in
  let slots := sk_slots (skeleton sp) in
  gfx (meshHullLine debugDisplayObjects)
      (LineStyle (Some lineWidth) (Some (meshHullColor this)) (Some 1)) >>
  gfx (meshTrianglesLine debugDisplayObjects)
      (LineStyle (Some lineWidth) (Some (meshTrianglesColor this)) (Some 1)) >>
  for_each slots (drawMeshSlot debugDisplayObjects).

(** *** drawClippingFunc *)

Definition drawClippingSlot (debugDisplayObjects : DebugDisplayObjects) (slot : Slot) : M unit :=
  if negb (bone_active (slot_bone slot)) then ret tt
  else
    let* attachment := getAttachment slot in
    match attachment with
    | None => ret tt
    | Some (_, clippingAttachment) =>
        if negb (AttachmentType_eqb (att_type (att_data clippingAttachment)) Clipping)
        then ret tt
        else
          let nn := worldVerticesLength (att_data clippingAttachment) in
          new_Float32Array nn >>
          let world :=
            Float32Array_after nn
              (computeWorldVertices clippingAttachment (att_data clippingAttachment)
                                    (slot_bone slot) nn) in
          gfx (clippingPolygon debugDisplayObjects) (DrawPolygon (map Some world))
    end.

Definition drawClippingFunc (spine : oid)
           (debugDisplayObjects : DebugDisplayObjects) (lineWidth : number) : M unit :=
  let* sp := read_spine spine in
  let slots := sk_slots (skeleton sp) in
  gfx (clippingPolygon debugDisplayObjects)
      (LineStyle (Some lineWidth) (Some (clippingPolygonColor this)) (Some 1)) >>
  for_each slots (drawClippingSlot debugDisplayObjects).

(** *** drawBoundingBoxesFunc *)

(** The loop of the inner [drawPolygon] over the vertices of a polygon,
    [for (let i = 0, len = polygonVertices.length; i < len; i += 2)]: a dot
    is drawn at each vertex and its coordinates are pushed on [paths]. *)
Definition drawPolygonNode (debugDisplayObjects : DebugDisplayObjects)
           (dotSize : number) (x1 y1 : value) : M unit :=
  gfx (boundingBoxesCircle debugDisplayObjects) (LineStyle (Some 0) None None) >>
  gfx (boundingBoxesCircle debugDisplayObjects)
      (BeginFill (Some (boundingBoxesCircleColor this)) None) >>
  gfx (boundingBoxesCircle debugDisplayObjects) (DrawCircle x1 y1 (Some dotSize)) >>
  gfx (boundingBoxesCircle debugDisplayObjects) EndFill.

Fixpoint drawPolygonNodes (debugDisplayObjects : DebugDisplayObjects)
         (dotSize : number) (polygonVertices : list number) (paths : list value)
  : M (list value) :=
  match polygonVertices with
  | [] => ret paths
  | [x1] =>
      drawPolygonNode debugDisplayObjects dotSize (Some x1) None >>
      ret (paths ++ [Some x1; None])
  | x1 :: y1 :: rest =>
      drawPolygonNode debugDisplayObjects dotSize (Some x1) (Some y1) >>
      drawPolygonNodes debugDisplayObjects dotSize rest (paths ++ [Some x1; Some y1])
  end.

(** The inner arrow function [drawPolygon(polygonVertices, _offset, count)]. *)
Definition drawPolygon (debugDisplayObjects : DebugDisplayObjects) (lineWidth : number)
           (polygonVertices : list number) (_offset : nat) (count : nat) : M unit :=
  gfx (boundingBoxesPolygon debugDisplayObjects)
      (LineStyle (Some lineWidth) (Some (boundingBoxesPolygonColor this)) (Some 1)) >>
  gfx (boundingBoxesPolygon debugDisplayObjects)
      (BeginFill (Some (boundingBoxesPolygonColor this)) (Some 0.1)) >>
  (if Nat.ltb count 3
   then throw (Error "Polygon must contain at least 3 vertices")
   else ret tt) >>
  let dotSize := lineWidth * 2 in
  let* paths := drawPolygonNodes debugDisplayObjects dotSize polygonVertices [] in
  gfx (boundingBoxesPolygon debugDisplayObjects) (DrawPolygon paths) >>
  gfx (boundingBoxesPolygon debugDisplayObjects) EndFill.

Definition drawBoundingBoxesFunc (spine : oid)
           (debugDisplayObjects : DebugDisplayObjects) (lineWidth : number) : M unit :=
  gfx (boundingBoxesRect debugDisplayObjects)
      (LineStyle (Some lineWidth) (Some (boundingBoxesRectColor this)) (Some 5)) >>
  let* sp := read_spine spine in
  let* atts := get_attachments in
  let bounds := SkeletonBounds_update (skeleton sp) atts in
  gfx (boundingBoxesRect debugDisplayObjects)
      (DrawRect (Some (minX bounds)) (Some (minY bounds))
                (Some (getWidth bounds)) (Some (getHeight bounds))) >>
  let polygons := polygons bounds in
  for_each polygons
           (fun polygon => drawPolygon debugDisplayObjects lineWidth polygon 0 (length polygon)).

(** *** drawPathsFunc *)

Definition drawPathSegment (debugDisplayObjects : DebugDisplayObjects)
           (x1 y1 cx1 cy1 cx2 cy2 x2 y2 : value) : M unit :=
  gfx (pathsCurve debugDisplayObjects) (MoveTo x1 y1) >>
  gfx (pathsCurve debugDisplayObjects) (BezierCurveTo cx1 cy1 cx2 cy2 x2 y2) >>
  gfx (pathsLine debugDisplayObjects) (MoveTo x1 y1) >>
  gfx (pathsLine debugDisplayObjects) (LineTo cx1 cy1) >>
  gfx (pathsLine debugDisplayObjects) (MoveTo x2 y2) >>
  gfx (pathsLine debugDisplayObjects) (LineTo cx2 cy2).

(** The body of [for (let ii = 4; ii < nn; ii += 6)]; the loop carries
    [x1], [y1], [x2], [y2]. *)
Definition drawPathCurve (debugDisplayObjects : DebugDisplayObjects) (world : list number)
           (ii : Z) (s : value * value * value * value) : M (value * value * value * value) :=
  let '(x1, y1, _, _) := s in
  let cx1 := arr_get world ii in
  let cy1 := arr_get world (ii + 1) in
  let cx2 := arr_get world (ii + 2) in
  let cy2 := arr_get world (ii + 3) in
  let x2 := arr_get world (ii + 4) in
  let y2 := arr_get world (ii + 5) in
  drawPathSegment debugDisplayObjects x1 y1 cx1 cy1 cx2 cy2 x2 y2 >>
  ret (x2, y2, x2, y2).

Definition drawPathSlot (debugDisplayObjects : DebugDisplayObjects) (slot : Slot) : M unit :=
  if negb (bone_active (slot_bone slot)) then ret tt
  else
    let* attachment := getAttachment slot in
    match attachment with
    | None => ret tt
    | Some (_, pathAttachment) =>
        if negb (AttachmentType_eqb (att_type (att_data pathAttachment)) Path)
        then ret tt
        else
          let nn := Z.of_nat (worldVerticesLength (att_data pathAttachment)) in
          new_Float32Array (worldVerticesLength (att_data pathAttachment)) >>
          let world :=
            Float32Array_after (worldVerticesLength (att_data pathAttachment))
              (computeWorldVertices pathAttachment (att_data pathAttachment)
                                    (slot_bone slot)
                                    (worldVerticesLength (att_data pathAttachment))) in
          let x1 := arr_get world 2 in
          let y1 := arr_get world 3 in
          let x2 : value := Some 0 in
          let y2 : value := Some 0 in
          let* s :=
            (if closed (att_data pathAttachment)
             then
               let cx1 := arr_get world 0 in
               let cy1 := arr_get world 1 in
               let cx2 := arr_get world (nn - 2) in
               let cy2 := arr_get world (nn - 1) in
               let x2 := arr_get world (nn - 4) in
               let y2 := arr_get world (nn - 3) in
               drawPathSegment debugDisplayObjects x1 y1 cx1 cy1 cx2 cy2 x2 y2 >>
               ret (x1, y1, x2, y2)
             else ret (x1, y1, x2, y2)) in
          let nn := (nn - 4)%Z in
          for_loop (Z.to_nat nn) nn 6 (drawPathCurve debugDisplayObjects world) 4%Z s >>
          ret tt
    end.

Definition drawPathsFunc (spine : oid)
           (debugDisplayObjects : DebugDisplayObjects) (lineWidth : number) : M unit :=
  let* sp := read_spine spine in
  let slots := sk_slots (skeleton sp) in
  gfx (pathsCurve debugDisplayObjects)
      (LineStyle (Some lineWidth) (Some (pathsCurveColor this)) (Some 1)) >>
  gfx (pathsLine debugDisplayObjects)
      (LineStyle (Some lineWidth) (Some (pathsLineColor this)) (Some 1)) >>
  for_each slots (drawPathSlot debugDisplayObjects).

(** *** renderDebug *)

(** [for (let len = bones.children.length; len > 0; len--)
       bones.children[len - 1].destroy({...})] *)
Fixpoint destroyBoneChildren (bones : oid) (len : nat) : M unit :=
  match len with
  | O => ret tt
  | S len' =>
      let* st := get_state in
      match children_of (heap st) bones !! len' with
      | Some child => destroy child >> destroyBoneChildren bones len'
      | None => throw (TypeError "Cannot read properties of undefined (reading 'destroy')")
      end
  end.

(** The statements of [renderDebug] once the entry is at hand, in two
    parts: the ten [clear()] calls and the loop that destroys the children
    of the bones container; then the scale, the line width and the six
    guarded drawing calls. *)
Definition clearDebugDisplayObjects (debugDisplayObjects : DebugDisplayObjects) : M unit :=
  gfx_clear (skeletonXY debugDisplayObjects) >>
  gfx_clear (regionAttachmentsShape debugDisplayObjects) >>
  gfx_clear (meshTrianglesLine debugDisplayObjects) >>
  gfx_clear (meshHullLine debugDisplayObjects) >>
  gfx_clear (clippingPolygon debugDisplayObjects) >>
  gfx_clear (boundingBoxesRect debugDisplayObjects) >>
  gfx_clear (boundingBoxesCircle debugDisplayObjects) >>
  gfx_clear (boundingBoxesPolygon debugDisplayObjects) >>
  gfx_clear (pathsCurve debugDisplayObjects) >>
  gfx_clear (pathsLine debugDisplayObjects) >>
  let* st := get_state in
  destroyBoneChildren (bones debugDisplayObjects)
                      (length (children_of (heap st) (bones debugDisplayObjects))).

Definition drawDebugDisplayObjects (spine : oid)
           (debugDisplayObjects : DebugDisplayObjects) : M unit :=
  let* sp := read_spine spine in
  let scale := js_or (js_or (scale_x sp) (scale_y sp)) 1 in
  let lineWidth := lineWidth this / scale in
  when (drawBones this)
       (drawBonesFunc spine debugDisplayObjects lineWidth scale) >>
  when (drawPaths this)
       (drawPathsFunc spine debugDisplayObjects lineWidth) >>
  when (drawBoundingBoxes this)
       (drawBoundingBoxesFunc spine debugDisplayObjects lineWidth) >>
  when (drawClipping this)
       (drawClippingFunc spine debugDisplayObjects lineWidth) >>
  when (drawMeshHull this || drawMeshTriangles this)
       (drawMeshHullAndMeshTriangles spine debugDisplayObjects lineWidth) >>
  when (drawRegionAttachments this)
       (drawRegionAttachmentsFunc spine debugDisplayObjects lineWidth).

Definition renderDebug (spine : oid) : M unit :=
  let* st := get_state in
  when (negb (Map_has spine (registeredSpines st))) (registerSpine spine) >>
  let* st := get_state in
  match Map_get spine (registeredSpines st) with
  | None => throw (TypeError "Cannot read properties of undefined (reading 'skeletonXY')")
  | Some debugDisplayObjects =>
      clearDebugDisplayObjects debugDisplayObjects >>
      drawDebugDisplayObjects spine debugDisplayObjects
  end.

(** *** unregisterSpine *)

Definition unregisterSpine (spine : oid) : M unit :=
  let* st := get_state in
  when (negb (Map_has spine (registeredSpines st)))
       (console_warn "SpineDebugRenderer.unregisterSpine() - spine is not registered, can't unregister!" spine) >>
  let* st := get_state in
  match Map_get spine (registeredSpines st) with
  | None =>
      throw (TypeError "Cannot read properties of undefined (reading 'parentDebugContainer')")
  | Some debugDisplayObjects =>
      destroy (parentDebugContainer debugDisplayObjects) >>
      modify_map (Map_delete spine)
  end.

End Renderer.

(** ** Calls of the host, and runs *)

(** The host calls the three public methods, in any order; between two
    calls it may have assigned the public configuration fields. *)
Inductive Call :=
  | Register (spine : oid)
  | Unregister (spine : oid)
  | Render (this : Config) (spine : oid).

Section Run.

Variable Math_acos : number -> number.
Variable SkeletonBounds_update : Skeleton -> list Attachment -> SkeletonBounds.
Variable Float32Array_refused : nat -> option string.

Definition call (c : Call) : M unit :=
  match c with
  | Register spine => registerSpine spine
  | Unregister spine => unregisterSpine spine
  | Render this spine =>
      renderDebug Math_acos SkeletonBounds_update Float32Array_refused this spine
  end.

(** A run keeps the state that a call leaves, however the call completes. *)
Definition run (calls : list Call) (st : St) : St :=
  foldl (fun st c => fst (call c st)) st calls.

End Run.

(** [new SpineDebugRenderer()] in a world with the given objects. *)
Definition new_renderer (h : Heap) (atts : list Attachment) : St :=
  mkSt [] h atts [].

(** ** Relations between the state before and after a computation *)

(** [stable R m]: the state that [m] leaves, however it completes, is
    related by [R] to the state it started from. *)
Definition stable {A} (R : St -> St -> Prop) (m : M A) : Prop :=
  forall st, R st (fst (m st)).

Definition same_map (st st' : St) : Prop :=
  registeredSpines st' = registeredSpines st.

Definition same_attachments (st st' : St) : Prop :=
  attachments st' = attachments st.

Definition keys (st : St) : list oid := map fst (registeredSpines st).

(** The keys of the registration map stay without repetition. *)
Definition keeps_keys_distinct (st st' : St) : Prop :=
  NoDup (keys st) -> NoDup (keys st').

Definition with_regions_off (this : Config) : Config :=
  mkConfig (drawDebug this) (drawMeshHull this) (drawMeshTriangles this)
           (drawBones this) (drawPaths this) (drawBoundingBoxes this)
           (drawClipping this) false (lineWidth this)
           (regionAttachmentsColor this) (meshHullColor this)
           (meshTrianglesColor this) (clippingPolygonColor this)
           (boundingBoxesRectColor this) (boundingBoxesPolygonColor this)
           (boundingBoxesCircleColor this) (pathsCurveColor this)
           (pathsLineColor this) (skeletonXYColor this) (bonesColor this).

Definition with_drawDebug (b : bool) (this : Config) : Config :=
  mkConfig b (drawMeshHull this) (drawMeshTriangles this) (drawBones this)
           (drawPaths this) (drawBoundingBoxes this) (drawClipping this)
           (drawRegionAttachments this) (lineWidth this)
           (regionAttachmentsColor this) (meshHullColor this)
           (meshTrianglesColor this) (clippingPolygonColor this)
           (boundingBoxesRectColor this) (boundingBoxesPolygonColor this)
           (boundingBoxesCircleColor this) (pathsCurveColor this)
           (pathsLineColor this) (skeletonXYColor this) (bonesColor this).

(** ** A sample scene, on which the methods are run *)

(** A stand-in for the engine's [Math.acos] when a method is run on the
    sample scene (the first terms of its series); the theorems are stated
    for any function. *)
Definition sample_acos (v : number) : number := Math_PI / 2 - v.

(** A stand-in for the engine's limit on typed arrays when a method is run
    on the sample scene: buffers of more than 64 numbers are refused; the
    theorems are stated for any engine. *)
Definition sample_refused (n : nat) : option string :=
  if (n <=? 64)%nat then None else Some "Array buffer allocation failed".

(** A stand-in for [SkeletonBoundsBase.update]: one polygon per slot with
    an active bone and a bounding-box attachment, holding the world
    vertices of the attachment, and the box around all of them. *)
Definition sample_polygon (atts : list Attachment) (slot : Slot) : option (list number) :=
  if bone_active (slot_bone slot) then
    match slot_attachment slot with
    | Some a =>
        match atts !! a with
        | Some att =>
            if AttachmentType_eqb (att_type (att_data att)) BoundingBox
            then Some (Float32Array_after (worldVerticesLength (att_data att))
                         (computeWorldVertices att (att_data att) (slot_bone slot)
                                               (worldVerticesLength (att_data att))))
            else None
        | None => None
        end
    | None => None
    end
  else None.

Definition fmin (a b : number) : number := if PrimFloat.ltb b a then b else a.
Definition fmax (a b : number) : number := if PrimFloat.ltb a b then b else a.

Fixpoint sample_aabb (vs : list number) (box : number * number * number * number)
  : number * number * number * number :=
  match vs with
  | x :: y :: rest =>
      let '(x0, y0, x1, y1) := box in
      sample_aabb rest (fmin x0 x, fmin y0 y, fmax x1 x, fmax y1 y)
  | _ => box
  end.

Definition sample_bounds (sk : Skeleton) (atts : list Attachment) : SkeletonBounds :=
  let polys := omap (sample_polygon atts) (sk_slots sk) in
  let '(x0, y0, x1, y1) :=
    sample_aabb (concat polys) (infinity, infinity, neg_infinity, neg_infinity) in
  mkBounds x0 y0 (x1 - x0) (y1 - y0) polys.

Definition identity_matrix : Matrix := mkMatrix 1 0 0 1 0 0.

Definition root_data : BoneData := mkBoneData "root" 0 None.
Definition hip_data : BoneData := mkBoneData "hip" 10 (Some root_data).
Definition tip_data : BoneData := mkBoneData "tip" 0 (Some hip_data).
Definition tail_data : BoneData := mkBoneData "tail" 5 None.

Definition root_bone : Bone := mkBone root_data identity_matrix true.
Definition hip_bone : Bone := mkBone hip_data (mkMatrix 0 1 (-1) 0 2 3) true.
Definition tip_bone : Bone := mkBone tip_data (mkMatrix 1 0 0 1 2 13) true.
Definition tail_bone : Bone := mkBone tail_data identity_matrix true.

(** A region attachment in the manner of the runtimes: [att_stored] holds
    its placement followed by the offset cached from it, [updateOffset]
    recomputes the cache, [computeWorldVertices] reads the cache. *)
Definition region_updateOffset (d : AttachmentData) : AttachmentData :=
  mkAttachmentData (att_name d) (att_type d) (worldVerticesLength d) (triangles d)
                   (hullLength d) (closed d)
                   (match att_stored d with
                    | placement :: _ => [placement; placement]
                    | [] => []
                    end).

Definition region_vertices (d : AttachmentData) (b : Bone) (n : nat) : list number :=
  let o := match att_stored d with [_; o] => o | _ => 0 end in
  let x := m_tx (bone_matrix b) in
  let y := m_ty (bone_matrix b) in
  [x - o; y - o; x - o; y + o; x + o; y + o; x + o; y - o].

(** The region was moved to placement [4] after its offset was cached. *)
Definition sample_region : Attachment :=
  mkAttachment (mkAttachmentData "head" Region 0 [] 0 false [4; 1])
               region_vertices (Some region_updateOffset).

(** A bounding box of two vertices, and one of three. *)
Definition sample_bbox2 : Attachment :=
  mkAttachment (mkAttachmentData "edge" BoundingBox 4 [] 0 false [])
               (fun _ _ _ => [0; 0; 10; 10]) None.

Definition sample_bbox3 : Attachment :=
  mkAttachment (mkAttachmentData "hit" BoundingBox 6 [] 0 false [])
               (fun _ _ _ => [0; 0; 10; 0; 0; 10]) None.

Definition sample_mesh : Attachment :=
  mkAttachment (mkAttachmentData "skin" Mesh 6 [0; 1; 2]%nat 6 false [])
               (fun _ _ _ => [0; 0; 4; 0; 0; 3]) None.

Definition sample_attachments : list Attachment :=
  [sample_region; sample_bbox2; sample_bbox3; sample_mesh].

Definition sample_skeleton (slots : list (option aid)) : Skeleton :=
  mkSkeleton 0 0 [root_bone; hip_bone; tip_bone; tail_bone]
             (map (mkSlot hip_bone) slots).

(** A world with one spine object, of identity [0], whose slots hold the
    given attachments, and a renderer just created. *)
Definition sample_world (slots : list (option aid)) : St :=
  new_renderer [new_object (PSpine (mkSpine 1 1 (sample_skeleton slots)))]
               sample_attachments.

(** ** What registerSpine builds *)

(** The bundle created by [registerSpine] in a heap of [n] objects: twelve
    new objects, numbered in the order of their creation. *)
Definition fresh_entry (n : nat) : DebugDisplayObjects :=
  {| parentDebugContainer := n;
     bones := n + 1;
     skeletonXY := n + 2;
     regionAttachmentsShape := n + 3;
     meshTrianglesLine := n + 4;
     meshHullLine := n + 5;
     clippingPolygon := n + 6;
     boundingBoxesRect := n + 7;
     boundingBoxesCircle := n + 8;
     boundingBoxesPolygon := n + 9;
     pathsCurve := n + 10;
     pathsLine := n + 11 |}.

(** The ten [Graphics] of a bundle. *)
Definition surfaces (d : DebugDisplayObjects) : list oid :=
  [skeletonXY d; regionAttachmentsShape d; meshTrianglesLine d; meshHullLine d;
   clippingPolygon d; boundingBoxesRect d; boundingBoxesCircle d;
   boundingBoxesPolygon d; pathsCurve d; pathsLine d].

Definition fresh_objects (spine : oid) (n : nat) : list DisplayObject :=
  mkObj (Some spine) (bones (fresh_entry n) :: surfaces (fresh_entry n))
        false 0 0 0 0 PContainer
  :: mkObj (Some n) [] false 0 0 0 0 PContainer
  :: replicate 10 (mkObj (Some n) [] false 0 0 0 0 (PGraphics [])).

Definition registerSpine_warning : string :=
  "SpineDebugRenderer.registerSpine() - this spine is already registered!".

(** The state that [registerSpine spine] leaves. *)
Definition registered (spine : oid) (st : St) : St :=
  let n := length (heap st) in
  mkSt (Map_set spine (fresh_entry n) (registeredSpines st))
       (alter (push_child n) spine (heap st) ++ fresh_objects spine n)
       (attachments st)
       (console st ++
        if Map_has spine (registeredSpines st)
        then [(registerSpine_warning, spine)] else []).

(** ** Bones that get a graphic *)

(** The condition under which the loop of [drawBonesFunc] reaches
    [new Graphics()] for a bone: it is neither named "root" nor without
    parent, and the length [c] of its segment is not zero. *)
Definition bone_has_graphic (skeletonX skeletonY : number) (bone : Bone) : bool :=
  negb (String.eqb (bd_name (bone_data bone)) "root"
        || match bd_parent (bone_data bone) with None => true | Some _ => false end)
  && negb (PrimFloat.eqb (bone_c skeletonX skeletonY bone) 0).

(** The start and the end of the segment drawn for a bone. *)
Definition bone_start (skeletonX skeletonY : number) (bone : Bone) : number * number :=
  ((skeletonX + m_tx (bone_matrix bone))%float,
   (skeletonY + m_ty (bone_matrix bone))%float).

Definition bone_end (skeletonX skeletonY : number) (bone : Bone) : number * number :=
  ((skeletonX + bd_length (bone_data bone) * m_a (bone_matrix bone)
    + m_tx (bone_matrix bone))%float,
   (skeletonY + bd_length (bone_data bone) * m_b (bone_matrix bone)
    + m_ty (bone_matrix bone))%float).

Definition with_heap (h : Heap) (st : St) : St :=
  mkSt (registeredSpines st) h (attachments st) (console st).

Definition add_children (cs : list oid) (o : DisplayObject) : DisplayObject :=
  set_children (children o ++ cs) o.

(** A graphic created for a bone, as [drawBone] leaves it: a child of the
    bones container, placed at the start of the bone with its pivot at
    distance [c], holding the drawing of the bone. *)
Definition bone_graphic (b : oid) (skeletonX skeletonY : number) (bone : Bone)
           (o : DisplayObject) : Prop :=
  parent o = Some b /\ children o = [] /\ destroyed o = false /\
  (pos_x o, pos_y o) = bone_start skeletonX skeletonY bone /\
  pivot_y o = bone_c skeletonX skeletonY bone /\
  exists cs, payload o = PGraphics cs /\ cs <> [].

(** The calls that draw the "X" at the origin of the skeleton. *)
Definition skeletonXY_marker (lw skeletonX skeletonY : number) : list GCmd :=
  let startDotSize := (lw * 3)%float in
  [MoveTo (Some (skeletonX - startDotSize)%float) (Some (skeletonY - startDotSize)%float);
   LineTo (Some (skeletonX + startDotSize)%float) (Some (skeletonY + startDotSize)%float);
   MoveTo (Some (skeletonX + startDotSize)%float) (Some (skeletonY - startDotSize)%float);
   LineTo (Some (skeletonX - startDotSize)%float) (Some (skeletonY + startDotSize)%float)].

(** A state in which the sample spine is registered, and its bundle. *)
Definition sample_registered (slots : list (option aid)) : St :=
  registered 0 (sample_world slots).

Definition sample_entry : DebugDisplayObjects := fresh_entry 1.

(** A second pose for the sample spine: the attachments above, a bounding
    box of one vertex, a clipping polygon, a closed path and a clipping
    polygon that is too long. *)
Definition sample_bbox1 : Attachment :=
  mkAttachment (mkAttachmentData "dot" BoundingBox 2 [] 0 false [])
               (fun _ _ _ => [5; 5]) None.

Definition sample_clipping : Attachment :=
  mkAttachment (mkAttachmentData "mask" Clipping 6 [] 0 false [])
               (fun _ _ _ => [0; 0; 8; 0; 0; 6]) None.

Definition sample_path : Attachment :=
  mkAttachment (mkAttachmentData "rail" Path 14 [] 0 true [])
               (fun _ _ _ => [1; 1; 0; 0; 2; 1; 4; 3; 6; 0; 5; 2; 7; 1]) None.

(** A clipping polygon of more vertices than the sample engine allocates. *)
Definition sample_long_clipping : Attachment :=
  mkAttachment (mkAttachmentData "veil" Clipping 66 [] 0 false [])
               (fun _ _ _ => []) None.

Definition sample_pose : list Attachment :=
  sample_attachments
  ++ [sample_bbox1; sample_clipping; sample_path; sample_long_clipping].

Definition sample_scene (slots : list (option aid)) : St :=
  registered 0
    (new_renderer [new_object (PSpine (mkSpine 1 1 (sample_skeleton slots)))]
                  sample_pose).

(** ** Well-formed entries *)

(** The shape of the bundle of a registered spine in the scene, as
    [registerSpine] builds it and [renderDebug] keeps it: the container
    hangs under the spine and holds the bones container and the ten
    graphics; the graphics have no children; the children of the bones
    container are childless objects of their own; all these objects are
    distinct. *)
Definition entry_wf (h : Heap) (spine : oid) (d : DebugDisplayObjects) : Prop :=
  NoDup (spine :: parentDebugContainer d :: bones d
         :: surfaces d ++ children_of h (bones d)) /\
  (exists o, h !! parentDebugContainer d = Some o /\ parent o = Some spine /\
             children o = bones d :: surfaces d) /\
  (exists o, h !! bones d = Some o /\ parent o = Some (parentDebugContainer d)) /\
  Forall (fun g => exists o cs, h !! g = Some o /\
                     parent o = Some (parentDebugContainer d) /\
                     children o = [] /\ payload o = PGraphics cs) (surfaces d) /\
  Forall (fun c => exists o, h !! c = Some o /\ parent o = Some (bones d) /\
                     children o = []) (children_of h (bones d)).

(** The sample world after one [renderDebug] with every toggle on, the
    slots of the spine holding the region, the mesh and the bounding box of
    three vertices, and one empty slot. *)
Definition sample_slots : list (option aid) := [Some 0; Some 3; Some 2; None]%nat.

Definition sample_rendered : St :=
  Eval vm_compute in
    fst (renderDebug sample_acos sample_bounds sample_refused default_config 0 (sample_world sample_slots)).

(** ** Relations on the scene and on the pose *)

(** [heap_rel Q h h']: every object of [h] is still there in [h'], in a
    state that [Q] relates to its former one. *)
Definition heap_rel (Q : DisplayObject -> DisplayObject -> Prop) (h h' : Heap) : Prop :=
  forall o obj, h !! o = Some obj -> exists obj', h' !! o = Some obj' /\ Q obj obj'.

Definition lift_heap_rel (Q : DisplayObject -> DisplayObject -> Prop) (st st' : St) : Prop :=
  heap_rel Q (heap st) (heap st').

(** A spine object keeps its scale and its skeleton (position, bones,
    slots). *)
Definition keeps_spine (obj obj' : DisplayObject) : Prop :=
  forall s, payload obj = PSpine s -> payload obj' = PSpine s.

Definition spines_kept (st st' : St) : Prop :=
  forall o s, spine_at (heap st) o = Some s -> spine_at (heap st') o = Some s.

(** An attachment object is as before, or as its own [updateOffset] left
    it after some calls; its methods are as before. *)
Definition own_update (att att' : Attachment) : Prop :=
  computeWorldVertices att' = computeWorldVertices att /\
  updateOffset att' = updateOffset att /\
  (att_data att' = att_data att \/
   exists f k, updateOffset att = Some f /\ att_data att' = Nat.iter k f (att_data att)).

(** The attachments are the same objects; one that is not a region is
    untouched, a region has at most been updated by its own method. *)
Definition attachments_kept (st st' : St) : Prop :=
  forall a att, attachments st !! a = Some att ->
    exists att', attachments st' !! a = Some att' /\ own_update att att' /\
                 (att_type (att_data att) <> Region -> att' = att).

(** The pose data as a whole is untouched. *)
Definition pose_unchanged (st st' : St) : Prop :=
  spines_kept st st' /\ attachments st' = attachments st.

(** The scene after the ten [clear()] calls of [renderDebug]. *)
Definition cleared (d : DebugDisplayObjects) (h : Heap) : Heap :=
  foldl (fun h' g => alter clear_cmds g h') h (surfaces d).


(** A graphic on which a frame has left nothing. *)
Definition blank (h : Heap) (g : oid) : Prop := commands_of h g = [].

(** The object [g] is as before. *)
Definition untouched_at (g : oid) (st st' : St) : Prop :=
  heap st' !! g = heap st !! g.

(** An object during the drawing part: once destroyed it stays so, and a
    graphic only gets further calls. *)
Definition only_grows (obj obj' : DisplayObject) : Prop :=
  (destroyed obj = true -> destroyed obj' = true) /\
  forall cs, payload obj = PGraphics cs ->
             exists cs', payload obj' = PGraphics (cs ++ cs').

Section DrawAfterBones.

Variable SkeletonBounds_update : Skeleton -> list Attachment -> SkeletonBounds.
Variable Float32Array_refused : nat -> option string.
Variable this : Config.

(** The guarded calls of [renderDebug] that follow the one for the bones. *)
Definition draw_after_bones (spine : oid) (d : DebugDisplayObjects) (lw : number) : M unit :=
  when (drawPaths this) (drawPathsFunc Float32Array_refused this spine d lw) >>
  when (drawBoundingBoxes this)
       (drawBoundingBoxesFunc SkeletonBounds_update this spine d lw) >>
  when (drawClipping this) (drawClippingFunc Float32Array_refused this spine d lw) >>
  when (drawMeshHull this || drawMeshTriangles this)
       (drawMeshHullAndMeshTriangles Float32Array_refused this spine d lw) >>
  when (drawRegionAttachments this) (drawRegionAttachmentsFunc this spine d lw).

End DrawAfterBones.

(** The line width of a frame and the style call that opens a category. *)
Definition frame_scale (sp : SpineBase) : number :=
  js_or (js_or (scale_x sp) (scale_y sp)) 1.

Definition frame_lineWidth (this : Config) (sp : SpineBase) : number :=
  (lineWidth this / frame_scale sp)%float.

Definition style (lw color alpha : number) : GCmd :=
  LineStyle (Some lw) (Some color) (Some alpha).
Arguments style (lw color alpha)%_float_scope.

(** ** The scene of a renderer *)

(** The objects of a bundle in the scene: its two containers, its ten
    graphics and the graphics of the bones drawn last. *)
Definition entry_objects (h : Heap) (d : DebugDisplayObjects) : list oid :=
  parentDebugContainer d :: bones d :: surfaces d ++ children_of h (bones d).

(** The scene of a renderer: no spine has two entries; the bundle of each
    registered spine is well formed and made of objects that are not spine
    objects; the bundles of two spines share no object. *)
Definition scene_wf (st : St) : Prop :=
  NoDup (keys st) /\
  (forall s d, Map_get s (registeredSpines st) = Some d ->
     entry_wf (heap st) s d /\
     Forall (fun o => spine_at (heap st) o = None) (entry_objects (heap st) d)) /\
  (forall s1 d1 s2 d2 o, s1 <> s2 ->
     Map_get s1 (registeredSpines st) = Some d1 ->
     Map_get s2 (registeredSpines st) = Some d2 ->
     o ∈ entry_objects (heap st) d1 -> o ∉ entry_objects (heap st) d2).

(** [h'] has the objects of [h], changed at most where [P] holds, and
    possibly new ones. *)
Definition changes_only (P : oid -> Prop) (h h' : Heap) : Prop :=
  length h <= length h' /\
  forall o, o < length h -> ~ P o -> h' !! o = h !! o.

Definition call_spine (c : Call) : oid :=
  match c with
  | Register spine | Unregister spine | Render _ spine => spine
  end.
(** What [destroy] reaches.  [links_within D P h]: the objects [D] of [h]
    have their parents in [P] and their children in [D]. *)
Definition links_within (D P : oid -> Prop) (h : Heap) : Prop :=
  forall o obj, D o -> h !! o = Some obj ->
    (forall q, parent obj = Some q -> P q) /\
    (forall c, c ∈ children obj -> D c).

(** Two payloads of the same kind: a spine stays the spine it was, a
    graphic stays a graphic. *)
Definition same_kind (p p' : Payload) : Prop :=
  match p, p' with
  | PContainer, PContainer => True
  | PGraphics _, PGraphics _ => True
  | PSpine s, PSpine s' => s' = s
  | _, _ => False
  end.

(** An object keeps its place in the scene tree and its kind. *)
Definition same_links (obj obj' : DisplayObject) : Prop :=
  parent obj' = parent obj /\ children obj' = children obj /\
  same_kind (payload obj) (payload obj').
(** What a method called on the spine [s] leaves of its entry [d]: the
    scene has its former objects, changed at most where they are objects of
    the entry, and the entry is well formed, made of former objects of its
    own and of new objects. *)
Definition entry_kept (s : oid) (d : DebugDisplayObjects) (h h' : Heap) : Prop :=
  changes_only (fun o => o ∈ entry_objects h d) h h' /\
  entry_wf h' s d /\
  Forall (fun o => spine_at h' o = None) (entry_objects h' d) /\
  (forall o, o ∈ entry_objects h' d -> length h <= o \/ o ∈ entry_objects h d).

(** ** Relations and views for the drawing functions *)

Definition same_console (st st' : St) : Prop := console st' = console st.
(** [m] completes normally from every state. *)
Definition never_throws {A} (m : M A) : Prop :=
  forall st, exists a, snd (m st) = Normal a.
(** The region attachment that a slot holds, if it holds one: what
    [drawRegionAttachmentsFunc] goes on with after its test
    [attachment == null || attachment.type !== AttachmentType.Region]. *)
Definition region_of (atts : list Attachment) (slot : Slot) : option (aid * Attachment) :=
  match slot_attachment slot with
  | Some a =>
      match atts !! a with
      | Some att =>
          if AttachmentType_eqb (att_type (att_data att)) Region
          then Some (a, att) else None
      | None => None
      end
  | None => None
  end.

(** A [drawPolygon] call whose path is made of eight numbers. *)
Definition eight_numbers (c : GCmd) : Prop :=
  match c with
  | DrawPolygon path => exists vs : list number, path = map Some vs /\ length vs = 8%nat
  | _ => True
  end.

Definition keeps_eight_numbers (g : oid) (st st' : St) : Prop :=
  Forall eight_numbers (commands_of (heap st) g) ->
  Forall eight_numbers (commands_of (heap st') g).
(** The configuration with the seven toggles of the categories off. *)
Definition with_all_off (this : Config) : Config :=
  mkConfig (drawDebug this) false false false false false false false
           (lineWidth this)
           (regionAttachmentsColor this) (meshHullColor this)
           (meshTrianglesColor this) (clippingPolygonColor this)
           (boundingBoxesRectColor this) (boundingBoxesPolygonColor this)
           (boundingBoxesCircleColor this) (pathsCurveColor this)
           (pathsLineColor this) (skeletonXYColor this) (bonesColor this).
(** Two states that a drawing function cannot tell apart: they hold the
    same attachments and the same spine, and the graphics [G] hold the same
    calls in both. *)
Definition same_view (spine : oid) (G : list oid) (a b : St) : Prop :=
  attachments a = attachments b /\
  spine_at (heap a) spine = spine_at (heap b) spine /\
  forall g, g ∈ G ->
    is_graphics (heap a) g /\ is_graphics (heap b) g /\
    commands_of (heap a) g = commands_of (heap b) g.

(** [m] completes in the same way, and leaves states related by [E], from
    two states related by [E]. *)
Definition respects {A} (E : St -> St -> Prop) (m : M A) : Prop :=
  forall a b, E a b -> snd (m a) = snd (m b) /\ E (fst (m a)) (fst (m b)).
(** The calls that the inner [drawPolygon] of [drawBoundingBoxesFunc]
    makes on the graphic of the dots for a polygon of whole vertices: one
    filled circle per vertex. *)
Fixpoint vertex_dots (color dotSize : number) (vs : list number) : list GCmd :=
  match vs with
  | x :: y :: rest =>
      [LineStyle (Some 0%float) None None;
       BeginFill (Some color) None;
       DrawCircle (Some x) (Some y) (Some dotSize);
       EndFill] ++ vertex_dots color dotSize rest
  | _ => []
  end.

Close Scope float_scope.

(** ** What a frame draws *)

(** The calls that a drawing function makes, in the order in which it makes
    them, each with the graphic that it is made on; the scene that they
    leave; and the calls among them that are made on one graphic. *)
Definition Log : Type := list (oid * GCmd).

Definition emit (log : Log) (h : Heap) : Heap :=
  foldl (fun h gc => alter (add_cmd (snd gc)) (fst gc) h) h log.


Definition on (g : oid) (cs : list GCmd) : Log := map (pair g) cs.

(** The state that a function leaves when all it has done is to make the
    calls [log] and to leave the attachments [atts]. *)
Definition drawn (log : Log) (atts : list Attachment) (st : St) : St :=
  mkSt (registeredSpines st) (emit log (heap st)) atts (console st).

Definition outcome (e : option Exn) : Completion unit :=
  match e with Some e => Throw e | None => Normal tt end.



(** [m], run on the spine [sp] from any state that holds the attachments
    [atts], makes the calls [log] and nothing else to the scene, leaves the
    attachments [atts'] and completes as [c]. *)
Definition performs {A} (spine : oid) (sp : SpineBase) (atts : list Attachment)
           (m : M A) (log : Log) (atts' : list Attachment) (c : Completion A) : Prop :=
  forall st, spine_at (heap st) spine = Some sp -> attachments st = atts ->
             m st = (drawn log atts' st, c).

(** The calls and the error of a loop that stops at the first element that
    raises an error. *)
Fixpoint each_log {A} (log : A -> Log) (err : A -> option Exn) (l : list A) : Log :=
  match l with
  | [] => []
  | a :: l' => log a ++ match err a with None => each_log log err l' | Some _ => [] end
  end.

Fixpoint each_error {A} (err : A -> option Exn) (l : list A) : option Exn :=
  match l with
  | [] => None
  | a :: l' => match err a with None => each_error err l' | Some e => Some e end
  end.

(** *** The pose *)

(** The attachment of type [ty] that a slot shows: the bone of the slot is
    active and the slot holds an attachment of this type. *)
Definition shown (ty : AttachmentType) (atts : list Attachment) (slot : Slot)
  : option Attachment :=
  if bone_active (slot_bone slot) then
    match slot_attachment slot with
    | Some a =>
        match atts !! a with
        | Some att =>
            if AttachmentType_eqb (att_type (att_data att)) ty then Some att else None
        | None => None
        end
    | None => None
    end
  else None.

(** The attachments of type [ty] that the slots show, in the order of the
    slots, each with its slot. *)
Fixpoint posed (ty : AttachmentType) (atts : list Attachment) (slots : list Slot)
  : list (Slot * Attachment) :=
  match slots with
  | [] => []
  | slot :: slots' =>
      match shown ty atts slot with
      | Some att => (slot, att) :: posed ty atts slots'
      | None => posed ty atts slots'
      end
  end.

(** The vertices of an attachment on its slot, in world coordinates, as
    [computeWorldVertices] leaves them in a buffer of [worldVerticesLength]
    numbers. *)
Definition world_vertices (sa : Slot * Attachment) : list number :=
  let n := worldVerticesLength (att_data (snd sa)) in
  Float32Array_after n
    (computeWorldVertices (snd sa) (att_data (snd sa)) (slot_bone (fst sa)) n).

(** A drawing function allocates one vertex buffer per attachment and stops
    at the first length that the engine refuses: the attachments that it
    draws, and the error that it raises. *)
Fixpoint allocated (refused : nat -> option string) (l : list (Slot * Attachment))
  : list (Slot * Attachment) :=
  match l with
  | [] => []
  | sa :: l' =>
      match refused (worldVerticesLength (att_data (snd sa))) with
      | None => sa :: allocated refused l'
      | Some _ => []
      end
  end.

Fixpoint refusal (refused : nat -> option string) (l : list (Slot * Attachment))
  : option Exn :=
  match l with
  | [] => None
  | sa :: l' =>
      match refused (worldVerticesLength (att_data (snd sa))) with
      | None => refusal refused l'
      | Some msg => Some (RangeError msg)
      end
  end.

(** The calls and the error of one turn of a loop over the slots that
    draws, by [draw], the attachments of type [ty]. *)
Definition slot_log (refused : nat -> option string) (ty : AttachmentType)
           (draw : Slot * Attachment -> Log) (atts : list Attachment) (slot : Slot) : Log :=
  match shown ty atts slot with
  | Some att =>
      match refused (worldVerticesLength (att_data att)) with
      | None => draw (slot, att)
      | Some _ => []
      end
  | None => []
  end.

Definition slot_error (refused : nat -> option string) (ty : AttachmentType)
           (atts : list Attachment) (slot : Slot) : option Exn :=
  match shown ty atts slot with
  | Some att =>
      match refused (worldVerticesLength (att_data att)) with
      | None => None
      | Some msg => Some (RangeError msg)
      end
  | None => None
  end.

(** *** The clipping polygons *)

(** One polygon per clipping attachment, through all its world vertices. *)
Definition clipping_polygons (refused : nat -> option string)
           (atts : list Attachment) (slots : list Slot) : list GCmd :=
  map (fun sa => DrawPolygon (map Some (world_vertices sa)))
      (allocated refused (posed Clipping atts slots)).
(** *** The meshes *)

(** The triangles of a mesh: for each triple of [triangles], a move to its
    first corner and a line to each of the two others.  (The edge back to
    the first corner is not drawn.) *)
Definition triangle_calls (vertices : list number) (triangles : list nat) : list GCmd :=
  flat_map
    (fun k : nat =>
       let corner (j c : nat) := tri_vertex vertices (triangles !! (3 * k + j)) c in
       [MoveTo (corner 0 0) (corner 0 1);
        LineTo (corner 1 0) (corner 1 1);
        LineTo (corner 2 0) (corner 2 1)])
    (seq 0 ((length triangles + 2) / 3)).

(** The outline of a mesh: the hull is made of the first [hullLength >> 1]
    vertices; from each of them an edge is drawn back to the one before
    it, from the first one to the last. *)
Definition hull_vertex (vertices : list number) (k : Z) : value * value :=
  (arr_get vertices (2 * k)%Z, arr_get vertices (2 * k + 1)%Z).

Definition hull_edge (vertices : list number) (m : Z) (k : nat) : list GCmd :=
  let p := hull_vertex vertices (Z.of_nat k) in
  let q := hull_vertex vertices (if (k =? 0)%nat then m - 1 else Z.of_nat k - 1)%Z in
  [MoveTo (fst p) (snd p); LineTo (fst q) (snd q)].

Definition hull_calls (vertices : list number) (hullLength : Z) : list GCmd :=
  if (0 <? hullLength)%Z then
    let m := sar1 hullLength in
    flat_map (hull_edge vertices m) (seq 0 (Z.to_nat m))
  else [].



(** *** The paths *)

(** A segment of a path: a cubic Bezier curve from [(x1, y1)] to
    [(x2, y2)] with the control points [(cx1, cy1)] and [(cx2, cy2)].  The
    curve is drawn on one graphic, the two handles (from each end to its
    control point) on the other. *)
Record Segment := mkSegment {
  seg_x1 : value; seg_y1 : value;
  seg_cx1 : value; seg_cy1 : value;
  seg_cx2 : value; seg_cy2 : value;
  seg_x2 : value; seg_y2 : value
}.

Definition curve_calls (s : Segment) : list GCmd :=
  [MoveTo (seg_x1 s) (seg_y1 s);
   BezierCurveTo (seg_cx1 s) (seg_cy1 s) (seg_cx2 s) (seg_cy2 s) (seg_x2 s) (seg_y2 s)].

Definition handle_calls (s : Segment) : list GCmd :=
  [MoveTo (seg_x1 s) (seg_y1 s); LineTo (seg_cx1 s) (seg_cy1 s);
   MoveTo (seg_x2 s) (seg_y2 s); LineTo (seg_cx2 s) (seg_cy2 s)].

(** The world vertices of a path hold, from index 2 on, a point, two
    control points, a point, two control points, and so on: the segment
    [k] of the path starts at the point before the control point of index
    [4 + 6 k] and ends at the point after the next control point. *)
Definition path_segment (world : list number) (k : nat) : Segment :=
  let ii := (4 + 6 * Z.of_nat k)%Z in
  mkSegment (arr_get world (ii - 2)) (arr_get world (ii - 1))
            (arr_get world ii) (arr_get world (ii + 1))
            (arr_get world (ii + 2)) (arr_get world (ii + 3))
            (arr_get world (ii + 4)) (arr_get world (ii + 5)).

(** The segment that closes a closed path, from the first point to the
    last one; its control points are the first and the last pair. *)
Definition closing_segment (world : list number) : Segment :=
  let nn := Z.of_nat (length world) in
  mkSegment (arr_get world 2) (arr_get world 3)
            (arr_get world 0) (arr_get world 1)
            (arr_get world (nn - 2)) (arr_get world (nn - 1))
            (arr_get world (nn - 4)) (arr_get world (nn - 3)).

Definition path_segments (world : list number) (closed : bool) : list Segment :=
  (if closed then [closing_segment world] else [])
  ++ map (path_segment world) (seq 0 ((length world - 3) / 6)).



(** The calls that draw a segment, in the order in which they are made. *)
Definition segment_log (d : DebugDisplayObjects) (s : Segment) : Log :=
  on (pathsCurve d) (curve_calls s) ++ on (pathsLine d) (handle_calls s).

(** *** The bounding boxes *)










(** *** The region attachments *)




(** *** The calls of each drawing function *)

Definition paths_log (refused : nat -> option string) (this : Config)
           (d : DebugDisplayObjects) (lw : number) (atts : list Attachment)
           (slots : list Slot) : Log :=
  [(pathsCurve d, style lw (pathsCurveColor this) 1);
   (pathsLine d, style lw (pathsLineColor this) 1)]
  ++ flat_map (fun sa => flat_map (segment_log d)
                           (path_segments (world_vertices sa)
                                          (closed (att_data (snd sa)))))
              (allocated refused (posed Path atts slots)).


Definition clipping_log (refused : nat -> option string) (this : Config)
           (d : DebugDisplayObjects) (lw : number) (atts : list Attachment)
           (slots : list Slot) : Log :=
  on (clippingPolygon d)
     (style lw (clippingPolygonColor this) 1 :: clipping_polygons refused atts slots).

Definition mesh_slot_log (this : Config) (d : DebugDisplayObjects)
           (sa : Slot * Attachment) : Log :=
  (if drawMeshTriangles this
   then on (meshTrianglesLine d)
           (triangle_calls (world_vertices sa) (triangles (att_data (snd sa))))
   else [])
  ++ (if drawMeshHull this
      then on (meshHullLine d)
              (hull_calls (world_vertices sa) (hullLength (att_data (snd sa))))
      else []).

Definition mesh_log (refused : nat -> option string) (this : Config)
           (d : DebugDisplayObjects) (lw : number) (atts : list Attachment)
           (slots : list Slot) : Log :=
  [(meshHullLine d, style lw (meshHullColor this) 1);
   (meshTrianglesLine d, style lw (meshTrianglesColor this) 1)]
  ++ flat_map (mesh_slot_log this d) (allocated refused (posed Mesh atts slots)).


(** *** The frame *)











(** *** The claim of the specification *)


(** *** Counted loops *)

(** The calls of a counted loop [for (i = i0; i < n; i += step)] whose turn
    at [i], with the variables [s], makes the calls [log i s] and leaves
    the variables [next i s]. *)
Fixpoint loop_log {S} (fuel : nat) (n step : Z) (log : Z -> S -> Log) (next : Z -> S -> S)
         (i : Z) (s : S) : Log :=
  match fuel with
  | O => []
  | Datatypes.S fuel' =>
      if (i <? n)%Z
      then log i s ++ loop_log fuel' n step log next (i + step)%Z (next i s)
      else []
  end.

Fixpoint loop_end {S} (fuel : nat) (n step : Z) (next : Z -> S -> S) (i : Z) (s : S) : S :=
  match fuel with
  | O => s
  | Datatypes.S fuel' =>
      if (i <? n)%Z then loop_end fuel' n step next (i + step)%Z (next i s) else s
  end.

(** * Properties *)


Section Stable.

Context (R : St -> St -> Prop) `{!PreOrder R}.

Lemma stable_ret {A} (a : A) : stable R (ret a).
Proof. intros st. simpl. reflexivity. Qed.

Lemma stable_throw {A} (e : Exn) : stable R (@throw A e).
Proof. intros st. simpl. reflexivity. Qed.

Lemma stable_get_state : stable R get_state.
Proof. intros st. simpl. reflexivity. Qed.

Lemma stable_get_attachments : stable R get_attachments.
Proof. intros st. simpl. reflexivity. Qed.

Lemma stable_read_spine spine : stable R (read_spine spine).
Proof.
  intros st. unfold read_spine.
  destruct (spine_at (heap st) spine); simpl; reflexivity.
Qed.

Lemma stable_getAttachment slot : stable R (getAttachment slot).
Proof. intros st. simpl. reflexivity. Qed.

Lemma stable_bind {A B} (m : M A) (k : A -> M B) :
  stable R m -> (forall a, stable R (k a)) -> stable R (bind m k).
Proof.
  intros Hm Hk st. unfold bind. specialize (Hm st).
  destruct (m st) as [st1 [a|e]]; simpl in *; [|exact Hm].
  etransitivity; [exact Hm|apply Hk].
Qed.

Lemma stable_when (b : bool) (m : M unit) : stable R m -> stable R (when b m).
Proof. destruct b; simpl; auto using stable_ret. Qed.

Lemma stable_for_each {A} (l : list A) (body : A -> M unit) :
  (forall a, stable R (body a)) -> stable R (for_each l body).
Proof.
  intros Hb. induction l as [|a l IH]; simpl.
  - apply stable_ret.
  - apply stable_bind; auto.
Qed.

Lemma stable_new_Float32Array refused n : stable R (new_Float32Array refused n).
Proof.
  unfold new_Float32Array. destruct (refused n); [apply stable_throw|apply stable_ret].
Qed.

Lemma stable_for_loop {S} fuel n step (body : Z -> S -> M S) i s :
  (forall i s, stable R (body i s)) -> stable R (for_loop fuel n step body i s).
Proof.
  intros Hb. revert i s. induction fuel as [|fuel IH]; intros i s; simpl.
  - apply stable_ret.
  - destruct (i <? n)%Z; [|apply stable_ret].
    apply stable_bind; auto.
Qed.

End Stable.

(** ** From the primitives to the methods *)

Ltac solve_preorder :=
  try lazymatch goal with |- PreOrder _ => exact _ end.

Ltac stable_step :=
  lazymatch goal with
  | |- stable _ (ret _) => apply stable_ret
  | |- stable _ (throw _) => apply stable_throw
  | |- stable _ get_state => apply stable_get_state
  | |- stable _ get_attachments => apply stable_get_attachments
  | |- stable _ (read_spine _) => apply stable_read_spine
  | |- stable _ (getAttachment _) => apply stable_getAttachment
  | |- stable _ (new_Float32Array _ _) => apply stable_new_Float32Array
  | |- stable _ (bind _ _) => apply stable_bind; [| |intros; cbv beta]
  | |- stable _ (when true _) => unfold when
  | |- stable _ (when false _) => unfold when; apply stable_ret
  | |- stable _ (when _ _) => apply stable_when
  | |- stable _ (for_each _ _) => apply stable_for_each; [|intros; cbv beta]
  | |- stable _ (for_loop _ _ _ _ _ _) => apply stable_for_loop; [|intros; cbv beta]
  | |- stable _ (if ?b then _ else _) => destruct b
  | |- stable _ (match ?x with _ => _ end) => destruct x
  | |- stable _ (let _ := _ in _) => cbv zeta
  end; solve_preorder.

(** A preorder that each primitive operation respects is respected by the
    drawing functions and the methods built from them; each lemma asks for
    the primitives its function uses and no more. *)
Section Composite.

Variable Math_acos : number -> number.
Variable SkeletonBounds_update : Skeleton -> list Attachment -> SkeletonBounds.
Variable Float32Array_refused : nat -> option string.
Context (R : St -> St -> Prop) `{!PreOrder R}.

(** [T] holds of the graphics that the relation lets a call draw on. *)
Variable T : oid -> Prop.

Hypothesis R_gfx : forall g c, T g -> stable R (gfx g c).
Hypothesis R_gfx_clear : forall g, stable R (gfx_clear g).
Hypothesis R_set_x : forall g v, stable R (set_prop g (set_x v)).
Hypothesis R_set_y : forall g v, stable R (set_prop g (set_y v)).
Hypothesis R_set_pivot_y : forall g v, stable R (set_prop g (set_pivot_y v)).
Hypothesis R_set_rotation : forall g v, stable R (set_prop g (set_rotation v)).
Hypothesis R_new_obj : forall p, stable R (new_obj p).
Hypothesis R_addChild : forall p c, stable R (addChild p c).
Hypothesis R_destroy : forall o, stable R (destroy o).
Hypothesis R_console_warn : forall msg spine, stable R (console_warn msg spine).
Hypothesis R_Map_set : forall k v, stable R (modify_map (Map_set k v)).
Hypothesis R_Map_delete : forall k, stable R (modify_map (Map_delete k)).
Hypothesis R_updateOffset : forall a att, stable R (call_updateOffset a att).

Local Ltac prim :=
  lazymatch goal with
  | |- stable _ (gfx _ _) => apply R_gfx; auto
  | |- stable _ (gfx_clear _) => apply R_gfx_clear
  | |- stable _ (set_prop _ (set_x _)) => apply R_set_x
  | |- stable _ (set_prop _ (set_y _)) => apply R_set_y
  | |- stable _ (set_prop _ (set_pivot_y _)) => apply R_set_pivot_y
  | |- stable _ (set_prop _ (set_rotation _)) => apply R_set_rotation
  | |- stable _ (new_obj _) => apply R_new_obj
  | |- stable _ (addChild _ _) => apply R_addChild
  | |- stable _ (destroy _) => apply R_destroy
  | |- stable _ (console_warn _ _) => apply R_console_warn
  | |- stable _ (modify_map (Map_set _ _)) => apply R_Map_set
  | |- stable _ (modify_map (Map_delete _)) => apply R_Map_delete
  | |- stable _ (call_updateOffset _ _) => apply R_updateOffset
  end.

Local Ltac go := repeat first [ prim | stable_step ].

Lemma stable_drawBone this d lw scale skx sky bone :
  (forall g, T g) ->
  stable R (drawBone Math_acos this d lw scale skx sky bone).
Proof. intros HT. unfold drawBone, new_Graphics. go. Qed.

Lemma stable_drawBonesFunc this spine d lw scale :
  (forall g, T g) ->
  stable R (drawBonesFunc Math_acos this spine d lw scale).
Proof. intros HT. unfold drawBonesFunc. go. apply stable_drawBone, HT. Qed.

Lemma stable_drawPathSlot d slot :
  T (pathsCurve d) -> T (pathsLine d) -> stable R (drawPathSlot Float32Array_refused d slot).
Proof. intros H1 H2. unfold drawPathSlot, drawPathCurve, drawPathSegment. go. Qed.

Lemma stable_drawPathsFunc this spine d lw :
  T (pathsCurve d) -> T (pathsLine d) ->
  stable R (drawPathsFunc Float32Array_refused this spine d lw).
Proof. intros H1 H2. unfold drawPathsFunc. go. apply stable_drawPathSlot; auto. Qed.

Lemma stable_drawPolygonNodes this d dot vs paths :
  T (boundingBoxesCircle d) ->
  stable R (drawPolygonNodes this d dot vs paths).
Proof.
  intros H1.
  revert paths. induction vs as [vs IH] using (induction_ltof1 _ (@length _)).
  unfold ltof in IH. intros paths.
  destruct vs as [|x1 [|y1 rest]]; simpl; unfold drawPolygonNode; go.
  apply IH. simpl. lia.
Qed.

Lemma stable_drawPolygon this d lw vs off count :
  T (boundingBoxesCircle d) -> T (boundingBoxesPolygon d) ->
  stable R (drawPolygon this d lw vs off count).
Proof. intros H1 H2. unfold drawPolygon. go. apply stable_drawPolygonNodes; auto. Qed.

Lemma stable_drawBoundingBoxesFunc this spine d lw :
  T (boundingBoxesRect d) -> T (boundingBoxesCircle d) -> T (boundingBoxesPolygon d) ->
  stable R (drawBoundingBoxesFunc SkeletonBounds_update this spine d lw).
Proof.
  intros H1 H2 H3. unfold drawBoundingBoxesFunc. go. apply stable_drawPolygon; auto.
Qed.

Lemma stable_drawClippingSlot d slot :
  T (clippingPolygon d) -> stable R (drawClippingSlot Float32Array_refused d slot).
Proof. intros H1. unfold drawClippingSlot. go. Qed.

Lemma stable_drawClippingFunc this spine d lw :
  T (clippingPolygon d) -> stable R (drawClippingFunc Float32Array_refused this spine d lw).
Proof. intros H1. unfold drawClippingFunc. go. apply stable_drawClippingSlot; auto. Qed.

Lemma stable_drawTriangles d vs ts :
  T (meshTrianglesLine d) -> stable R (drawTriangles d vs ts).
Proof.
  intros H1.
  induction ts as [ts IH] using (induction_ltof1 _ (@length _)).
  unfold ltof in IH.
  destruct ts as [|t1 [|t2 [|t3 rest]]]; simpl; unfold drawTriangle; go.
  apply IH. simpl. lia.
Qed.

Lemma stable_drawMeshSlot this d slot :
  T (meshHullLine d) -> T (meshTrianglesLine d) ->
  stable R (drawMeshSlot Float32Array_refused this d slot).
Proof.
  intros H1 H2. unfold drawMeshSlot, drawHullSegment. go.
  apply stable_drawTriangles; auto.
Qed.

Lemma stable_drawMeshHullAndMeshTriangles this spine d lw :
  T (meshHullLine d) -> T (meshTrianglesLine d) ->
  stable R (drawMeshHullAndMeshTriangles Float32Array_refused this spine d lw).
Proof.
  intros H1 H2. unfold drawMeshHullAndMeshTriangles. go.
  apply stable_drawMeshSlot; auto.
Qed.

Lemma stable_drawRegionSlot d slot :
  T (regionAttachmentsShape d) -> stable R (drawRegionSlot d slot).
Proof. intros H1. unfold drawRegionSlot. go. Qed.

(** The region attachments are the one place where a method of the pose
    data is called for its effect; the lemmas from here on take what the
    relation says of it as a premise. *)
Lemma stable_drawRegionAttachmentsFunc this spine d lw :
  T (regionAttachmentsShape d) ->
  (forall slot, stable R (drawRegionSlot d slot)) ->
  stable R (drawRegionAttachmentsFunc this spine d lw).
Proof. intros H1 Hslot. unfold drawRegionAttachmentsFunc. go. apply Hslot. Qed.

Lemma stable_destroyBoneChildren b len : stable R (destroyBoneChildren b len).
Proof. induction len as [|len IH]; simpl; go. exact IH. Qed.

Lemma stable_registerSpine spine : stable R (registerSpine spine).
Proof. unfold registerSpine, new_Container, new_Graphics. go. Qed.

Lemma stable_unregisterSpine spine : stable R (unregisterSpine spine).
Proof. unfold unregisterSpine. go. Qed.

Lemma stable_clearDebugDisplayObjects d : stable R (clearDebugDisplayObjects d).
Proof. unfold clearDebugDisplayObjects. go. apply stable_destroyBoneChildren. Qed.

Lemma stable_drawDebugDisplayObjects this spine d :
  (forall g, T g) ->
  (drawRegionAttachments this = true -> forall slot, stable R (drawRegionSlot d slot)) ->
  stable R (drawDebugDisplayObjects Math_acos SkeletonBounds_update Float32Array_refused this spine d).
Proof.
  intros HT Hslot. unfold drawDebugDisplayObjects.
  destruct (drawRegionAttachments this); go;
    auto using stable_drawBonesFunc, stable_drawPathsFunc,
      stable_drawBoundingBoxesFunc, stable_drawClippingFunc,
      stable_drawMeshHullAndMeshTriangles, stable_drawRegionAttachmentsFunc.
Qed.

Lemma stable_renderDebug this spine :
  (forall g, T g) ->
  (drawRegionAttachments this = true ->
   forall d slot, stable R (drawRegionSlot d slot)) ->
  stable R (renderDebug Math_acos SkeletonBounds_update Float32Array_refused this spine).
Proof.
  intros HT Hslot. unfold renderDebug. go;
    auto using stable_registerSpine, stable_clearDebugDisplayObjects.
  apply stable_drawDebugDisplayObjects; auto.
Qed.

Lemma stable_call (c : Call) :
  (forall g, T g) ->
  (forall d slot, stable R (drawRegionSlot d slot)) ->
  stable R (call Math_acos SkeletonBounds_update Float32Array_refused c).
Proof.
  intros HT Hslot. destruct c; unfold call;
    [apply stable_registerSpine|apply stable_unregisterSpine
    |apply stable_renderDebug; auto].
Qed.

End Composite.


(** ** The registration map *)

Lemma Map_has_false k m : Map_has k m = false -> Map_get k m = None.
Proof. unfold Map_has. destruct (Map_get k m); congruence. Qed.

Lemma Map_has_true k m : Map_has k m = true -> exists d, Map_get k m = Some d.
Proof. unfold Map_has. destruct (Map_get k m); [eauto|congruence]. Qed.

Lemma Map_get_Some_has k m d : Map_get k m = Some d -> Map_has k m = true.
Proof. unfold Map_has. intros ->. reflexivity. Qed.

Lemma Map_get_elem k m d : Map_get k m = Some d -> k ∈ map fst m.
Proof.
  induction m as [|[k' v] m IH]; simpl; [discriminate|].
  destruct (Nat.eqb_spec k' k) as [->|Hne]; intros H.
  - apply list_elem_of_here.
  - apply list_elem_of_further. auto.
Qed.

Lemma Map_get_None_not_elem k m : Map_get k m = None -> k ∉ map fst m.
Proof.
  induction m as [|[k' v] m IH]; simpl; intros H.
  - apply not_elem_of_nil.
  - destruct (Nat.eqb_spec k' k) as [->|Hne]; [discriminate|].
    apply not_elem_of_cons. split; [congruence|auto].
Qed.

Lemma Map_set_keys k v m :
  map fst (Map_set k v m) =
  if Map_has k m then map fst m else map fst m ++ [k].
Proof.
  unfold Map_has. induction m as [|[k' v'] m IH]; simpl; [reflexivity|].
  destruct (Nat.eqb k' k); simpl; [reflexivity|].
  rewrite IH. destruct (Map_get k m); reflexivity.
Qed.

Lemma Map_get_set k v m : Map_get k (Map_set k v m) = Some v.
Proof.
  induction m as [|[k' v'] m IH]; simpl.
  - rewrite Nat.eqb_refl. reflexivity.
  - destruct (Nat.eqb k' k) eqn:E; simpl; rewrite E; auto.
Qed.

Lemma Map_get_set_ne k k' v m : k <> k' -> Map_get k' (Map_set k v m) = Map_get k' m.
Proof.
  intros Hne. induction m as [|[k0 v0] m IH]; simpl.
  - destruct (Nat.eqb_spec k k'); [contradiction|reflexivity].
  - destruct (Nat.eqb_spec k0 k) as [->|Hk]; simpl.
    + destruct (Nat.eqb_spec k k'); [contradiction|reflexivity].
    + rewrite IH. reflexivity.
Qed.

Lemma Map_delete_sublist k m : sublist (map fst (Map_delete k m)) (map fst m).
Proof.
  induction m as [|[k' v'] m IH]; simpl; [constructor|].
  destruct (Nat.eqb k' k); simpl.
  - apply sublist_cons. reflexivity.
  - apply sublist_skip. exact IH.
Qed.

Lemma Map_get_delete k m :
  NoDup (map fst m) -> Map_get k (Map_delete k m) = None.
Proof.
  induction m as [|[k' v'] m IH]; simpl; intros Hnd; [reflexivity|].
  apply NoDup_cons in Hnd as [Hni Hnd].
  destruct (Nat.eqb_spec k' k) as [->|Hne]; simpl.
  - destruct (Map_get k m) eqn:E; [|reflexivity].
    apply Map_get_elem in E. contradiction.
  - destruct (Nat.eqb_spec k' k); [contradiction|]. auto.
Qed.

Lemma Map_set_NoDup k v m : NoDup (map fst m) -> NoDup (map fst (Map_set k v m)).
Proof.
  intros Hnd. rewrite Map_set_keys. unfold Map_has.
  destruct (Map_get k m) eqn:E; [exact Hnd|].
  apply NoDup_app. split; [exact Hnd|]. split.
  - intros x Hx Hk. apply list_elem_of_singleton in Hk as ->.
    apply Map_get_None_not_elem in E. contradiction.
  - apply NoDup_singleton.
Qed.

Lemma Map_delete_NoDup k m : NoDup (map fst m) -> NoDup (map fst (Map_delete k m)).
Proof. intros Hnd. eapply sublist_NoDup; [exact Hnd|apply Map_delete_sublist]. Qed.

#[global] Instance keeps_keys_distinct_preorder : PreOrder keeps_keys_distinct.
Proof.
  split.
  - intros st H. exact H.
  - intros st1 st2 st3 H12 H23 H. auto.
Qed.

Lemma keeps_keys_distinct_same_map st st' :
  same_map st st' -> keeps_keys_distinct st st'.
Proof. unfold same_map, keeps_keys_distinct, keys. intros ->. auto. Qed.

Lemma keeps_keys_distinct_call acos bounds refused (c : Call) :
  stable keeps_keys_distinct (call acos bounds refused c).
Proof.
  assert (Hprim : forall A (m : M A),
             (forall st, same_map st (fst (m st))) -> stable keeps_keys_distinct m).
  { intros A m Hm st. apply keeps_keys_distinct_same_map, Hm. }
  assert (Hupd : forall a att, stable keeps_keys_distinct (call_updateOffset a att)).
  { intros a att. apply Hprim. intros st. unfold call_updateOffset.
    destruct (updateOffset att); reflexivity. }
  apply (stable_call acos bounds refused keeps_keys_distinct (fun _ => True));
    try exact _; try (intros; apply Hprim; intros st; reflexivity); auto.
  - intros k v st. unfold keeps_keys_distinct, keys. simpl. apply Map_set_NoDup.
  - intros k st. unfold keeps_keys_distinct, keys. simpl. apply Map_delete_NoDup.
  - intros d slot. apply (stable_drawRegionSlot keeps_keys_distinct (fun _ => True));
      try exact _; auto.
    intros; apply Hprim; intros st; reflexivity.
Qed.

(** C7: One registration per animated object: after any sequence of
    [registerSpine], [unregisterSpine] and [renderDebug] calls on a new
    renderer, whatever the objects of the world and however each call
    completes, no spine occurs twice among the keys of the registration
    map, so the map holds at most one bundle of drawing surfaces for each
    spine. *)
Theorem one_registration_per_spine acos bounds refused (calls : list Call) h atts :
  NoDup (keys (run acos bounds refused calls (new_renderer h atts))).
Proof.
  assert (Hgen : forall st, NoDup (keys st) -> NoDup (keys (run acos bounds refused calls st))).
  { induction calls as [|c calls IH]; intros st Hst; simpl; [exact Hst|].
    apply IH. apply (keeps_keys_distinct_call acos bounds refused c st Hst). }
  apply Hgen. unfold keys, new_renderer. simpl. apply NoDup_nil_2.
Qed.

(** ** unregisterSpine on a spine that is not registered *)

(** C1: on a spine that is not in the registration map, [unregisterSpine]
    logs its warning and then raises a [TypeError]: the entry it reads from
    the map is [undefined] and it goes on to read [parentDebugContainer]
    from it.  The registration map, the scene and the attachments are as
    before; the call does not return normally. *)
Theorem unregisterSpine_unregistered_throws spine st :
  Map_has spine (registeredSpines st) = false ->
  unregisterSpine spine st =
  (mkSt (registeredSpines st) (heap st) (attachments st)
        (console st ++
         [("SpineDebugRenderer.unregisterSpine() - spine is not registered, can't unregister!",
           spine)]),
   Throw (TypeError "Cannot read properties of undefined (reading 'parentDebugContainer')")).
Proof.
  intros Hhas. unfold unregisterSpine, bind, get_state, when.
  rewrite Hhas. simpl. rewrite (Map_has_false _ _ Hhas). reflexivity.
Qed.

Lemma unregisterSpine_unregistered_throws_witness :
  Map_has 0 (registeredSpines (sample_world [])) = false /\
  snd (unregisterSpine 0 (sample_world [])) =
  Throw (TypeError "Cannot read properties of undefined (reading 'parentDebugContainer')").
Proof.
  split; [reflexivity|].
  rewrite (unregisterSpine_unregistered_throws 0 (sample_world [])); reflexivity.
Defined.

(** ** The drawDebug field *)

(** C9: the field [drawDebug] is read nowhere: [renderDebug] run with
    [drawDebug] set to one value or the other, all other fields equal,
    completes in the same way and leaves the same state, drawings
    included.  ([registerSpine] and [unregisterSpine] read no
    configuration field at all.) *)
Theorem drawDebug_not_read acos bounds refused (this : Config) (b1 b2 : bool) spine st :
  renderDebug acos bounds refused (with_drawDebug b1 this) spine st =
  renderDebug acos bounds refused (with_drawDebug b2 this) spine st.
Proof. destruct this. reflexivity. Qed.

(** ** The polygons of bounding boxes *)

Lemma drawPolygonNodes_returns this d dot vs paths st :
  exists paths', snd (drawPolygonNodes this d dot vs paths st) = Normal paths'.
Proof.
  revert paths st. induction vs as [vs IH] using (induction_ltof1 _ (@length _)).
  unfold ltof in IH. intros paths st.
  destruct vs as [|x1 [|y1 rest]]; simpl; [eexists; reflexivity..|].
  unfold bind at 1. simpl. apply IH. simpl. lia.
Qed.

(** The inner [drawPolygon] raises its error exactly when [count < 3]. *)
Lemma drawPolygon_count_lt_3 this d lw vs off count st :
  count < 3 ->
  snd (drawPolygon this d lw vs off count st) =
  Throw (Error "Polygon must contain at least 3 vertices").
Proof.
  intros Hc. unfold drawPolygon, bind, gfx, modify_heap. simpl.
  apply Nat.ltb_lt in Hc. rewrite Hc. reflexivity.
Qed.

Lemma drawPolygon_count_ge_3 this d lw vs off count st :
  3 <= count ->
  snd (drawPolygon this d lw vs off count st) = Normal tt.
Proof.
  intros Hc. unfold drawPolygon, gfx, modify_heap.
  unfold bind at 1. simpl. unfold bind at 1. simpl.
  apply Nat.ltb_ge in Hc. rewrite Hc. simpl.
  unfold bind at 1. simpl. unfold bind at 1.
  match goal with |- context [drawPolygonNodes ?a ?b ?c ?e ?f ?g] =>
    destruct (drawPolygonNodes_returns a b c e f g) as [paths' Hp];
    destruct (drawPolygonNodes a b c e f g) as [st' r] end.
  simpl in Hp. subst r. reflexivity.
Qed.

(** C4: here is what the code does on a bounding-box polygon of two
    vertices.  [drawBoundingBoxesFunc] hands the inner [drawPolygon] the
    length of the polygon's array as [count], which is the number of
    coordinates, twice the number of vertices; a polygon of two vertices
    has four coordinates, the test [count < 3] does not hold, and the
    polygon is drawn with no error. *)
Theorem drawPolygon_two_vertices_no_error this d lw (x1 y1 x2 y2 : number) st :
  let polygon := [x1; y1; x2; y2] in
  snd (drawPolygon this d lw polygon 0 (length polygon) st) = Normal tt.
Proof. intros polygon. apply drawPolygon_count_ge_3. simpl. lia. Qed.

(** The same through [renderDebug]: a spine whose one slot holds a
    bounding box of the two vertices (0, 0) and (10, 10) is rendered to the
    end, and the two-point polygon is on the polygon graphic. *)
Example renderDebug_two_vertex_bounding_box :
  let r := renderDebug sample_acos sample_bounds sample_refused default_config 0
                       (sample_world [Some 1]) in
  snd r = Normal tt /\
  commands_of (heap (fst r)) (boundingBoxesPolygon (fresh_entry 1)) =
  [LineStyle (Some 1%float) (Some 0x00ff00%float) (Some 1%float);
   BeginFill (Some 0x00ff00%float) (Some 0.1%float);
   DrawPolygon [Some 0%float; Some 0%float; Some 10%float; Some 10%float];
   EndFill].
Proof. vm_compute. split; reflexivity. Qed.

(** ** registerSpine in closed form *)

Lemma alter_app_r0 {A} (f : A -> A) (l1 l2 : list A) :
  alter f (length l1) (l1 ++ l2) = l1 ++ alter f 0 l2.
Proof. rewrite <- (Nat.add_0_r (length l1)) at 1. apply alter_app_r. Qed.

Lemma lookup_app_r0 {A} (l1 l2 : list A) : (l1 ++ l2) !! length l1 = l2 !! 0.
Proof. rewrite lookup_app_r by lia. rewrite Nat.sub_diag. reflexivity. Qed.

Lemma lookup_app_plus {A} (l1 l2 : list A) i : (l1 ++ l2) !! (length l1 + i) = l2 !! i.
Proof. rewrite lookup_app_r by lia. f_equal. lia. Qed.

Lemma heap_addChild_new h L c oc :
  L !! c = Some oc -> parent oc = None ->
  heap_addChild (length h) (length h + c) (h ++ L) =
  h ++ alter (push_child (length h + c)) 0 (alter (set_parent (Some (length h))) c L).
Proof.
  intros Hc Hp. unfold heap_addChild.
  rewrite lookup_app_plus, Hc. simpl. rewrite Hp.
  rewrite alter_app_r, alter_app_r0. reflexivity.
Qed.

Lemma heap_addChild_old_new h L p oc :
  p < length h -> L !! 0 = Some oc -> parent oc = None ->
  heap_addChild p (length h) (h ++ L) =
  alter (push_child (length h)) p h ++ alter (set_parent (Some p)) 0 L.
Proof.
  intros Hlt Hc Hp. unfold heap_addChild.
  rewrite lookup_app_r0, Hc. simpl. rewrite Hp.
  rewrite alter_app_r0, alter_app_l by lia. reflexivity.
Qed.

Lemma registerSpine_registered spine st :
  spine < length (heap st) ->
  registerSpine spine st = (registered spine st, Normal tt).
Proof.
  intros Hlt. destruct st as [m h atts con]. simpl in Hlt.
  unfold registered.
  cbv beta iota zeta delta
    [registerSpine bind get_state when new_Container new_Graphics new_obj
     addChild modify_heap modify_map console_warn ret registeredSpines heap
     attachments console parentDebugContainer bones skeletonXY
     regionAttachmentsShape meshTrianglesLine meshHullLine clippingPolygon
     boundingBoxesRect boundingBoxesCircle boundingBoxesPolygon pathsCurve
     pathsLine fst snd].
  assert (Hheap :
    heap_addChild spine (length h)
      (heap_addChild (length h) (length h + 11)
      (heap_addChild (length h) (length h + 10)
      (heap_addChild (length h) (length h + 9)
      (heap_addChild (length h) (length h + 8)
      (heap_addChild (length h) (length h + 7)
      (heap_addChild (length h) (length h + 6)
      (heap_addChild (length h) (length h + 5)
      (heap_addChild (length h) (length h + 4)
      (heap_addChild (length h) (length h + 3)
      (heap_addChild (length h) (length h + 2)
      (heap_addChild (length h) (length h + 1)
         (h ++ new_object PContainer :: new_object PContainer
               :: replicate 10 (new_object (PGraphics [])))))))))))))) =
    alter (push_child (length h)) spine h ++ fresh_objects spine (length h)).
  { cbn [replicate].
    do 11 (erewrite heap_addChild_new; [|reflexivity|reflexivity]).
    erewrite heap_addChild_old_new; [|exact Hlt|reflexivity|reflexivity].
    reflexivity. }
  cbn [replicate] in Hheap.
  destruct (Map_has spine m);
    cbv beta iota zeta delta [registeredSpines heap attachments console fst snd];
    repeat rewrite <- app_assoc; cbn [app]; rewrite !length_app; cbn [length];
    rewrite Hheap; [reflexivity|].
  rewrite app_nil_r. reflexivity.
Qed.

Lemma Map_set_absent k v m : Map_get k m = None -> Map_set k v m = m ++ [(k, v)].
Proof.
  induction m as [|[k' v'] m IH]; simpl; [reflexivity|].
  destruct (Nat.eqb k' k); [discriminate|]. intros H. rewrite IH; auto.
Qed.

Lemma children_of_registered spine st :
  spine < length (heap st) ->
  children_of (heap (registered spine st)) spine =
  children_of (heap st) spine ++ [length (heap st)].
Proof.
  destruct st as [m h atts con]. simpl. intros Hlt. unfold children_of.
  rewrite lookup_app_l by (rewrite length_alter; exact Hlt).
  rewrite list_lookup_alter_eq.
  destruct (h !! spine) as [obj|] eqn:Hobj; [reflexivity|].
  apply lookup_ge_None in Hobj. lia.
Qed.

Lemma lookup_registered_old spine st o :
  o < length (heap st) -> o <> spine ->
  heap (registered spine st) !! o = heap st !! o.
Proof.
  destruct st as [m h atts con]. simpl. intros Hlt Hne.
  rewrite lookup_app_l by (rewrite length_alter; exact Hlt).
  apply list_lookup_alter_ne. auto.
Qed.

(** C2: here is what the code does on a spine that is already registered.
    [registerSpine] logs its warning and goes on as for a new spine: it
    creates twelve new objects, attaches the new container to the spine
    next to the one of the earlier registration, and replaces the entry of
    the map by the new bundle.  The earlier container stays attached to the
    spine, not destroyed, and no entry of the map refers to it any more. *)
Theorem registerSpine_again_duplicates spine st d :
  Map_get spine (registeredSpines st) = Some d ->
  spine < length (heap st) ->
  parentDebugContainer d < length (heap st) ->
  parentDebugContainer d <> spine ->
  parentDebugContainer d ∈ children_of (heap st) spine ->
  let n := length (heap st) in
  let st' := fst (registerSpine spine st) in
  snd (registerSpine spine st) = Normal tt /\
  console st' = console st ++ [(registerSpine_warning, spine)] /\
  Map_get spine (registeredSpines st') = Some (fresh_entry n) /\
  parentDebugContainer (fresh_entry n) <> parentDebugContainer d /\
  children_of (heap st') spine = children_of (heap st) spine ++ [n] /\
  parentDebugContainer d ∈ children_of (heap st') spine /\
  heap st' !! parentDebugContainer d = heap st !! parentDebugContainer d.
Proof.
  intros Hget Hlt Hd Hne Hin n st'. subst st'.
  rewrite (registerSpine_registered spine st Hlt). simpl fst. simpl snd.
  split; [reflexivity|]. split.
  { unfold registered. simpl. rewrite (Map_get_Some_has _ _ _ Hget). reflexivity. }
  split.
  { unfold registered. simpl. apply Map_get_set. }
  split.
  { simpl. subst n. lia. }
  rewrite children_of_registered by exact Hlt.
  split; [reflexivity|]. split.
  { apply elem_of_app. left. exact Hin. }
  apply lookup_registered_old; auto.
Qed.

Lemma registerSpine_again_duplicates_witness :
  let st := registered 0 (sample_world []) in
  children_of (heap (fst (registerSpine 0 st))) 0 = [1; 13].
Proof.
  intros st.
  destruct (registerSpine_again_duplicates 0 st (fresh_entry 1))
    as (_ & _ & _ & _ & Hch & _).
  - reflexivity.
  - simpl. lia.
  - simpl. lia.
  - simpl. lia.
  - simpl. apply list_elem_of_here.
  - rewrite Hch. reflexivity.
Defined.

(** ** renderDebug on a spine that is not registered *)

#[global] Instance same_map_preorder : PreOrder same_map.
Proof.
  split.
  - intros st. reflexivity.
  - intros st1 st2 st3 H12 H23. unfold same_map in *. congruence.
Qed.

Lemma same_map_clear_draw acos bounds refused this spine d :
  stable same_map
    (clearDebugDisplayObjects d >> drawDebugDisplayObjects acos bounds refused this spine d).
Proof.
  assert (Hupd : forall a att, stable same_map (call_updateOffset a att)).
  { intros a att st. unfold call_updateOffset.
    destruct (updateOffset att); reflexivity. }
  apply stable_bind; [exact _| |intros _].
  - apply stable_clearDebugDisplayObjects; try exact _; intros; intros st; reflexivity.
  - apply (stable_drawDebugDisplayObjects acos bounds refused same_map (fun _ => True));
      try exact _; auto; try (intros; intros st; reflexivity).
    intros _ slot. apply (stable_drawRegionSlot same_map (fun _ => True));
      try exact _; auto.
    intros; intros st; reflexivity.
Qed.

Lemma renderDebug_of_registered acos bounds refused this spine st d :
  Map_get spine (registeredSpines st) = Some d ->
  renderDebug acos bounds refused this spine st =
  (clearDebugDisplayObjects d >> drawDebugDisplayObjects acos bounds refused this spine d) st.
Proof.
  intros Hget. unfold renderDebug.
  unfold bind at 1. unfold get_state at 1. cbv beta iota.
  rewrite (Map_get_Some_has _ _ _ Hget).
  unfold bind at 1. simpl negb. unfold when, ret. cbv beta iota.
  unfold bind at 1. unfold get_state. cbv beta iota. rewrite Hget. reflexivity.
Qed.

(** C5: a registration entry is created on the first debug-render.  On a
    spine that is not registered, [renderDebug] first runs [registerSpine]:
    twelve new objects are created (the container, whose children are the
    bones container and the ten graphics, all of them empty), the container
    is attached to the spine as its last child, and the entry is appended
    to the registration map; clearing and drawing then proceed on this
    entry, which is still in the map when [renderDebug] is done. *)
Theorem renderDebug_registers_first acos bounds refused this spine st :
  Map_has spine (registeredSpines st) = false ->
  spine < length (heap st) ->
  let n := length (heap st) in
  let d := fresh_entry n in
  let st1 := fst (registerSpine spine st) in
  registeredSpines st1 = registeredSpines st ++ [(spine, d)] /\
  heap st1 = alter (push_child n) spine (heap st) ++ fresh_objects spine n /\
  children_of (heap st1) spine = children_of (heap st) spine ++ [parentDebugContainer d] /\
  renderDebug acos bounds refused this spine st =
    (clearDebugDisplayObjects d >> drawDebugDisplayObjects acos bounds refused this spine d) st1 /\
  Map_get spine (registeredSpines (fst (renderDebug acos bounds refused this spine st))) = Some d.
Proof.
  intros Hhas Hlt n d st1.
  assert (Hreg : registerSpine spine st = (registered spine st, Normal tt))
    by (apply registerSpine_registered; exact Hlt).
  assert (Hst1 : st1 = registered spine st) by (subst st1; rewrite Hreg; reflexivity).
  assert (Hget1 : Map_get spine (registeredSpines st1) = Some d).
  { rewrite Hst1. unfold registered. simpl. apply Map_get_set. }
  assert (Hrender : renderDebug acos bounds refused this spine st =
    (clearDebugDisplayObjects d >> drawDebugDisplayObjects acos bounds refused this spine d) st1).
  { unfold renderDebug.
    unfold bind at 1. unfold get_state at 1. cbv beta iota.
    rewrite Hhas. simpl negb. unfold when.
    unfold bind at 1. rewrite Hreg. cbv beta iota.
    unfold bind at 1. unfold get_state. cbv beta iota.
    rewrite <- Hst1, Hget1. reflexivity. }
  split.
  { rewrite Hst1. unfold registered. simpl.
    apply Map_set_absent, Map_has_false, Hhas. }
  split; [rewrite Hst1; reflexivity|].
  split; [rewrite Hst1; apply children_of_registered; exact Hlt|].
  split; [exact Hrender|].
  rewrite Hrender.
  pose proof (same_map_clear_draw acos bounds refused this spine d st1) as Hsame.
  unfold same_map in Hsame. rewrite Hsame. exact Hget1.
Qed.

Lemma renderDebug_registers_first_witness :
  Map_get 0 (registeredSpines
               (fst (renderDebug sample_acos sample_bounds sample_refused default_config 0
                                 (sample_world [Some 0; Some 2; Some 3; None]))))
  = Some (fresh_entry 1).
Proof.
  apply (renderDebug_registers_first sample_acos sample_bounds sample_refused default_config 0
           (sample_world [Some 0; Some 2; Some 3; None])).
  - reflexivity.
  - simpl. lia.
Defined.

(** ** drawBonesFunc *)

Lemma alter_app_at {A} (f : A -> A) (l1 l2 : list A) i :
  length l1 = i -> alter f i (l1 ++ l2) = l1 ++ alter f 0 l2.
Proof. intros <-. apply alter_app_r0. Qed.

Lemma drawBone_skip acos this d lw scale skx sky bone st :
  bone_has_graphic skx sky bone = false ->
  drawBone acos this d lw scale skx sky bone st = (st, Normal tt).
Proof.
  unfold bone_has_graphic, drawBone, bone_c. intros H.
  apply andb_false_iff in H as [H|H].
  - apply negb_false_iff in H. rewrite H. reflexivity.
  - apply negb_false_iff in H. rewrite H.
    destruct (_ || _); reflexivity.
Qed.

Lemma drawBone_draw acos this d lw scale skx sky bone st :
  bone_has_graphic skx sky bone = true ->
  bones d < length (heap st) ->
  exists o,
    drawBone acos this d lw scale skx sky bone st =
    (with_heap (alter (push_child (length (heap st))) (bones d) (heap st) ++ [o]) st,
     Normal tt)
    /\ bone_graphic (bones d) skx sky bone o.
Proof.
  unfold bone_has_graphic, drawBone, bone_c. intros H Hlt.
  apply andb_true_iff in H as [H1 H2].
  apply negb_true_iff in H1. apply negb_true_iff in H2. rewrite H1, H2.
  destruct st as [m h atts con]. cbn [heap] in *.
  cbv beta iota zeta delta
    [bind new_Graphics new_obj addChild gfx set_prop modify_heap ret
     registeredSpines heap attachments console with_heap].
  erewrite heap_addChild_old_new; [|exact Hlt|reflexivity|reflexivity].
  assert (Hlen : length (alter (push_child (length h)) (bones d) h) = length h)
    by apply length_alter.
  rewrite !(alter_app_at _ _ _ _ Hlen).
  eexists. split; [reflexivity|].
  unfold bone_graphic, bone_start. cbn.
  repeat split. eexists. split; [reflexivity|discriminate].
Qed.

Lemma add_children_nil o : add_children [] o = o.
Proof. destruct o. unfold add_children, set_children. simpl. rewrite app_nil_r. reflexivity. Qed.

Lemma add_children_push n cs o :
  add_children cs (push_child n o) = add_children (n :: cs) o.
Proof.
  unfold add_children, push_child, set_children. simpl.
  rewrite <- app_assoc. reflexivity.
Qed.

Lemma drawBones_loop acos this d lw scale skx sky bs st :
  bones d < length (heap st) ->
  let n := length (heap st) in
  let drawn := filter (fun b => bone_has_graphic skx sky b = true) bs in
  exists os,
    for_each bs (drawBone acos this d lw scale skx sky) st =
    (with_heap (alter (add_children (seq n (length drawn))) (bones d) (heap st) ++ os) st,
     Normal tt)
    /\ Forall2 (fun o b => bone_graphic (bones d) skx sky b o) os drawn.
Proof.
  revert st. induction bs as [|b bs IH]; intros st Hlt n drawn.
  - exists []. subst drawn. simpl. split; [|constructor].
    rewrite app_nil_r. rewrite list_alter_id by apply add_children_nil.
    destruct st; reflexivity.
  - subst drawn. rewrite filter_cons. simpl for_each. unfold bind at 1.
    destruct (bone_has_graphic skx sky b) eqn:Hb.
    + destruct (drawBone_draw acos this d lw scale skx sky b st Hb Hlt) as (o & Hrun & Ho).
      rewrite Hrun. cbv beta iota.
      rewrite decide_True by reflexivity.
      set (st1 := with_heap _ st).
      assert (Hlen1 : length (heap st1) = S n).
      { subst st1. cbn [heap with_heap]. rewrite length_app, length_alter. simpl. lia. }
      destruct (IH st1) as (os & Hloop & Hos).
      { rewrite Hlen1. lia. }
      rewrite Hloop. exists (o :: os). split; [|constructor; assumption].
      rewrite Hlen1. subst st1. unfold with_heap. cbn [registeredSpines heap attachments console].
      f_equal. f_equal.
      rewrite alter_app_l by (rewrite length_alter; exact Hlt).
      rewrite list_alter_alter_eq. rewrite <- app_assoc. simpl.
      f_equal. apply list_alter_ext; [|reflexivity].
      intros x _. unfold compose. apply add_children_push.
    + rewrite (drawBone_skip acos this d lw scale skx sky b st Hb). cbv beta iota.
      rewrite decide_False by discriminate.
      apply IH. exact Hlt.
Qed.

(** *** Reading a heap after an update *)

Lemma children_of_alter (f : DisplayObject -> DisplayObject) i h j :
  (forall o, children (f o) = children o) ->
  children_of (alter f i h) j = children_of h j.
Proof.
  intros Hf. unfold children_of. rewrite list_lookup_alter.
  destruct (decide (i = j)) as [->|]; [|reflexivity].
  destruct (h !! j); simpl; [apply Hf|reflexivity].
Qed.

Lemma commands_of_alter (f : DisplayObject -> DisplayObject) i h j :
  (forall o, payload (f o) = payload o) ->
  commands_of (alter f i h) j = commands_of h j.
Proof.
  intros Hf. unfold commands_of. rewrite list_lookup_alter.
  destruct (decide (i = j)) as [->|]; [|reflexivity].
  destruct (h !! j); simpl; [rewrite Hf|]; reflexivity.
Qed.

Lemma commands_of_alter_ne (f : DisplayObject -> DisplayObject) i h j :
  i <> j -> commands_of (alter f i h) j = commands_of h j.
Proof. intros Hne. unfold commands_of. rewrite list_lookup_alter_ne; auto. Qed.

Lemma commands_of_add_cmd c g h :
  is_graphics h g ->
  commands_of (alter (add_cmd c) g h) g = commands_of h g ++ [c].
Proof.
  intros (obj & cs & Hobj & Hp). unfold commands_of.
  rewrite list_lookup_alter_eq, Hobj. simpl. unfold add_cmd. rewrite Hp. simpl.
  reflexivity.
Qed.

Lemma commands_of_clear g h : commands_of (alter clear_cmds g h) g = [].
Proof.
  unfold commands_of. rewrite list_lookup_alter_eq.
  destruct (h !! g) as [obj|]; simpl; [|reflexivity].
  unfold clear_cmds. destruct (payload obj) eqn:E; simpl; try rewrite E; reflexivity.
Qed.

Lemma is_graphics_alter (f : DisplayObject -> DisplayObject) i h j :
  (forall o cs, payload o = PGraphics cs -> exists cs', payload (f o) = PGraphics cs') ->
  is_graphics h j -> is_graphics (alter f i h) j.
Proof.
  intros Hf (obj & cs & Hobj & Hp). unfold is_graphics.
  rewrite list_lookup_alter. destruct (decide (i = j)) as [->|].
  - rewrite Hobj. simpl. destruct (Hf obj cs Hp) as [cs' Hcs']. eauto.
  - eauto.
Qed.

Lemma is_graphics_app h os j : is_graphics h j -> is_graphics (h ++ os) j.
Proof.
  intros (obj & cs & Hobj & Hp). exists obj, cs. split; [|exact Hp].
  apply lookup_app_l_Some. exact Hobj.
Qed.

Lemma is_graphics_lt h j : is_graphics h j -> j < length h.
Proof. intros (obj & cs & Hobj & _). eapply lookup_lt_Some. exact Hobj. Qed.

Lemma children_of_app_l h os j : j < length h -> children_of (h ++ os) j = children_of h j.
Proof. intros Hlt. unfold children_of. rewrite lookup_app_l by exact Hlt. reflexivity. Qed.

Lemma commands_of_app_l h os j : j < length h -> commands_of (h ++ os) j = commands_of h j.
Proof. intros Hlt. unfold commands_of. rewrite lookup_app_l by exact Hlt. reflexivity. Qed.

Lemma add_cmd_children c o : children (add_cmd c o) = children o.
Proof. unfold add_cmd. destruct (payload o); reflexivity. Qed.

Lemma add_cmd_graphics c o cs :
  payload o = PGraphics cs -> exists cs', payload (add_cmd c o) = PGraphics cs'.
Proof. intros H. unfold add_cmd. rewrite H. simpl. eauto. Qed.

Lemma children_of_add_children cs b h :
  b < length h ->
  children_of (alter (add_children cs) b h) b = children_of h b ++ cs.
Proof.
  intros Hlt. unfold children_of. rewrite list_lookup_alter_eq.
  destruct (h !! b) eqn:E; simpl; [reflexivity|].
  apply lookup_ge_None in E. lia.
Qed.

Lemma read_spine_at spine st sp :
  spine_at (heap st) spine = Some sp -> read_spine spine st = (st, Normal sp).
Proof. intros H. unfold read_spine. rewrite H. reflexivity. Qed.

Lemma bind_gfx {B} g c (k : unit -> M B) st :
  bind (gfx g c) k st = k tt (with_heap (alter (add_cmd c) g (heap st)) st).
Proof. reflexivity. Qed.

Lemma gfx_run g c st :
  gfx g c st = (with_heap (alter (add_cmd c) g (heap st)) st, Normal tt).
Proof. reflexivity. Qed.

Lemma bind_read_spine {B} spine (k : SpineBase -> M B) st sp :
  spine_at (heap st) spine = Some sp -> bind (read_spine spine) k st = k sp st.
Proof. intros H. unfold bind. rewrite (read_spine_at _ _ _ H). reflexivity. Qed.

Lemma with_heap_with_heap h1 h2 st : with_heap h1 (with_heap h2 st) = with_heap h1 st.
Proof. reflexivity. Qed.

Lemma heap_with_heap h st : heap (with_heap h st) = h.
Proof. reflexivity. Qed.

Lemma drawBonesFunc_run acos this spine d lw scale st sp :
  spine_at (heap st) spine = Some sp ->
  bones d < length (heap st) ->
  let sk := skeleton sp in
  let n := length (heap st) in
  let drawn := filter (fun b => bone_has_graphic (sk_x sk) (sk_y sk) b = true) (sk_bones sk) in
  exists os,
    drawBonesFunc acos this spine d lw scale st =
    (with_heap
       (foldl (fun h c => alter (add_cmd c) (skeletonXY d) h)
          (alter (add_children (seq n (length drawn))) (bones d)
             (alter (add_cmd (LineStyle (Some lw) (Some (skeletonXYColor this)) (Some 1%float)))
                    (skeletonXY d) (heap st)) ++ os)
          (skeletonXY_marker lw (sk_x sk) (sk_y sk))) st,
     Normal tt)
    /\ Forall2 (fun o b => bone_graphic (bones d) (sk_x sk) (sk_y sk) b o) os drawn.
Proof.
  intros Hsp Hb sk n drawn.
  unfold drawBonesFunc.
  rewrite (bind_read_spine _ _ _ _ Hsp). cbv zeta. fold sk.
  rewrite bind_gfx.
  set (st1 := with_heap _ st).
  assert (Hlen1 : length (heap st1) = n) by (subst st1; cbn [heap with_heap]; apply length_alter).
  destruct (drawBones_loop acos this d lw scale (sk_x sk) (sk_y sk) (sk_bones sk) st1)
    as (os & Hloop & Hos).
  { rewrite Hlen1. exact Hb. }
  exists os. split; [|exact Hos].
  unfold bind at 1. rewrite Hloop. cbv beta iota.
  rewrite !bind_gfx, gfx_run. rewrite !heap_with_heap, !with_heap_with_heap.
  rewrite Hlen1. subst st1. rewrite heap_with_heap, with_heap_with_heap.
  reflexivity.
Qed.

Lemma length_foldl_add_cmd (cs : list GCmd) x (h : Heap) :
  length (foldl (fun h' c => alter (add_cmd c) x h') h cs) = length h.
Proof.
  revert h. induction cs as [|c cs IH]; intros h; simpl; [reflexivity|].
  rewrite IH. apply length_alter.
Qed.

(** The children of the bones container and the calls on the origin
    marker after [drawBonesFunc]. *)
Lemma drawBonesFunc_children acos this spine d lw scale st sp :
  spine_at (heap st) spine = Some sp ->
  bones d < length (heap st) ->
  skeletonXY d < length (heap st) ->
  let sk := skeleton sp in
  let drawn := filter (fun b => bone_has_graphic (sk_x sk) (sk_y sk) b = true) (sk_bones sk) in
  children_of (heap (fst (drawBonesFunc acos this spine d lw scale st))) (bones d) =
  children_of (heap st) (bones d) ++ seq (length (heap st)) (length drawn).
Proof.
  intros Hsp Hb Hxlt sk drawn.
  destruct (drawBonesFunc_run acos this spine d lw scale st sp Hsp Hb) as (os & Hrun & Hos).
  fold sk drawn in Hrun, Hos. rewrite Hrun. cbn [fst].
  set (n := length (heap st)) in *.
  set (st1 := with_heap (alter (add_cmd (LineStyle (Some lw) (Some (skeletonXYColor this)) (Some 1%float)))
                               (skeletonXY d) (heap st)) st).
  assert (Hlen1 : length (heap st1) = n) by (subst st1; cbn [heap with_heap]; apply length_alter).
  change (alter (add_cmd (LineStyle (Some lw) (Some (skeletonXYColor this)) (Some 1%float)))
                (skeletonXY d) (heap st)) with (heap st1).
  set (H2 := alter (add_children (seq n (length drawn))) (bones d) (heap st1)).
  assert (HlenH2 : length H2 = n) by (subst H2; rewrite length_alter; exact Hlen1).
  cbn [foldl skeletonXY_marker].
  rewrite heap_with_heap.
  rewrite !(alter_app_l _ _ _ (skeletonXY d))
    by (rewrite ?length_alter, ?HlenH2; exact Hxlt).
  rewrite children_of_app_l by (rewrite !length_alter, HlenH2; exact Hb).
  rewrite !(children_of_alter (add_cmd _)) by apply add_cmd_children.
  subst H2. rewrite children_of_add_children by (rewrite Hlen1; exact Hb).
  subst st1. cbn [heap with_heap].
  rewrite (children_of_alter (add_cmd _)) by apply add_cmd_children. reflexivity.
Qed.

Lemma drawBonesFunc_commands acos this spine d lw scale st sp :
  spine_at (heap st) spine = Some sp ->
  bones d < length (heap st) ->
  is_graphics (heap st) (skeletonXY d) ->
  let sk := skeleton sp in
  commands_of (heap (fst (drawBonesFunc acos this spine d lw scale st))) (skeletonXY d) =
  commands_of (heap st) (skeletonXY d)
  ++ LineStyle (Some lw) (Some (skeletonXYColor this)) (Some 1%float)
  :: skeletonXY_marker lw (sk_x sk) (sk_y sk).
Proof.
  intros Hsp Hb Hx sk.
  pose proof (is_graphics_lt _ _ Hx) as Hxlt.
  destruct (drawBonesFunc_run acos this spine d lw scale st sp Hsp Hb) as (os & Hrun & Hos).
  fold sk in Hrun, Hos. rewrite Hrun. cbn [fst].
  set (n := length (heap st)) in *.
  set (k := length (filter _ _)) in *.
  set (st1 := with_heap (alter (add_cmd (LineStyle (Some lw) (Some (skeletonXYColor this)) (Some 1%float)))
                               (skeletonXY d) (heap st)) st).
  assert (Hlen1 : length (heap st1) = n) by (subst st1; cbn [heap with_heap]; apply length_alter).
  change (alter (add_cmd (LineStyle (Some lw) (Some (skeletonXYColor this)) (Some 1%float)))
                (skeletonXY d) (heap st)) with (heap st1).
  set (H2 := alter (add_children (seq n k)) (bones d) (heap st1)).
  assert (HlenH2 : length H2 = n) by (subst H2; rewrite length_alter; exact Hlen1).
  cbn [foldl skeletonXY_marker].
  rewrite heap_with_heap.
  rewrite !(alter_app_l _ _ _ (skeletonXY d))
    by (rewrite ?length_alter, ?HlenH2; exact Hxlt).
  rewrite commands_of_app_l by (rewrite !length_alter, HlenH2; exact Hxlt).
  assert (Hg1 : is_graphics (heap st1) (skeletonXY d)).
  { subst st1. cbn [heap with_heap].
    apply is_graphics_alter; [apply add_cmd_graphics|exact Hx]. }
  assert (Hg2 : is_graphics H2 (skeletonXY d)).
  { subst H2. apply is_graphics_alter; [|exact Hg1].
    intros o cs Ho. exists cs. exact Ho. }
  rewrite commands_of_add_cmd
    by (repeat (apply is_graphics_alter; [apply add_cmd_graphics|]); exact Hg2).
  rewrite commands_of_add_cmd
    by (repeat (apply is_graphics_alter; [apply add_cmd_graphics|]); exact Hg2).
  rewrite commands_of_add_cmd
    by (repeat (apply is_graphics_alter; [apply add_cmd_graphics|]); exact Hg2).
  rewrite commands_of_add_cmd by exact Hg2.
  subst H2. rewrite commands_of_alter by reflexivity.
  subst st1. cbn [heap with_heap]. rewrite commands_of_add_cmd by exact Hx.
  rewrite <- !app_assoc. reflexivity.
Qed.

(** C10: when the bones are drawn, a graphic is created exactly for the
    bones that are neither named "root" nor without parent and whose
    segment has a length [c] different from zero: the bones container gets
    one new child per such bone, in the order of the bones, each placed at
    the start of its bone, and no other object is created; the other bones
    are skipped.  The "X" at the origin of the skeleton is drawn on
    [skeletonXY] in every case. *)
Theorem drawBonesFunc_bone_graphics acos this spine d lw scale st sp :
  spine_at (heap st) spine = Some sp ->
  bones d < length (heap st) ->
  is_graphics (heap st) (skeletonXY d) ->
  let sk := skeleton sp in
  let n := length (heap st) in
  let drawn := filter (fun b => bone_has_graphic (sk_x sk) (sk_y sk) b = true) (sk_bones sk) in
  let st' := fst (drawBonesFunc acos this spine d lw scale st) in
  snd (drawBonesFunc acos this spine d lw scale st) = Normal tt /\
  length (heap st') = n + length drawn /\
  children_of (heap st') (bones d) =
    children_of (heap st) (bones d) ++ seq n (length drawn) /\
  Forall2 (fun o b => bone_graphic (bones d) (sk_x sk) (sk_y sk) b o)
          (drop n (heap st')) drawn /\
  commands_of (heap st') (skeletonXY d) =
    commands_of (heap st) (skeletonXY d)
    ++ LineStyle (Some lw) (Some (skeletonXYColor this)) (Some 1%float)
    :: skeletonXY_marker lw (sk_x sk) (sk_y sk).
Proof.
  intros Hsp Hb Hx sk n drawn st'.
  pose proof (is_graphics_lt _ _ Hx) as Hxlt.
  pose proof (drawBonesFunc_children acos this spine d lw scale st sp Hsp Hb Hxlt) as Hch.
  pose proof (drawBonesFunc_commands acos this spine d lw scale st sp Hsp Hb Hx) as Hcmd.
  destruct (drawBonesFunc_run acos this spine d lw scale st sp Hsp Hb) as (os & Hrun & Hos).
  fold sk n drawn in Hrun, Hos, Hch, Hcmd. subst st'.
  split; [rewrite Hrun; reflexivity|].
  split; [|split; [exact Hch|split; [|exact Hcmd]]].
  - rewrite Hrun. cbn [fst]. rewrite heap_with_heap, length_foldl_add_cmd.
    rewrite length_app, !length_alter. f_equal.
    eapply Forall2_length. exact Hos.
  - rewrite Hrun. cbn [fst]. rewrite heap_with_heap.
    cbn [foldl skeletonXY_marker].
    rewrite !(alter_app_l _ _ _ (skeletonXY d))
      by (rewrite ?length_alter; exact Hxlt).
    rewrite drop_app_length' by (rewrite !length_alter; reflexivity).
    exact Hos.
Qed.

Lemma drawBonesFunc_bone_graphics_witness :
  let st' := fst (drawBonesFunc sample_acos default_config 0 sample_entry 1%float 1%float
                                (sample_registered [])) in
  children_of (heap st') (bones sample_entry) = [13].
Proof.
  intros st'.
  destruct (drawBonesFunc_bone_graphics sample_acos default_config 0 sample_entry
              1%float 1%float (sample_registered [])
              (mkSpine 1%float 1%float (sample_skeleton [])))
    as (_ & _ & Hch & _).
  - reflexivity.
  - simpl. lia.
  - eexists _, _. split; reflexivity.
  - subst st'. rewrite Hch. reflexivity.
Defined.

(** *** Bones whose start and end coincide *)

Lemma finite_sub_self (x : float) :
  PrimFloat.is_finite x = true -> (x - x)%float = 0%float.
Proof.
  intros Hfin.
  rewrite <- (SF2Prim_Prim2SF (x - x)). rewrite sub_spec.
  unfold PrimFloat.is_finite, PrimFloat.is_nan, PrimFloat.is_infinity in Hfin.
  apply negb_true_iff, orb_false_iff in Hfin as [Hnan Hinf].
  apply negb_false_iff in Hnan.
  rewrite FloatAxioms.eqb_spec in Hnan, Hinf. rewrite abs_spec in Hinf.
  destruct (Prim2SF x) as [s|s| |s m e]; simpl in Hnan, Hinf.
  - destruct s; reflexivity.
  - discriminate.
  - discriminate.
  - unfold SF64sub, SpecFloat.SFsub. simpl.
    rewrite Z.sub_diag. reflexivity.
Qed.

(** A bone whose segment ends where it starts (a zero-length bone at a
    finite position) has [c = 0] and gets no graphic. *)
Lemma zero_length_bone_skipped skx sky bone :
  bone_end skx sky bone = bone_start skx sky bone ->
  PrimFloat.is_finite (fst (bone_start skx sky bone)) = true ->
  PrimFloat.is_finite (snd (bone_start skx sky bone)) = true ->
  bone_has_graphic skx sky bone = false.
Proof.
  unfold bone_end, bone_start. simpl. intros Heq Hx Hy.
  injection Heq as Hex Hey.
  unfold bone_has_graphic, bone_c. rewrite Hex, Hey.
  rewrite (finite_sub_self _ Hx), (finite_sub_self _ Hy).
  apply andb_false_r.
Qed.

Lemma root_bone_skipped skx sky bone :
  bd_name (bone_data bone) = "root"%string -> bone_has_graphic skx sky bone = false.
Proof. intros H. unfold bone_has_graphic. rewrite H. reflexivity. Qed.

Lemma parentless_bone_skipped skx sky bone :
  bd_parent (bone_data bone) = None -> bone_has_graphic skx sky bone = false.
Proof. intros H. unfold bone_has_graphic. rewrite H, orb_true_r. reflexivity. Qed.

(** ** Destruction *)

Lemma is_destroyed_alter (f : DisplayObject -> DisplayObject) i h x :
  (forall o, destroyed o = true -> destroyed (f o) = true) ->
  is_destroyed h x = true -> is_destroyed (alter f i h) x = true.
Proof.
  intros Hf. unfold is_destroyed. rewrite list_lookup_alter.
  destruct (decide (i = x)) as [->|]; [|auto].
  destruct (h !! x); simpl; auto.
Qed.

Lemma is_destroyed_foldl_alter (f : DisplayObject -> DisplayObject) (l : list oid) h x :
  (forall o, destroyed o = true -> destroyed (f o) = true) ->
  is_destroyed h x = true ->
  is_destroyed (foldl (fun h' c => alter f c h') h l) x = true.
Proof.
  intros Hf. revert h. induction l as [|a l IH]; intros h Hx; simpl; [exact Hx|].
  apply IH. apply is_destroyed_alter; auto.
Qed.

Lemma length_foldl_alter (f : DisplayObject -> DisplayObject) (l : list oid) (h : Heap) :
  length (foldl (fun h' c => alter f c h') h l) = length h.
Proof.
  revert h. induction l as [|a l IH]; intros h; simpl; [reflexivity|].
  rewrite IH. apply length_alter.
Qed.

Lemma heap_destroy_S fuel o h :
  heap_destroy (S fuel) o h =
  match h !! o with
  | None => h
  | Some obj =>
      foldl (fun h' c => heap_destroy fuel c h')
        (foldl (fun h' c => alter (set_parent None) c h')
           (alter mark_destroyed o
              match parent obj with
              | Some q => alter (remove_child o) q h
              | None => h
              end)
           (children obj))
        (children obj)
  end.
Proof. reflexivity. Qed.

Lemma length_heap_destroy fuel o h : length (heap_destroy fuel o h) = length h.
Proof.
  revert o h. induction fuel as [|fuel IH]; intros o h; simpl; [reflexivity|].
  destruct (h !! o) as [obj|]; [|reflexivity].
  set (h3 := foldl (fun h' c => alter (set_parent None) c h') _ _).
  assert (Hh3 : length h3 = length h).
  { subst h3. rewrite length_foldl_alter.
    rewrite length_alter. destruct (parent obj); [apply length_alter|reflexivity]. }
  rewrite <- Hh3. generalize h3. clear -IH.
  induction (children obj) as [|c cs IHcs]; intros h3; simpl; [reflexivity|].
  rewrite IHcs. apply IH.
Qed.

(** An object once destroyed stays so. *)
Lemma is_destroyed_heap_destroy fuel o h x :
  is_destroyed h x = true -> is_destroyed (heap_destroy fuel o h) x = true.
Proof.
  revert o h. induction fuel as [|fuel IH]; intros o h Hx; simpl; [exact Hx|].
  destruct (h !! o) as [obj|]; [|exact Hx].
  set (h3 := foldl (fun h' c => alter (set_parent None) c h') _ _).
  assert (Hh3 : is_destroyed h3 x = true).
  { subst h3. apply is_destroyed_foldl_alter; [auto|].
    apply is_destroyed_alter; [reflexivity|].
    destruct (parent obj); [apply is_destroyed_alter; auto|exact Hx]. }
  revert Hh3. generalize h3.
  induction (children obj) as [|c cs IHcs]; intros h4 Hh4; simpl; [exact Hh4|].
  apply IHcs. apply IH. exact Hh4.
Qed.

Lemma is_destroyed_foldl_heap_destroy fuel cs h x :
  is_destroyed h x = true ->
  is_destroyed (foldl (fun h' c => heap_destroy fuel c h') h cs) x = true.
Proof.
  revert h. induction cs as [|c cs IH]; intros h Hx; simpl; [exact Hx|].
  apply IH. apply is_destroyed_heap_destroy. exact Hx.
Qed.

Lemma length_foldl_heap_destroy fuel cs h :
  length (foldl (fun h' c => heap_destroy fuel c h') h cs) = length h.
Proof.
  revert h. induction cs as [|c cs IH]; intros h; simpl; [reflexivity|].
  rewrite IH. apply length_heap_destroy.
Qed.

(** [destroy] marks the object it is called on... *)
Lemma heap_destroy_marks fuel o h :
  o < length h -> is_destroyed (heap_destroy (S fuel) o h) o = true.
Proof.
  intros Hlt. simpl.
  destruct (h !! o) as [obj|] eqn:Hobj; [|apply lookup_ge_None in Hobj; lia].
  apply is_destroyed_foldl_heap_destroy.
  apply is_destroyed_foldl_alter; [auto|].
  unfold is_destroyed. rewrite list_lookup_alter_eq.
  assert (Hsome : is_Some (match parent obj with
                           | Some q => alter (remove_child o) q h
                           | None => h
                           end !! o)).
  { apply lookup_lt_is_Some_2. destruct (parent obj); [rewrite length_alter|]; exact Hlt. }
  destruct Hsome as [o' ->]. reflexivity.
Qed.

(** ... and, with its children, each of them. *)
Lemma foldl_heap_destroy_marks fuel cs h c :
  c ∈ cs -> c < length h ->
  is_destroyed (foldl (fun h' c' => heap_destroy (S fuel) c' h') h cs) c = true.
Proof.
  revert h. induction cs as [|c' cs IH]; intros h Hin Hlt; cbn [foldl].
  - apply elem_of_nil in Hin. contradiction.
  - apply elem_of_cons in Hin as [->|Hin].
    + apply is_destroyed_foldl_heap_destroy. apply heap_destroy_marks. exact Hlt.
    + apply IH; [exact Hin|]. rewrite length_heap_destroy. exact Hlt.
Qed.

Lemma heap_destroy_marks_children fuel o h obj c :
  h !! o = Some obj -> c ∈ children obj -> c < length h ->
  is_destroyed (heap_destroy (S (S fuel)) o h) c = true.
Proof.
  intros Hobj Hin Hlt. rewrite heap_destroy_S, Hobj.
  apply foldl_heap_destroy_marks; [exact Hin|].
  rewrite length_foldl_alter, length_alter.
  destruct (parent obj); [rewrite length_alter|]; exact Hlt.
Qed.

Lemma children_of_foldl_alter (f : DisplayObject -> DisplayObject) (l : list oid) h j :
  (forall o, children (f o) = children o) ->
  children_of (foldl (fun h' c => alter f c h') h l) j = children_of h j.
Proof.
  intros Hf. revert h. induction l as [|a l IH]; intros h; simpl; [reflexivity|].
  rewrite IH. apply children_of_alter. exact Hf.
Qed.

Lemma children_of_alter_ne (f : DisplayObject -> DisplayObject) i h j :
  i <> j -> children_of (alter f i h) j = children_of h j.
Proof. intros Hne. unfold children_of. rewrite list_lookup_alter_ne; auto. Qed.

Lemma children_of_lookup h o obj : h !! o = Some obj -> children_of h o = children obj.
Proof. intros H. unfold children_of. rewrite H. reflexivity. Qed.

(** With three levels of recursion, the children of the first child are
    destroyed as well. *)
Lemma heap_destroy_marks_grandchildren fuel o h obj b rest gc :
  h !! o = Some obj -> children obj = b :: rest ->
  b <> o -> parent obj <> Some b -> b < length h ->
  gc ∈ children_of h b -> gc < length h ->
  is_destroyed (heap_destroy (S (S (S fuel))) o h) gc = true.
Proof.
  intros Hobj Hch Hbo Hpb Hb Hgc Hlt.
  rewrite heap_destroy_S, Hobj, Hch. cbn [foldl].
  apply is_destroyed_foldl_heap_destroy.
  set (h1 := match parent obj with
             | Some q => alter (remove_child o) q h
             | None => h
             end).
  set (h3 := foldl _ _ rest).
  assert (Hlen1 : length h1 = length h).
  { subst h1. destruct (parent obj); [apply length_alter|reflexivity]. }
  assert (Hlen3 : length h3 = length h).
  { subst h3. rewrite length_foldl_alter, !length_alter. exact Hlen1. }
  assert (Hch3 : children_of h3 b = children_of h b).
  { subst h3. rewrite children_of_foldl_alter by reflexivity.
    rewrite children_of_alter by reflexivity.
    rewrite children_of_alter_ne by auto.
    subst h1. destruct (parent obj) as [q|]; [|reflexivity].
    apply children_of_alter_ne. congruence. }
  destruct (lookup_lt_is_Some_2 h3 b) as [objb Hobjb]; [lia|].
  apply (heap_destroy_marks_children fuel b h3 objb gc Hobjb).
  - rewrite <- (children_of_lookup _ _ _ Hobjb), Hch3. exact Hgc.
  - lia.
Qed.

Lemma Map_get_delete_ne k k' m : k <> k' -> Map_get k' (Map_delete k m) = Map_get k' m.
Proof.
  intros Hne. induction m as [|[k0 v0] m IH]; simpl; [reflexivity|].
  destruct (Nat.eqb_spec k0 k) as [->|Hk]; simpl.
  - destruct (Nat.eqb_spec k k'); [contradiction|reflexivity].
  - rewrite IH. reflexivity.
Qed.

Lemma unregisterSpine_of_registered spine st d :
  Map_get spine (registeredSpines st) = Some d ->
  unregisterSpine spine st =
  (mkSt (Map_delete spine (registeredSpines st))
        (heap_destroy (length (heap st)) (parentDebugContainer d) (heap st))
        (attachments st) (console st),
   Normal tt).
Proof.
  intros Hget. unfold unregisterSpine, bind, get_state, when, destroy, modify_heap,
    modify_map, ret.
  rewrite (Map_get_Some_has _ _ _ Hget). simpl. rewrite Hget. reflexivity.
Qed.

(** C6: [unregisterSpine] on a registered spine destroys the registration
    entry and releases the drawing surfaces it owns: it completes normally
    without a warning; the container of the bundle is destroyed, and with
    it the bones container, the ten graphics and the graphics of the bones
    drawn last; the entry of the spine is removed from the registration
    map, the entries of the other spines stay. *)
Theorem unregisterSpine_destroys_entry spine st d :
  Map_get spine (registeredSpines st) = Some d ->
  NoDup (keys st) ->
  entry_wf (heap st) spine d ->
  let st' := fst (unregisterSpine spine st) in
  snd (unregisterSpine spine st) = Normal tt /\
  console st' = console st /\
  Map_get spine (registeredSpines st') = None /\
  (forall k, k <> spine ->
     Map_get k (registeredSpines st') = Map_get k (registeredSpines st)) /\
  is_destroyed (heap st') (parentDebugContainer d) = true /\
  is_destroyed (heap st') (bones d) = true /\
  Forall (fun g => is_destroyed (heap st') g = true) (surfaces d) /\
  Forall (fun c => is_destroyed (heap st') c = true) (children_of (heap st) (bones d)).
Proof.
  intros Hget Hnd (Hdist & (oP & HoP & HpP & HcP) & (ob & Hob & Hpb) & Hsurf & Hbc) st'.
  subst st'. rewrite (unregisterSpine_of_registered _ _ _ Hget). cbn [fst snd].
  split; [reflexivity|]. split; [reflexivity|].
  split; [apply Map_get_delete; exact Hnd|].
  split; [intros k Hk; apply Map_get_delete_ne; auto|].
  cbn [heap].
  pose proof (lookup_lt_Some _ _ _ HoP) as HltP.
  pose proof (lookup_lt_Some _ _ _ Hob) as Hltb.
  assert (Hsurf_lt : Forall (fun g => g < length (heap st)) (surfaces d)).
  { eapply Forall_impl; [exact Hsurf|]. intros g (o & cs & Ho & _).
    eapply lookup_lt_Some. exact Ho. }
  assert (Hsx : skeletonXY d < length (heap st)).
  { apply Forall_cons in Hsurf_lt as [H _]. exact H. }
  apply NoDup_cons in Hdist as [Hsp Hdist].
  apply NoDup_cons in Hdist as [HP Hdist].
  apply NoDup_cons in Hdist as [Hb Hdist].
  assert (HbP : bones d <> parentDebugContainer d).
  { intros E. apply HP. rewrite E. apply list_elem_of_here. }
  assert (Hbs : bones d <> spine).
  { intros E. apply Hsp. rewrite <- E. apply list_elem_of_further, list_elem_of_here. }
  assert (HxP : skeletonXY d <> parentDebugContainer d).
  { intros E. apply HP. rewrite <- E.
    apply list_elem_of_further, list_elem_of_here. }
  assert (Hxb : skeletonXY d <> bones d).
  { intros E. apply Hb. rewrite <- E. apply list_elem_of_here. }
  destruct (length (heap st)) as [|[|[|fuel]]] eqn:Hlen; try lia.
  rewrite <- Hlen in *.
  split.
  { rewrite Hlen. apply heap_destroy_marks. lia. }
  split.
  { rewrite Hlen. apply (heap_destroy_marks_children _ _ _ oP); [exact HoP| |exact Hltb].
    rewrite HcP. apply list_elem_of_here. }
  split.
  { apply Forall_forall. intros g Hg. rewrite Hlen.
    apply (heap_destroy_marks_children _ _ _ oP); [exact HoP| |].
    - rewrite HcP. apply list_elem_of_further. exact Hg.
    - eapply Forall_forall in Hsurf_lt; eauto. }
  apply Forall_forall. intros c Hc. rewrite Hlen.
  apply (heap_destroy_marks_grandchildren fuel _ _ oP (bones d) (surfaces d));
    auto.
  - rewrite HpP. congruence.
  - eapply Forall_forall in Hbc; [|exact Hc]. destruct Hbc as (o & Ho & _).
    eapply lookup_lt_Some. exact Ho.
Qed.

(** The bundle of the sample spine after a frame is well formed. *)
Lemma sample_rendered_wf : entry_wf (heap sample_rendered) 0 sample_entry.
Proof.
  unfold entry_wf.
  change (children_of (heap sample_rendered) (bones sample_entry)) with [13].
  split.
  { apply (bool_decide_unpack _). vm_compute. exact I. }
  split; [eexists; split; [|split]; reflexivity|].
  split; [eexists; split; reflexivity|].
  split.
  - repeat constructor; eexists _, _; (split; [|split; [|split]]); reflexivity.
  - repeat constructor; eexists; (split; [|split]); reflexivity.
Qed.

Lemma unregisterSpine_destroys_entry_witness :
  let st' := fst (unregisterSpine 0 sample_rendered) in
  registeredSpines st' = [] /\
  is_destroyed (heap st') (parentDebugContainer sample_entry) = true /\
  is_destroyed (heap st') 13 = true.
Proof.
  intros st'.
  destruct (unregisterSpine_destroys_entry 0 sample_rendered sample_entry)
    as (_ & _ & _ & _ & HP & _ & _ & Hbc).
  - reflexivity.
  - apply (bool_decide_unpack _). vm_compute. exact I.
  - exact sample_rendered_wf.
  - split; [reflexivity|]. split; [exact HP|].
    change (children_of (heap sample_rendered) (bones sample_entry)) with [13] in Hbc.
    apply Forall_cons in Hbc as [H13 _]. exact H13.
Defined.

(** ** Relations on the scene: the primitives *)

Section HeapRel.

Variable Q : DisplayObject -> DisplayObject -> Prop.
Context `{!PreOrder Q}.

#[global] Instance heap_rel_preorder : PreOrder (heap_rel Q).
Proof.
  split.
  - intros h o obj Hobj. exists obj. split; [exact Hobj|reflexivity].
  - intros h1 h2 h3 H12 H23 o obj Hobj.
    destruct (H12 o obj Hobj) as (obj2 & Hobj2 & HQ2).
    destruct (H23 o obj2 Hobj2) as (obj3 & Hobj3 & HQ3).
    exists obj3. split; [exact Hobj3|]. etransitivity; eassumption.
Qed.

#[global] Instance lift_heap_rel_preorder : PreOrder (lift_heap_rel Q).
Proof.
  split.
  - intros st. unfold lift_heap_rel. reflexivity.
  - intros st1 st2 st3. unfold lift_heap_rel. intros H12 H23. etransitivity; eassumption.
Qed.

Lemma heap_rel_alter (f : DisplayObject -> DisplayObject) i h :
  (forall o, Q o (f o)) -> heap_rel Q h (alter f i h).
Proof.
  intros Hf o obj Hobj. rewrite list_lookup_alter.
  destruct (decide (i = o)) as [->|].
  - rewrite Hobj. simpl. eauto.
  - exists obj. split; [exact Hobj|reflexivity].
Qed.

Lemma heap_rel_app h l : heap_rel Q h (h ++ l).
Proof.
  intros o obj Hobj. exists obj. split; [|reflexivity].
  apply lookup_app_l_Some. exact Hobj.
Qed.

Lemma heap_rel_foldl_alter (f : DisplayObject -> DisplayObject) (l : list oid) h :
  (forall o, Q o (f o)) -> heap_rel Q h (foldl (fun h' c => alter f c h') h l).
Proof.
  intros Hf. revert h. induction l as [|c l IH]; intros h; simpl; [reflexivity|].
  etransitivity; [|apply IH]. apply heap_rel_alter, Hf.
Qed.

Hypothesis Q_set_parent : forall q o, Q o (set_parent q o).
Hypothesis Q_set_children : forall cs o, Q o (set_children cs o).
Hypothesis Q_mark_destroyed : forall o, Q o (mark_destroyed o).

Lemma heap_rel_addChild p c h : heap_rel Q h (heap_addChild p c h).
Proof.
  unfold heap_addChild.
  etransitivity; [|apply heap_rel_alter; intros o; apply Q_set_children].
  etransitivity; [|apply heap_rel_alter; intros o; apply Q_set_parent].
  destruct (h !! c ≫= parent); [|reflexivity].
  apply heap_rel_alter. intros o. apply Q_set_children.
Qed.

Lemma heap_rel_foldl_destroy fuel (l : list oid) h :
  (forall o h', heap_rel Q h' (heap_destroy fuel o h')) ->
  heap_rel Q h (foldl (fun h' c => heap_destroy fuel c h') h l).
Proof.
  intros Hd. revert h. induction l as [|c l IH]; intros h; simpl; [reflexivity|].
  etransitivity; [|apply IH]. apply Hd.
Qed.

Lemma heap_rel_destroy fuel o h : heap_rel Q h (heap_destroy fuel o h).
Proof.
  revert o h. induction fuel as [|fuel IH]; intros o h; [reflexivity|].
  rewrite heap_destroy_S. destruct (h !! o) as [obj|]; [|reflexivity].
  etransitivity; [|apply heap_rel_foldl_destroy; exact IH].
  etransitivity; [|apply heap_rel_foldl_alter; intros x; apply Q_set_parent].
  etransitivity; [|apply heap_rel_alter; intros x; apply Q_mark_destroyed].
  destruct (parent obj); [|reflexivity].
  apply heap_rel_alter. intros x. apply Q_set_children.
Qed.

Lemma lift_modify_heap (f : Heap -> Heap) :
  (forall h, heap_rel Q h (f h)) -> stable (lift_heap_rel Q) (modify_heap f).
Proof. intros Hf st. apply Hf. Qed.

Lemma lift_same_heap {A} (m : M A) :
  (forall st, heap (fst (m st)) = heap st) -> stable (lift_heap_rel Q) m.
Proof. intros Hm st. unfold lift_heap_rel. rewrite Hm. reflexivity. Qed.

Lemma lift_set_prop g (f : DisplayObject -> DisplayObject) :
  (forall o, Q o (f o)) -> stable (lift_heap_rel Q) (set_prop g f).
Proof. intros Hf. apply lift_modify_heap. intros h. apply heap_rel_alter, Hf. Qed.

Lemma lift_new_obj p : stable (lift_heap_rel Q) (new_obj p).
Proof. intros st. apply heap_rel_app. Qed.

Lemma lift_addChild p c : stable (lift_heap_rel Q) (addChild p c).
Proof. apply lift_modify_heap. intros h. apply heap_rel_addChild. Qed.

Lemma lift_destroy o : stable (lift_heap_rel Q) (destroy o).
Proof. apply lift_modify_heap. intros h. apply heap_rel_destroy. Qed.

Lemma lift_console_warn msg spine : stable (lift_heap_rel Q) (console_warn msg spine).
Proof. apply lift_same_heap. reflexivity. Qed.

Lemma lift_modify_map f : stable (lift_heap_rel Q) (modify_map f).
Proof. apply lift_same_heap. reflexivity. Qed.

Lemma lift_updateOffset a att : stable (lift_heap_rel Q) (call_updateOffset a att).
Proof.
  apply lift_same_heap. intros st. unfold call_updateOffset.
  destruct (updateOffset att); reflexivity.
Qed.

Lemma lift_gfx g c :
  (forall o, Q o (add_cmd c o)) -> stable (lift_heap_rel Q) (gfx g c).
Proof. intros Hf. apply lift_modify_heap. intros h. apply heap_rel_alter, Hf. Qed.

Lemma lift_gfx_clear g :
  (forall o, Q o (clear_cmds o)) -> stable (lift_heap_rel Q) (gfx_clear g).
Proof. intros Hf. apply lift_modify_heap. intros h. apply heap_rel_alter, Hf. Qed.

End HeapRel.

(** ** The pose data under renderDebug *)

#[global] Instance keeps_spine_preorder : PreOrder keeps_spine.
Proof.
  split.
  - intros o s H. exact H.
  - intros o1 o2 o3 H12 H23 s H. auto.
Qed.

Lemma keeps_spine_same_payload o o' : payload o' = payload o -> keeps_spine o o'.
Proof. intros H s Hs. congruence. Qed.

Lemma keeps_spine_add_cmd c o : keeps_spine o (add_cmd c o).
Proof. intros s Hs. unfold add_cmd. rewrite Hs. exact Hs. Qed.

Lemma keeps_spine_clear_cmds o : keeps_spine o (clear_cmds o).
Proof. intros s Hs. unfold clear_cmds. rewrite Hs. exact Hs. Qed.

Lemma lift_keeps_spine_spines_kept st st' :
  lift_heap_rel keeps_spine st st' -> spines_kept st st'.
Proof.
  intros H o s. unfold spine_at.
  destruct (heap st !! o) as [obj|] eqn:Hobj; [|discriminate].
  destruct (H o obj Hobj) as (obj' & -> & HQ).
  destruct (payload obj) as [| |s0] eqn:Hp; try discriminate.
  intros [= ->]. rewrite (HQ s Hp). reflexivity.
Qed.

Lemma spines_kept_renderDebug acos bounds refused this spine st :
  spines_kept st (fst (renderDebug acos bounds refused this spine st)).
Proof.
  apply lift_keeps_spine_spines_kept.
  assert (Hgfx : forall g c, stable (lift_heap_rel keeps_spine) (gfx g c)).
  { intros g c. apply lift_gfx; [exact _|]. apply keeps_spine_add_cmd. }
  revert st. change (stable (lift_heap_rel keeps_spine) (renderDebug acos bounds refused this spine)).
  apply (stable_renderDebug acos bounds refused (lift_heap_rel keeps_spine) (fun _ => True));
    try apply lift_heap_rel_preorder; try exact _; auto;
    try (intros; apply lift_set_prop; [exact _|]; intros o;
         apply keeps_spine_same_payload; reflexivity);
    try (intros; first [apply lift_new_obj | apply lift_addChild | apply lift_destroy
                       | apply lift_console_warn | apply lift_modify_map ];
         try exact _; intros; apply keeps_spine_same_payload; reflexivity).
  - intros g. apply lift_gfx_clear; [exact _|]. apply keeps_spine_clear_cmds.
  - intros _ d slot.
    apply (stable_drawRegionSlot (lift_heap_rel keeps_spine) (fun _ => True));
      try apply lift_heap_rel_preorder; try exact _; auto.
    intros. apply lift_updateOffset. exact _.
Qed.

Lemma own_update_refl att : own_update att att.
Proof. split; [reflexivity|]. split; [reflexivity|]. left. reflexivity. Qed.

Lemma own_update_trans att1 att2 att3 :
  own_update att1 att2 -> own_update att2 att3 -> own_update att1 att3.
Proof.
  intros (Hc12 & Hu12 & Hd12) (Hc23 & Hu23 & Hd23).
  split; [congruence|]. split; [congruence|].
  destruct Hd12 as [E12|(f & k & Hf & E12)], Hd23 as [E23|(g & j & Hg & E23)].
  - left. congruence.
  - right. exists g, j. split; congruence.
  - right. exists f, k. split; congruence.
  - right. exists f, (j + k). split; [exact Hf|].
    assert (g = f) by congruence. subst g.
    rewrite E23, E12. symmetry. apply Nat.iter_add.
Qed.

#[global] Instance attachments_kept_preorder : PreOrder attachments_kept.
Proof.
  split.
  - intros st a att Hatt. exists att. split; [exact Hatt|].
    split; [apply own_update_refl|reflexivity].
  - intros st1 st2 st3 H12 H23 a att Hatt.
    destruct (H12 a att Hatt) as (att2 & Hatt2 & Hown2 & Hne2).
    destruct (H23 a att2 Hatt2) as (att3 & Hatt3 & Hown3 & Hne3).
    exists att3. split; [exact Hatt3|].
    split; [eapply own_update_trans; eassumption|].
    intros Hne. pose proof (Hne2 Hne) as E2. subst att2. apply Hne3. exact Hne.
Qed.

Lemma attachments_kept_same st st' :
  attachments st' = attachments st -> attachments_kept st st'.
Proof.
  intros E a att Hatt. exists att. rewrite E.
  split; [exact Hatt|]. split; [apply own_update_refl|reflexivity].
Qed.

Lemma AttachmentType_eqb_eq a b : AttachmentType_eqb a b = true <-> a = b.
Proof. destruct a, b; simpl; split; congruence. Qed.

Lemma attachments_kept_drawRegionSlot d slot :
  stable attachments_kept (drawRegionSlot d slot).
Proof.
  intros st. unfold drawRegionSlot, bind, getAttachment.
  destruct (slot_attachment slot) as [a|]; [|reflexivity].
  destruct (attachments st !! a) as [att|] eqn:Hatt; [|reflexivity].
  destruct (AttachmentType_eqb (att_type (att_data att)) Region) eqn:Hty;
    [|reflexivity].
  apply AttachmentType_eqb_eq in Hty. simpl negb. cbv iota.
  unfold call_updateOffset.
  destruct (updateOffset att) as [f|] eqn:Hf; [|reflexivity].
  simpl. intros a' att0 Hatt0. cbn [attachments].
  destruct (decide (a = a')) as [<-|Hne].
  - assert (att0 = att) by congruence. subst att0.
    eexists. split.
    + apply list_lookup_insert_eq. eapply lookup_lt_Some. exact Hatt.
    + split; [|intros Hne; contradiction].
      split; [reflexivity|]. split; [simpl; congruence|].
      right. exists f, 1. split; [exact Hf|reflexivity].
  - exists att0. rewrite list_lookup_insert_ne by exact Hne.
    split; [exact Hatt0|]. split; [apply own_update_refl|reflexivity].
Qed.

Lemma attachments_kept_renderDebug acos bounds refused this spine st :
  attachments_kept st (fst (renderDebug acos bounds refused this spine st)).
Proof.
  revert st. change (stable attachments_kept (renderDebug acos bounds refused this spine)).
  apply (stable_renderDebug acos bounds refused attachments_kept (fun _ => True));
    try exact _; auto;
    try (intros; intros st; apply attachments_kept_same; reflexivity).
  intros _ d slot. apply attachments_kept_drawRegionSlot.
Qed.

#[global] Instance same_attachments_preorder : PreOrder same_attachments.
Proof.
  split.
  - intros st. reflexivity.
  - intros st1 st2 st3 H12 H23. unfold same_attachments in *. congruence.
Qed.

Lemma same_attachments_renderDebug acos bounds refused this spine st :
  drawRegionAttachments this = false ->
  same_attachments st (fst (renderDebug acos bounds refused this spine st)).
Proof.
  intros Hoff. revert st.
  change (stable same_attachments (renderDebug acos bounds refused this spine)).
  apply (stable_renderDebug acos bounds refused same_attachments (fun _ => True));
    try exact _; auto; try (intros; intros st; reflexivity).
  rewrite Hoff. discriminate.
Qed.

(** C8, as the code has it: [renderDebug] leaves every spine object with
    its scale and its skeleton (position, bones and slots), and leaves the
    attachment objects in place with their methods; an attachment that is
    not a region is untouched, and a region attachment is changed at most
    by its own [updateOffset], which [renderDebug] calls on each region
    it draws; with [drawRegionAttachments] off no attachment is touched
    at all. *)
Theorem renderDebug_reads_pose acos bounds refused this spine st :
  let st' := fst (renderDebug acos bounds refused this spine st) in
  spines_kept st st' /\
  attachments_kept st st' /\
  (drawRegionAttachments this = false -> pose_unchanged st st').
Proof.
  intros st'. subst st'.
  split; [apply spines_kept_renderDebug|].
  split; [apply attachments_kept_renderDebug|].
  intros Hoff. split; [apply spines_kept_renderDebug|].
  apply same_attachments_renderDebug. exact Hoff.
Qed.

(** C8, as stated, fails: the sample spine has a region attachment whose
    cached offset is out of date; one [renderDebug] with the default
    configuration calls its [updateOffset], and the stored data of the
    attachment is not what it was. *)
Lemma renderDebug_updates_region_attachment :
  ~ pose_unchanged (sample_world sample_slots)
      (fst (renderDebug sample_acos sample_bounds sample_refused default_config 0
                        (sample_world sample_slots))).
Proof.
  intros [_ H].
  apply (f_equal (fun atts =>
           match atts with
           | att :: _ =>
               match att_stored (att_data att) with
               | [_; o] => PrimFloat.eqb o 1
               | _ => false
               end
           | [] => false
           end)) in H.
  vm_compute in H. discriminate.
Qed.

(** ** The clearing part of renderDebug *)

Lemma heap_destroy_leaf fuel c h oc :
  h !! c = Some oc -> children oc = [] ->
  heap_destroy (S fuel) c h =
  alter mark_destroyed c
    match parent oc with
    | Some q => alter (remove_child c) q h
    | None => h
    end.
Proof. intros Hc Hch. rewrite heap_destroy_S, Hc, Hch. reflexivity. Qed.

Lemma remove_first_last cs c : c ∉ cs -> remove_first c (cs ++ [c]) = cs.
Proof.
  induction cs as [|c' cs IH]; simpl; intros Hni.
  - rewrite Nat.eqb_refl. reflexivity.
  - apply not_elem_of_cons in Hni as [Hne Hni].
    destruct (Nat.eqb_spec c' c); [congruence|]. rewrite IH; auto.
Qed.

Lemma children_of_remove_child c b h :
  children_of (alter (remove_child c) b h) b = remove_first c (children_of h b).
Proof.
  unfold children_of. rewrite list_lookup_alter_eq.
  destruct (h !! b); reflexivity.
Qed.

Lemma is_destroyed_mark c h : c < length h -> is_destroyed (alter mark_destroyed c h) c = true.
Proof.
  intros Hlt. unfold is_destroyed. rewrite list_lookup_alter_eq.
  destruct (lookup_lt_is_Some_2 h c Hlt) as [o ->]. reflexivity.
Qed.

(** The loop that destroys the children of the bones container, when these
    are childless objects of their own: all of them are destroyed, none is
    left under the container, which keeps its own place, and nothing else
    is touched. *)
Lemma destroyBoneChildren_spec b cs : forall st,
  children_of (heap st) b = cs -> NoDup cs -> b ∉ cs ->
  (forall c, c ∈ cs -> exists oc, heap st !! c = Some oc /\ parent oc = Some b /\
                                  children oc = []) ->
  exists h',
    destroyBoneChildren b (length cs) st = (with_heap h' st, Normal tt) /\
    length h' = length (heap st) /\
    children_of h' b = [] /\
    (forall c, c ∈ cs -> is_destroyed h' c = true) /\
    (forall g, g <> b -> g ∉ cs -> h' !! g = heap st !! g) /\
    (forall ob, heap st !! b = Some ob ->
       exists ob', h' !! b = Some ob' /\ parent ob' = parent ob /\
                   payload ob' = payload ob).
Proof.
  induction cs as [|c cs IH] using rev_ind; intros st Hch Hnd Hb Hleaf.
  - exists (heap st). simpl. split; [destruct st; reflexivity|].
    split; [reflexivity|]. split; [exact Hch|].
    split; [intros c Hc; apply elem_of_nil in Hc; contradiction|].
    split; [reflexivity|]. intros ob Hob. exists ob. auto.
  - rewrite length_app, Nat.add_1_r. cbn [destroyBoneChildren].
    unfold bind at 1, get_state at 1. cbv beta iota.
    rewrite Hch, lookup_app_r0. cbn [lookup list_lookup].
    apply NoDup_app in Hnd as (Hnd & Hcc & _).
    assert (Hc_cs : c ∉ cs).
    { intros Hin. apply (Hcc c Hin). apply list_elem_of_here. }
    assert (Hcb : c <> b).
    { intros ->. apply Hb. apply elem_of_app. right. apply list_elem_of_here. }
    destruct (Hleaf c) as (oc & Hoc & Hpc & Hlc).
    { apply elem_of_app. right. apply list_elem_of_here. }
    pose proof (lookup_lt_Some _ _ _ Hoc) as Hclt.
    unfold bind at 1, destroy at 1, modify_heap at 1. cbv beta iota.
    fold (with_heap (heap_destroy (length (heap st)) c (heap st)) st).
    destruct (length (heap st)) as [|fuel] eqn:Hlen; [lia|].
    rewrite (heap_destroy_leaf fuel c (heap st) oc Hoc Hlc), Hpc.
    set (h1 := alter mark_destroyed c (alter (remove_child c) b (heap st))).
    assert (Hlen1 : length h1 = length (heap st)).
    { subst h1. rewrite !length_alter. reflexivity. }
    assert (Hframe1 : forall g, g <> b -> g <> c -> h1 !! g = heap st !! g).
    { intros g Hgb Hgc. subst h1. rewrite !list_lookup_alter_ne by auto. reflexivity. }
    destruct (IH (with_heap h1 st)) as (h' & Hrun & Hlen' & Hch' & Hdes' & Hframe' & Hb').
    + rewrite heap_with_heap. subst h1.
      rewrite children_of_alter_ne by auto.
      rewrite children_of_remove_child, Hch. apply remove_first_last. exact Hc_cs.
    + exact Hnd.
    + intros Hin. apply Hb. apply elem_of_app. left. exact Hin.
    + intros c' Hc'. rewrite heap_with_heap.
      destruct (Hleaf c') as (oc' & Hoc' & Hpc' & Hlc').
      { apply elem_of_app. left. exact Hc'. }
      exists oc'. rewrite Hframe1; [auto| |].
      * intros ->. apply Hb. apply elem_of_app. left. exact Hc'.
      * intros ->. contradiction.
    + exists h'. rewrite Hrun. rewrite with_heap_with_heap.
      rewrite heap_with_heap in Hlen', Hframe', Hb'.
      split; [reflexivity|]. split; [lia|]. split; [exact Hch'|].
      split; [|split].
      * intros c' Hc'. apply elem_of_app in Hc' as [Hc'|Hc'].
        -- apply Hdes'. exact Hc'.
        -- apply list_elem_of_singleton in Hc' as ->.
           unfold is_destroyed. rewrite Hframe' by auto.
           change (is_destroyed h1 c = true). subst h1.
           apply is_destroyed_mark. rewrite length_alter. lia.
      * intros g Hgb Hg. rewrite Hframe'; [|exact Hgb|].
        -- apply Hframe1; [exact Hgb|]. intros ->. apply Hg.
           apply elem_of_app. right. apply list_elem_of_here.
        -- intros Hin. apply Hg. apply elem_of_app. left. exact Hin.
      * intros ob Hob.
        destruct (Hb' (remove_child c ob)) as (ob' & Hob' & Hp' & Hpay').
        { subst h1. rewrite list_lookup_alter_ne by auto.
          rewrite list_lookup_alter_eq, Hob. reflexivity. }
        exists ob'. auto.
Qed.

Lemma lookup_foldl_alter_notin (f : DisplayObject -> DisplayObject) (l : list oid)
      (h : Heap) g :
  g ∉ l -> foldl (fun h' c => alter f c h') h l !! g = h !! g.
Proof.
  revert h. induction l as [|c l IH]; intros h Hg; simpl; [reflexivity|].
  apply not_elem_of_cons in Hg as [Hne Hg].
  rewrite IH by exact Hg. apply list_lookup_alter_ne. auto.
Qed.

Lemma commands_of_clear_blank g' g (h : Heap) :
  commands_of h g = [] -> commands_of (alter clear_cmds g' h) g = [].
Proof.
  intros H. destruct (decide (g' = g)) as [->|Hne].
  - apply commands_of_clear.
  - rewrite commands_of_alter_ne by exact Hne. exact H.
Qed.

Lemma commands_of_foldl_clear (l : list oid) (h : Heap) g :
  g ∈ l -> commands_of (foldl (fun h' c => alter clear_cmds c h') h l) g = [].
Proof.
  assert (Hkeep : forall l h, commands_of h g = [] ->
            commands_of (foldl (fun h' c => alter clear_cmds c h') h l) g = []).
  { clear. induction l as [|c l IH]; intros h H; simpl; [exact H|].
    apply IH. apply commands_of_clear_blank. exact H. }
  revert h. induction l as [|c l IH]; intros h Hg; simpl.
  - apply elem_of_nil in Hg. contradiction.
  - apply elem_of_cons in Hg as [->|Hg].
    + apply Hkeep. apply commands_of_clear.
    + apply IH. exact Hg.
Qed.

Lemma clear_cmds_graphics o cs :
  payload o = PGraphics cs -> exists cs', payload (clear_cmds o) = PGraphics cs'.
Proof. intros H. unfold clear_cmds. rewrite H. simpl. eauto. Qed.

Lemma is_graphics_foldl_clear (l : list oid) (h : Heap) g :
  is_graphics h g -> is_graphics (foldl (fun h' c => alter clear_cmds c h') h l) g.
Proof.
  revert h. induction l as [|c l IH]; intros h Hg; simpl; [exact Hg|].
  apply IH. apply is_graphics_alter; [apply clear_cmds_graphics|exact Hg].
Qed.

Lemma clear_cmds_children o : children (clear_cmds o) = children o.
Proof. unfold clear_cmds. destruct (payload o); reflexivity. Qed.

Lemma clearDebugDisplayObjects_cleared d st :
  clearDebugDisplayObjects d st =
  destroyBoneChildren (bones d) (length (children_of (cleared d (heap st)) (bones d)))
                      (with_heap (cleared d (heap st)) st).
Proof. reflexivity. Qed.

(** The facts about a well-formed entry that the proofs below use. *)
Lemma entry_wf_surfaces h spine d :
  entry_wf h spine d ->
  NoDup (surfaces d) /\ (bones d ∉ surfaces d) /\
  (forall g, g ∈ surfaces d -> is_graphics h g) /\
  NoDup (children_of h (bones d)) /\
  (bones d ∉ children_of h (bones d)) /\
  (forall c, c ∈ children_of h (bones d) -> c ∉ surfaces d) /\
  bones d < length h.
Proof.
  intros (Hnd & _ & (ob & Hob & _) & Hsurf & _).
  apply NoDup_cons in Hnd as [_ Hnd].
  apply NoDup_cons in Hnd as [_ Hnd].
  apply NoDup_cons in Hnd as [Hb Hnd].
  apply NoDup_app in Hnd as (Hnds & Hdisj & Hndc).
  split; [exact Hnds|].
  split; [intros Hin; apply Hb, elem_of_app; left; exact Hin|].
  split.
  { intros g Hg. eapply Forall_forall in Hsurf; [|exact Hg].
    destruct Hsurf as (o & cs & Ho & _ & _ & Hp). exists o, cs. auto. }
  split; [exact Hndc|].
  split; [intros Hin; apply Hb, elem_of_app; right; exact Hin|].
  split; [intros c Hc Hs; exact (Hdisj c Hs Hc)|].
  eapply lookup_lt_Some. exact Hob.
Qed.

(** The clearing part, on a well-formed entry: it completes normally; the
    ten graphics are blank; the former children of the bones container are
    destroyed and the container is empty. *)
Lemma clearDebugDisplayObjects_spec d spine st :
  entry_wf (heap st) spine d ->
  exists h',
    clearDebugDisplayObjects d st = (with_heap h' st, Normal tt) /\
    length h' = length (heap st) /\
    (forall g, g ∈ surfaces d -> blank h' g /\ is_graphics h' g) /\
    children_of h' (bones d) = [] /\
    (forall c, c ∈ children_of (heap st) (bones d) -> is_destroyed h' c = true).
Proof.
  intros Hwf.
  destruct (entry_wf_surfaces _ _ _ Hwf) as (Hnds & Hbs & Hgr & Hndc & Hbc & Hcs & Hblt).
  destruct Hwf as (_ & _ & _ & _ & Hleaf).
  rewrite clearDebugDisplayObjects_cleared.
  assert (Hch : children_of (cleared d (heap st)) (bones d) = children_of (heap st) (bones d)).
  { unfold cleared. apply children_of_foldl_alter, clear_cmds_children. }
  assert (Hlenc : length (cleared d (heap st)) = length (heap st)).
  { unfold cleared. apply length_foldl_alter. }
  rewrite Hch.
  destruct (destroyBoneChildren_spec (bones d) (children_of (heap st) (bones d))
              (with_heap (cleared d (heap st)) st))
    as (h' & Hrun & Hlen' & Hch' & Hdes' & Hframe' & _).
  - rewrite heap_with_heap. exact Hch.
  - exact Hndc.
  - exact Hbc.
  - intros c Hc. rewrite heap_with_heap.
    eapply Forall_forall in Hleaf; [|exact Hc].
    destruct Hleaf as (oc & Hoc & Hpc & Hlc). exists oc.
    unfold cleared. rewrite lookup_foldl_alter_notin by (apply Hcs; exact Hc). auto.
  - exists h'. rewrite Hrun, with_heap_with_heap.
    rewrite heap_with_heap in Hlen', Hframe'.
    split; [reflexivity|]. split; [lia|]. split; [|split; [exact Hch'|exact Hdes']].
    intros g Hg.
    assert (Hg' : h' !! g = cleared d (heap st) !! g).
    { apply Hframe'.
      - intros ->. contradiction.
      - intros Hin. exact (Hcs g Hin Hg). }
    split.
    + unfold blank, commands_of. rewrite Hg'.
      change (commands_of (cleared d (heap st)) g = []).
      unfold cleared. apply commands_of_foldl_clear. exact Hg.
    + unfold is_graphics. rewrite Hg'.
      change (is_graphics (cleared d (heap st)) g).
      unfold cleared. apply is_graphics_foldl_clear. apply Hgr. exact Hg.
Qed.

(** ** The drawing part of renderDebug: what a computation leaves on a graphic *)

#[global] Instance untouched_at_preorder g : PreOrder (untouched_at g).
Proof.
  split.
  - intros st. reflexivity.
  - intros st1 st2 st3 H12 H23. unfold untouched_at in *. congruence.
Qed.

#[global] Instance only_grows_preorder : PreOrder only_grows.
Proof.
  split.
  - intros o. split; [auto|]. intros cs H. exists []. rewrite app_nil_r. exact H.
  - intros o1 o2 o3 [Hd12 Hc12] [Hd23 Hc23]. split; [auto|].
    intros cs H. destruct (Hc12 cs H) as [cs2 H2].
    destruct (Hc23 _ H2) as [cs3 H3]. exists (cs2 ++ cs3).
    rewrite app_assoc. exact H3.
Qed.

(** *** The primitives *)

Lemma untouched_gfx g x c : x <> g -> stable (untouched_at g) (gfx x c).
Proof. intros Hne st. apply list_lookup_alter_ne. exact Hne. Qed.

Lemma untouched_same_heap {A} g (m : M A) :
  (forall st, heap (fst (m st)) = heap st) -> stable (untouched_at g) m.
Proof. intros Hm st. unfold untouched_at. rewrite Hm. reflexivity. Qed.

Lemma untouched_updateOffset g a att : stable (untouched_at g) (call_updateOffset a att).
Proof.
  apply untouched_same_heap. intros st. unfold call_updateOffset.
  destruct (updateOffset att); reflexivity.
Qed.

Lemma only_grows_same o o' :
  destroyed o' = destroyed o -> payload o' = payload o -> only_grows o o'.
Proof.
  intros Hd Hp. split; [congruence|]. intros cs H. exists [].
  rewrite app_nil_r. congruence.
Qed.

Lemma only_grows_add_cmd c o : only_grows o (add_cmd c o).
Proof.
  split.
  - unfold add_cmd. destruct (payload o); auto.
  - intros cs H. exists [c]. unfold add_cmd. rewrite H. reflexivity.
Qed.

Lemma only_grows_mark_destroyed o : only_grows o (mark_destroyed o).
Proof. split; [reflexivity|]. intros cs H. exists []. rewrite app_nil_r. exact H. Qed.

Lemma grows_gfx g c : stable (lift_heap_rel only_grows) (gfx g c).
Proof. apply lift_gfx; [exact _|]. apply only_grows_add_cmd. Qed.

(** *** The drawing functions leave the other graphics as they are *)

Section Untouched.

Variable SkeletonBounds_update : Skeleton -> list Attachment -> SkeletonBounds.
Variable Float32Array_refused : nat -> option string.
Variable this : Config.
Variable g : oid.

Local Ltac by_composite lem :=
  apply (lem (untouched_at g) _ (fun x => x <> g)); try exact _;
  auto using untouched_gfx, untouched_updateOffset.

Lemma untouched_drawPathsFunc spine d lw :
  pathsCurve d <> g -> pathsLine d <> g ->
  stable (untouched_at g) (drawPathsFunc Float32Array_refused this spine d lw).
Proof. intros. by_composite (@stable_drawPathsFunc Float32Array_refused). Qed.

Lemma untouched_drawBoundingBoxesFunc spine d lw :
  boundingBoxesRect d <> g -> boundingBoxesCircle d <> g ->
  boundingBoxesPolygon d <> g ->
  stable (untouched_at g) (drawBoundingBoxesFunc SkeletonBounds_update this spine d lw).
Proof.
  intros.
  apply (stable_drawBoundingBoxesFunc SkeletonBounds_update (untouched_at g) (fun x => x <> g));
    auto using untouched_gfx; exact _.
Qed.

Lemma untouched_drawClippingFunc spine d lw :
  clippingPolygon d <> g ->
  stable (untouched_at g) (drawClippingFunc Float32Array_refused this spine d lw).
Proof. intros. by_composite (@stable_drawClippingFunc Float32Array_refused). Qed.

Lemma untouched_drawMeshSlot d slot :
  meshHullLine d <> g -> meshTrianglesLine d <> g ->
  stable (untouched_at g) (drawMeshSlot Float32Array_refused this d slot).
Proof. intros. by_composite (@stable_drawMeshSlot Float32Array_refused). Qed.

Lemma untouched_drawMeshHullAndMeshTriangles spine d lw :
  meshHullLine d <> g -> meshTrianglesLine d <> g ->
  stable (untouched_at g) (drawMeshHullAndMeshTriangles Float32Array_refused this spine d lw).
Proof. intros. by_composite (@stable_drawMeshHullAndMeshTriangles Float32Array_refused). Qed.

Lemma untouched_drawRegionSlot d slot :
  regionAttachmentsShape d <> g ->
  stable (untouched_at g) (drawRegionSlot d slot).
Proof. intros. by_composite (@stable_drawRegionSlot). Qed.

Lemma untouched_drawRegionAttachmentsFunc spine d lw :
  regionAttachmentsShape d <> g ->
  stable (untouched_at g) (drawRegionAttachmentsFunc this spine d lw).
Proof.
  intros. by_composite (@stable_drawRegionAttachmentsFunc).
  intros slot. apply untouched_drawRegionSlot. assumption.
Qed.

(** The calls after the bones leave alone a graphic that belongs to no
    category that is switched on. *)
Lemma untouched_draw_after_bones spine d lw :
  (drawPaths this = true -> pathsCurve d <> g /\ pathsLine d <> g) ->
  (drawBoundingBoxes this = true ->
   boundingBoxesRect d <> g /\ boundingBoxesCircle d <> g /\ boundingBoxesPolygon d <> g) ->
  (drawClipping this = true -> clippingPolygon d <> g) ->
  (drawMeshHull this || drawMeshTriangles this = true ->
   meshHullLine d <> g /\ meshTrianglesLine d <> g) ->
  (drawRegionAttachments this = true -> regionAttachmentsShape d <> g) ->
  stable (untouched_at g) (draw_after_bones SkeletonBounds_update Float32Array_refused this spine d lw).
Proof.
  intros Hp Hb Hc Hm Hr. unfold draw_after_bones.
  destruct (drawPaths this); destruct (drawBoundingBoxes this);
    destruct (drawClipping this);
    destruct (drawMeshHull this || drawMeshTriangles this);
    destruct (drawRegionAttachments this);
    repeat stable_step;
    lazymatch goal with
    | |- stable _ (drawPathsFunc _ _ _ _ _) =>
        apply untouched_drawPathsFunc; apply Hp; reflexivity
    | |- stable _ (drawBoundingBoxesFunc _ _ _ _ _) =>
        apply untouched_drawBoundingBoxesFunc; apply Hb; reflexivity
    | |- stable _ (drawClippingFunc _ _ _ _ _) =>
        apply untouched_drawClippingFunc; apply Hc; reflexivity
    | |- stable _ (drawMeshHullAndMeshTriangles _ _ _ _ _) =>
        apply untouched_drawMeshHullAndMeshTriangles; apply Hm; reflexivity
    | |- stable _ (drawRegionAttachmentsFunc _ _ _ _) =>
        apply untouched_drawRegionAttachmentsFunc; apply Hr; reflexivity
    end.
Qed.

End Untouched.

(** *** The drawing functions only add to what is there *)

Section Grows.

Variable Math_acos : number -> number.
Variable this : Config.

Lemma grows_drawBonesFunc spine d lw scale :
  stable (lift_heap_rel only_grows) (drawBonesFunc Math_acos this spine d lw scale).
Proof.
  apply (stable_drawBonesFunc Math_acos (lift_heap_rel only_grows) (fun _ => True));
    auto using grows_gfx; try exact _;
    try (intros; apply lift_set_prop; [exact _|]; intros o;
         apply only_grows_same; reflexivity).
  - intros. apply lift_new_obj. exact _.
  - intros. apply lift_addChild; try exact _; intros;
      apply only_grows_same; reflexivity.
Qed.

End Grows.

(** *** The calls after the bones *)


Ltac neq := first [ assumption | apply not_eq_sym; assumption ].

Ltac keep :=
  lazymatch goal with
  | |- stable (untouched_at _) (when _ _) => apply stable_when; [exact _|keep]
  | |- stable (untouched_at _) (bind _ _) =>
      apply stable_bind; [exact _|keep|intros _; keep]
  | |- stable (untouched_at _) (drawPathsFunc _ _ _ _ _) =>
      apply untouched_drawPathsFunc; neq
  | |- stable (untouched_at _) (drawBoundingBoxesFunc _ _ _ _ _) =>
      apply untouched_drawBoundingBoxesFunc; neq
  | |- stable (untouched_at _) (drawClippingFunc _ _ _ _ _) =>
      apply untouched_drawClippingFunc; neq
  | |- stable (untouched_at _) (drawMeshHullAndMeshTriangles _ _ _ _ _) =>
      apply untouched_drawMeshHullAndMeshTriangles; neq
  | |- stable (untouched_at _) (drawRegionAttachmentsFunc _ _ _ _) =>
      apply untouched_drawRegionAttachmentsFunc; neq
  end.

Lemma elem_of_surfaces d g :
  g ∈ surfaces d <->
  g = skeletonXY d \/ g = regionAttachmentsShape d \/ g = meshTrianglesLine d \/
  g = meshHullLine d \/ g = clippingPolygon d \/ g = boundingBoxesRect d \/
  g = boundingBoxesCircle d \/ g = boundingBoxesPolygon d \/ g = pathsCurve d \/
  g = pathsLine d.
Proof.
  unfold surfaces. rewrite !elem_of_cons, elem_of_nil. tauto.
Qed.

(** *** The bones, then the rest *)

Lemma lookup_foldl_add_cmd_ne (cs : list GCmd) x (h : Heap) g :
  x <> g -> foldl (fun h' c => alter (add_cmd c) x h') h cs !! g = h !! g.
Proof.
  intros Hne. revert h. induction cs as [|c cs IH]; intros h; simpl; [reflexivity|].
  rewrite IH. apply list_lookup_alter_ne. exact Hne.
Qed.

(** [drawBonesFunc] leaves alone the objects that were there, but for the
    graphic of the origin marker and the bones container. *)
Lemma drawBonesFunc_untouched acos this spine d lw scale st sp g :
  spine_at (heap st) spine = Some sp ->
  bones d < length (heap st) ->
  g < length (heap st) -> g <> skeletonXY d -> g <> bones d ->
  heap (fst (drawBonesFunc acos this spine d lw scale st)) !! g = heap st !! g.
Proof.
  intros Hsp Hb Hg Hgx Hgb.
  destruct (drawBonesFunc_run acos this spine d lw scale st sp Hsp Hb) as (os & Hrun & _).
  rewrite Hrun. cbn [fst]. rewrite heap_with_heap.
  rewrite lookup_foldl_add_cmd_ne by auto.
  rewrite lookup_app_l by (rewrite !length_alter; exact Hg).
  rewrite !list_lookup_alter_ne by auto. reflexivity.
Qed.

Lemma drawDebugDisplayObjects_unfold acos bounds refused this spine d :
  drawDebugDisplayObjects acos bounds refused this spine d =
  bind (read_spine spine)
       (fun sp =>
          when (drawBones this)
               (drawBonesFunc acos this spine d (frame_lineWidth this sp) (frame_scale sp)) >>
          draw_after_bones bounds refused this spine d (frame_lineWidth this sp)).
Proof. reflexivity. Qed.

Lemma keeps_spine_clear d :
  stable (lift_heap_rel keeps_spine) (clearDebugDisplayObjects d).
Proof.
  apply (stable_clearDebugDisplayObjects (lift_heap_rel keeps_spine)); try exact _.
  - intros g. apply lift_gfx_clear; [exact _|]. apply keeps_spine_clear_cmds.
  - intros o. apply lift_destroy; try exact _; intros;
      apply keeps_spine_same_payload; reflexivity.
Qed.

(** ** The pose data after a frame on the sample scene *)

Lemma renderDebug_reads_pose_witness :
  let this := with_regions_off default_config in
  pose_unchanged (sample_world sample_slots)
    (fst (renderDebug sample_acos sample_bounds sample_refused this 0 (sample_world sample_slots))).
Proof.
  intros this.
  apply (renderDebug_reads_pose sample_acos sample_bounds sample_refused this 0 (sample_world sample_slots)).
  reflexivity.
Defined.

(** ** Well-formed entries in the states the renderer reaches *)

Lemma entry_objects_lt h s d o :
  entry_wf h s d -> o ∈ entry_objects h d -> o < length h.
Proof.
  intros (_ & (oP & HoP & _) & (ob & Hob & _) & Hsurf & Hbc) Ho.
  unfold entry_objects in Ho.
  rewrite !elem_of_cons, elem_of_app in Ho.
  destruct Ho as [->|[->|[Ho|Ho]]].
  - eapply lookup_lt_Some; eauto.
  - eapply lookup_lt_Some; eauto.
  - eapply Forall_forall in Hsurf; [|exact Ho].
    destruct Hsurf as (o' & cs & Ho' & _). eapply lookup_lt_Some; eauto.
  - eapply Forall_forall in Hbc; [|exact Ho].
    destruct Hbc as (o' & Ho' & _). eapply lookup_lt_Some; eauto.
Qed.

(** An entry whose objects are as before is as well formed as before. *)
Lemma entry_wf_frame h h' s d :
  (forall o, o ∈ entry_objects h d -> h' !! o = h !! o) ->
  entry_wf h s d ->
  entry_wf h' s d /\ entry_objects h' d = entry_objects h d.
Proof.
  intros Hsame Hwf.
  assert (Hch : children_of h' (bones d) = children_of h (bones d)).
  { unfold children_of. rewrite Hsame; [reflexivity|].
    unfold entry_objects. rewrite !elem_of_cons. auto. }
  split; [|unfold entry_objects; rewrite Hch; reflexivity].
  destruct Hwf as (Hnd & (oP & HoP & HP) & (ob & Hob & Hb) & Hsurf & Hbc).
  unfold entry_wf. rewrite Hch.
  split; [exact Hnd|].
  split.
  { exists oP. rewrite Hsame; [auto|]. unfold entry_objects. rewrite !elem_of_cons. auto. }
  split.
  { exists ob. rewrite Hsame; [auto|]. unfold entry_objects. rewrite !elem_of_cons. auto. }
  split.
  - apply Forall_forall. intros g Hg.
    eapply Forall_forall in Hsurf; [|exact Hg].
    rewrite Hsame; [exact Hsurf|].
    unfold entry_objects. rewrite !elem_of_cons, elem_of_app. auto.
  - apply Forall_forall. intros c Hc.
    eapply Forall_forall in Hbc; [|exact Hc].
    rewrite Hsame; [exact Hbc|].
    unfold entry_objects. rewrite !elem_of_cons, elem_of_app. auto.
Qed.

Lemma spine_at_frame h h' o : h' !! o = h !! o -> spine_at h' o = spine_at h o.
Proof. intros H. unfold spine_at. rewrite H. reflexivity. Qed.

(** The entries of the other spines are out of reach of a method called on
    [s], which changes objects of the bundle of [s] and [s] itself only. *)
Lemma scene_wf_other s st h' (P : oid -> Prop) s0 d0 :
  scene_wf st ->
  is_Some (spine_at (heap st) s) ->
  changes_only P (heap st) h' ->
  (forall o, P o -> o = s \/
     exists d, Map_get s (registeredSpines st) = Some d /\
               o ∈ entry_objects (heap st) d) ->
  s0 <> s -> Map_get s0 (registeredSpines st) = Some d0 ->
  entry_wf h' s0 d0 /\ entry_objects h' d0 = entry_objects (heap st) d0 /\
  Forall (fun o => spine_at h' o = None) (entry_objects h' d0).
Proof.
  intros (Hnd & Hent & Hdis) Hs [Hlen Hsame] HP Hne Hget.
  destruct (Hent _ _ Hget) as [Hwf Hty].
  assert (Hkeep : forall o, o ∈ entry_objects (heap st) d0 -> h' !! o = heap st !! o).
  { intros o Ho. apply Hsame; [eapply entry_objects_lt; eauto|].
    intros HPo. destruct (HP o HPo) as [->|(d & Hd & Hod)].
    - eapply Forall_forall in Hty; [|exact Ho]. rewrite Hty in Hs.
      destruct Hs as [? [=]].
    - exact (Hdis _ _ _ _ o Hne Hget Hd Ho Hod). }
  destruct (entry_wf_frame _ h' _ _ Hkeep Hwf) as [Hwf' Hobjs].
  split; [exact Hwf'|]. split; [exact Hobjs|].
  rewrite Hobjs. apply Forall_forall. intros o Ho.
  rewrite (spine_at_frame _ _ _ (Hkeep o Ho)).
  eapply Forall_forall in Hty; eauto.
Qed.

Lemma scene_wf_update s st m' h' atts' con' (P : oid -> Prop) :
  scene_wf st ->
  is_Some (spine_at (heap st) s) ->
  changes_only P (heap st) h' ->
  (forall o, P o -> o = s \/
     exists d, Map_get s (registeredSpines st) = Some d /\
               o ∈ entry_objects (heap st) d) ->
  NoDup (map fst m') ->
  (forall k, k <> s -> Map_get k m' = Map_get k (registeredSpines st)) ->
  (forall d', Map_get s m' = Some d' ->
     entry_wf h' s d' /\
     Forall (fun o => spine_at h' o = None) (entry_objects h' d') /\
     forall o, o ∈ entry_objects h' d' ->
       length (heap st) <= o \/
       exists d, Map_get s (registeredSpines st) = Some d /\
                 o ∈ entry_objects (heap st) d) ->
  scene_wf (mkSt m' h' atts' con').
Proof.
  intros Hwf Hs Hch HP Hnd' Hother Hown.
  pose proof Hwf as (Hnd & Hent & Hdis).
  assert (Hold : forall s0 d0, s0 <> s -> Map_get s0 m' = Some d0 ->
            Map_get s0 (registeredSpines st) = Some d0 /\
            entry_wf h' s0 d0 /\ entry_objects h' d0 = entry_objects (heap st) d0 /\
            Forall (fun o => spine_at h' o = None) (entry_objects h' d0)).
  { intros s0 d0 Hne Hget. rewrite (Hother _ Hne) in Hget.
    split; [exact Hget|]. eapply scene_wf_other; eauto. }
  assert (Hcross : forall d' s2 d2 o, Map_get s m' = Some d' -> s2 <> s ->
            Map_get s2 m' = Some d2 ->
            o ∈ entry_objects h' d' -> o ∉ entry_objects h' d2).
  { intros d' s2 d2 o Hd' Hne Hd2 Ho Ho2.
    destruct (Hold _ _ Hne Hd2) as (Hget2 & _ & Hobjs2 & _).
    rewrite Hobjs2 in Ho2.
    destruct (Hent _ _ Hget2) as [Hwf2 _].
    pose proof (entry_objects_lt _ _ _ _ Hwf2 Ho2) as Hlt.
    destruct (Hown _ Hd') as (_ & _ & Hwhere).
    destruct (Hwhere o Ho) as [Hge|(d & Hd & Hod)]; [lia|].
    exact (Hdis _ _ _ _ o Hne Hget2 Hd Ho2 Hod). }
  split; [exact Hnd'|]. split.
  - intros s0 d0 Hget. cbn [registeredSpines heap] in *.
    destruct (decide (s0 = s)) as [->|Hne].
    + destruct (Hown _ Hget) as (H1 & H2 & _). auto.
    + destruct (Hold _ _ Hne Hget) as (_ & H1 & _ & H2). auto.
  - intros s1 d1 s2 d2 o Hne H1 H2 Ho1 Ho2. cbn [registeredSpines heap] in *.
    destruct (decide (s1 = s)) as [->|Hne1].
    + exact (Hcross _ _ _ o H1 (not_eq_sym Hne) H2 Ho1 Ho2).
    + destruct (decide (s2 = s)) as [->|Hne2].
      * exact (Hcross _ _ _ o H2 Hne1 H1 Ho2 Ho1).
      * destruct (Hold _ _ Hne1 H1) as (G1 & _ & E1 & _).
        destruct (Hold _ _ Hne2 H2) as (G2 & _ & E2 & _).
        rewrite E1 in Ho1. rewrite E2 in Ho2.
        exact (Hdis _ _ _ _ o Hne G1 G2 Ho1 Ho2).
Qed.

(** *** registerSpine *)

Lemma lookup_registered_new spine st i :
  heap (registered spine st) !! (length (heap st) + i) =
  fresh_objects spine (length (heap st)) !! i.
Proof.
  unfold registered. cbn [heap].
  rewrite <- (length_alter (push_child (length (heap st))) (heap st) spine) at 1.
  apply lookup_app_plus.
Qed.

(** The bundle that [registerSpine] builds is well formed. *)
Lemma registered_entry_wf spine st :
  spine < length (heap st) ->
  let d := fresh_entry (length (heap st)) in
  let h' := heap (registered spine st) in
  entry_wf h' spine d /\
  children_of h' (bones d) = [] /\
  Forall (fun o => spine_at h' o = None) (entry_objects h' d).
Proof.
  intros Hlt d h'. set (n := length (heap st)) in *.
  assert (Hnew : forall i, h' !! (n + i) = fresh_objects spine n !! i)
    by (intros i; apply lookup_registered_new).
  assert (Hch : children_of h' (bones d) = []).
  { unfold children_of. change (bones d) with (n + 1). rewrite Hnew. reflexivity. }
  split; [|split; [exact Hch|]].
  - unfold entry_wf. rewrite Hch, app_nil_r.
    split.
    { unfold d, surfaces, fresh_entry; cbn.
      repeat (apply NoDup_cons; split;
              [rewrite ?elem_of_cons, elem_of_nil; lia|]).
      apply NoDup_nil_2. }
    split.
    { eexists. change (parentDebugContainer d) with n.
      rewrite <- (Nat.add_0_r n) at 1. rewrite Hnew.
      split; [reflexivity|]. split; reflexivity. }
    split.
    { eexists. change (bones d) with (n + 1). rewrite Hnew.
      split; reflexivity. }
    split; [|constructor].
    unfold d, surfaces, fresh_entry; cbn.
    repeat (apply Forall_cons; split;
            [eexists _, _; rewrite Hnew; repeat split; reflexivity|]).
    constructor.
  - unfold entry_objects. rewrite Hch, app_nil_r.
    unfold d, surfaces, fresh_entry; cbn.
    apply Forall_cons; split.
    { unfold spine_at. rewrite <- (Nat.add_0_r n) at 1. rewrite Hnew. reflexivity. }
    repeat (apply Forall_cons; split;
            [unfold spine_at; rewrite Hnew; reflexivity|]).
    constructor.
Qed.

Lemma scene_wf_registered spine st :
  scene_wf st -> is_Some (spine_at (heap st) spine) ->
  scene_wf (registered spine st).
Proof.
  intros Hwf Hs.
  assert (Hlt : spine < length (heap st)).
  { destruct Hs as [sp Hsp]. unfold spine_at in Hsp.
    destruct (heap st !! spine) eqn:E; [|discriminate].
    eapply lookup_lt_Some; eauto. }
  destruct (registered_entry_wf spine st Hlt) as (Hown & Hch & Hty).
  unfold registered in *. cbn [heap] in *.
  apply (scene_wf_update spine st _ _ _ _ (fun o => o = spine)); auto.
  - split.
    + rewrite length_app, length_alter. lia.
    + intros o Ho Hne. rewrite lookup_app_l by (rewrite length_alter; exact Ho).
      apply list_lookup_alter_ne. auto.
  - apply Map_set_NoDup. apply Hwf.
  - intros k Hk. apply Map_get_set_ne. auto.
  - intros d'. rewrite Map_get_set. intros [= <-].
    split; [exact Hown|]. split; [exact Hty|].
    intros o. unfold entry_objects. rewrite Hch, app_nil_r.
    unfold surfaces, fresh_entry; cbn.
    rewrite !elem_of_cons, elem_of_nil. intros Ho. left. lia.
Qed.

(** *** unregisterSpine *)

Lemma scene_wf_same st st' :
  registeredSpines st' = registeredSpines st -> heap st' = heap st ->
  scene_wf st -> scene_wf st'.
Proof. unfold scene_wf, keys. intros -> ->. auto. Qed.

Lemma elem_of_remove_first c x cs : x ∈ remove_first c cs -> x ∈ cs.
Proof.
  induction cs as [|c' cs IH]; simpl; [auto|].
  destruct (Nat.eqb c' c).
  - intros H. apply elem_of_cons. auto.
  - rewrite !elem_of_cons. intros [->|H]; auto.
Qed.

(** What [destroy] reaches: with [D] a set of objects closed under
    children, whose parents are in [P], the destruction of an object of [D]
    changes objects of [P] only. *)
Section DestroyFrame.

Variables D P : oid -> Prop.
Hypothesis D_P : forall o, D o -> P o.

Local Abbreviation links_within := (links_within D P).

Lemma links_within_alter (f : DisplayObject -> DisplayObject) i h :
  (forall obj q, parent (f obj) = Some q -> parent obj = Some q) ->
  (forall obj c, c ∈ children (f obj) -> c ∈ children obj) ->
  links_within h -> links_within (alter f i h).
Proof.
  intros Hp Hc Hl o obj Ho. rewrite list_lookup_alter.
  destruct (decide (i = o)) as [->|Hne]; [|apply Hl; exact Ho].
  destruct (h !! o) as [obj0|] eqn:E; [|discriminate].
  intros [= <-]. destruct (Hl o obj0 Ho E) as [H1 H2].
  split; [intros q Hq; apply H1, Hp, Hq|intros c Hin; apply H2, Hc, Hin].
Qed.

Lemma links_within_foldl_alter (f : DisplayObject -> DisplayObject) l h :
  (forall obj q, parent (f obj) = Some q -> parent obj = Some q) ->
  (forall obj c, c ∈ children (f obj) -> c ∈ children obj) ->
  links_within h -> links_within (foldl (fun h' c => alter f c h') h l).
Proof.
  intros Hp Hc. revert h. induction l as [|a l IH]; intros h Hl; simpl; [exact Hl|].
  apply IH. apply links_within_alter; auto.
Qed.

Lemma heap_destroy_frame fuel : forall o h,
  links_within h -> D o ->
  links_within (heap_destroy fuel o h) /\
  forall x, ~ P x -> heap_destroy fuel o h !! x = h !! x.
Proof.
  induction fuel as [|fuel IH]; intros o h Hl Ho; [split; [exact Hl|reflexivity]|].
  rewrite heap_destroy_S. destruct (h !! o) as [obj|] eqn:Hobj; [|split; [exact Hl|reflexivity]].
  destruct (Hl o obj Ho Hobj) as [Hpar Hch].
  set (h1 := match parent obj with
             | Some q => alter (remove_child o) q h
             | None => h
             end).
  assert (Hl1 : links_within h1).
  { subst h1. destruct (parent obj) as [q|]; [|exact Hl].
    apply links_within_alter; [auto| |exact Hl].
    intros obj0 c. apply elem_of_remove_first. }
  assert (Hf1 : forall x, ~ P x -> h1 !! x = h !! x).
  { intros x Hx. subst h1. destruct (parent obj) as [q|]; [|reflexivity].
    apply list_lookup_alter_ne. intros ->. apply Hx, Hpar. reflexivity. }
  set (h2 := alter mark_destroyed o h1).
  assert (Hl2 : links_within h2).
  { subst h2. apply links_within_alter; [discriminate| |exact Hl1].
    intros obj0 c Hc. apply elem_of_nil in Hc. contradiction. }
  assert (Hf2 : forall x, ~ P x -> h2 !! x = h !! x).
  { intros x Hx. subst h2. rewrite list_lookup_alter_ne; [auto|].
    intros ->. apply Hx, D_P, Ho. }
  set (h3 := foldl (fun h' c => alter (set_parent None) c h') h2 (children obj)).
  assert (Hl3 : links_within h3).
  { subst h3. apply links_within_foldl_alter; [discriminate|auto|exact Hl2]. }
  assert (Hf3 : forall x, ~ P x -> h3 !! x = h !! x).
  { intros x Hx. subst h3. rewrite lookup_foldl_alter_notin; [auto|].
    intros Hin. apply Hx, D_P, Hch, Hin. }
  clearbody h3. clear h1 h2 Hl1 Hf1 Hl2 Hf2 Hobj Hpar.
  revert h3 Hl3 Hf3. induction (children obj) as [|c cs IHcs]; intros h3 Hl3 Hf3; simpl.
  - split; assumption.
  - destruct (IH c h3 Hl3) as [Hl4 Hf4]; [apply Hch, list_elem_of_here|].
    apply IHcs.
    + intros c' Hc'. apply Hch, list_elem_of_further, Hc'.
    + exact Hl4.
    + intros x Hx. rewrite Hf4 by exact Hx. auto.
Qed.

End DestroyFrame.

Lemma entry_links_within h s d :
  entry_wf h s d ->
  links_within (fun o => o ∈ entry_objects h d)
               (fun o => o = s \/ o ∈ entry_objects h d) h.
Proof.
  intros (Hnd & (oP & HoP & HpP & HcP) & (ob & Hob & Hpb) & Hsurf & Hbc) o obj Ho Hobj.
  unfold entry_objects in Ho. rewrite !elem_of_cons, elem_of_app in Ho.
  destruct Ho as [->|[->|[Ho|Ho]]].
  - rewrite HoP in Hobj. injection Hobj as <-. split.
    + intros q. rewrite HpP. intros [= <-]. auto.
    + intros c. rewrite HcP. unfold entry_objects.
      rewrite !elem_of_cons, elem_of_app. tauto.
  - rewrite Hob in Hobj. injection Hobj as <-. split.
    + intros q. rewrite Hpb. intros [= <-]. right. apply list_elem_of_here.
    + intros c Hc. unfold entry_objects. rewrite !elem_of_cons, elem_of_app.
      right. right. right. unfold children_of. rewrite Hob. exact Hc.
  - eapply Forall_forall in Hsurf; [|exact Ho].
    destruct Hsurf as (o' & cs & Ho' & Hp & Hc & _).
    rewrite Ho' in Hobj. injection Hobj as <-. split.
    + intros q. rewrite Hp. intros [= <-]. right. apply list_elem_of_here.
    + intros c. rewrite Hc. intros H. apply elem_of_nil in H. contradiction.
  - eapply Forall_forall in Hbc; [|exact Ho].
    destruct Hbc as (o' & Ho' & Hp & Hc).
    rewrite Ho' in Hobj. injection Hobj as <-. split.
    + intros q. rewrite Hp. intros [= <-]. right.
      apply list_elem_of_further, list_elem_of_here.
    + intros c. rewrite Hc. intros H. apply elem_of_nil in H. contradiction.
Qed.

Lemma scene_wf_unregisterSpine spine st :
  scene_wf st -> is_Some (spine_at (heap st) spine) ->
  scene_wf (fst (unregisterSpine spine st)).
Proof.
  intros Hwf Hs.
  destruct (Map_get spine (registeredSpines st)) as [d|] eqn:Hget.
  - rewrite (unregisterSpine_of_registered _ _ _ Hget). cbn [fst].
    pose proof Hwf as (Hnd & Hent & _).
    destruct (Hent _ _ Hget) as [Hd _].
    apply (scene_wf_update spine st _ _ _ _
             (fun o => o = spine \/ o ∈ entry_objects (heap st) d)); auto.
    + split; [rewrite length_heap_destroy; lia|].
      intros o _ Ho.
      apply (heap_destroy_frame (fun o => o ∈ entry_objects (heap st) d)
               (fun o => o = spine \/ o ∈ entry_objects (heap st) d)); auto.
      * apply entry_links_within. exact Hd.
      * apply list_elem_of_here.
    + intros o [->|Ho]; [auto|]. right. exists d. auto.
    + apply Map_delete_NoDup. exact Hnd.
    + intros k Hk. apply Map_get_delete_ne. auto.
    + intros d'. rewrite Map_get_delete by exact Hnd. discriminate.
  - unfold unregisterSpine, bind, get_state, when, console_warn.
    unfold Map_has. rewrite Hget. cbn. rewrite Hget.
    eapply scene_wf_same; [| |exact Hwf]; reflexivity.
Qed.

(** *** renderDebug *)

#[global] Instance same_kind_preorder : PreOrder same_kind.
Proof.
  split.
  - intros [| |s]; simpl; auto.
  - intros [| |s1] [| |s2] [| |s3]; simpl; try tauto; congruence.
Qed.

#[global] Instance same_links_preorder : PreOrder same_links.
Proof.
  split.
  - intros o. split; [|split]; reflexivity.
  - intros o1 o2 o3 (H1 & H2 & H3) (G1 & G2 & G3).
    split; [congruence|]. split; [congruence|]. etransitivity; eassumption.
Qed.

Lemma same_links_add_cmd c o : same_links o (add_cmd c o).
Proof.
  unfold add_cmd. destruct (payload o) eqn:E; try reflexivity.
  split; [|split]; try reflexivity. simpl. rewrite E. exact I.
Qed.

Lemma same_links_clear_cmds o : same_links o (clear_cmds o).
Proof.
  unfold clear_cmds. destruct (payload o) eqn:E; try reflexivity.
  split; [|split]; try reflexivity. simpl. rewrite E. exact I.
Qed.

Lemma same_kind_spine_at (h h' : Heap) o obj obj' :
  h !! o = Some obj -> h' !! o = Some obj' ->
  same_kind (payload obj) (payload obj') ->
  spine_at h' o = spine_at h o.
Proof.
  intros H H' Hk. unfold spine_at. rewrite H, H'.
  destruct (payload obj), (payload obj'); simpl in Hk; try tauto. congruence.
Qed.

(** A scene whose objects keep their links and their kind keeps its
    entries well formed. *)
Lemma entry_wf_same_links h h' s d :
  heap_rel same_links h h' -> entry_wf h s d ->
  entry_wf h' s d /\ entry_objects h' d = entry_objects h d /\
  (Forall (fun o => spine_at h o = None) (entry_objects h d) ->
   Forall (fun o => spine_at h' o = None) (entry_objects h' d)).
Proof.
  intros Hrel Hwf.
  pose proof Hwf as (Hnd & (oP & HoP & HpP & HcP) & (ob & Hob & Hpb) & Hsurf & Hbc).
  assert (Hch : children_of h' (bones d) = children_of h (bones d)).
  { unfold children_of. rewrite Hob.
    destruct (Hrel _ _ Hob) as (ob' & -> & _ & Hc & _). exact Hc. }
  assert (Hobjs : entry_objects h' d = entry_objects h d)
    by (unfold entry_objects; rewrite Hch; reflexivity).
  split; [|split; [exact Hobjs|]].
  - unfold entry_wf. rewrite Hch. split; [exact Hnd|].
    split.
    { destruct (Hrel _ _ HoP) as (o' & Ho' & Hp & Hc & _).
      exists o'. split; [exact Ho'|]. split; congruence. }
    split.
    { destruct (Hrel _ _ Hob) as (o' & Ho' & Hp & _).
      exists o'. split; [exact Ho'|]. congruence. }
    split.
    + eapply Forall_impl; [exact Hsurf|]. intros g (o & cs & Ho & Hp & Hc & Hpay).
      destruct (Hrel _ _ Ho) as (o' & Ho' & Hp' & Hc' & Hk).
      rewrite Hpay in Hk. destruct (payload o') as [|cs'|] eqn:E; simpl in Hk; try tauto.
      exists o', cs'. split; [exact Ho'|]. split; [congruence|]. split; [congruence|auto].
    + eapply Forall_impl; [exact Hbc|]. intros c (o & Ho & Hp & Hc).
      destruct (Hrel _ _ Ho) as (o' & Ho' & Hp' & Hc' & _).
      exists o'. split; [exact Ho'|]. split; congruence.
  - rewrite Hobjs. intros Hty. apply Forall_forall. intros o Ho.
    pose proof (entry_objects_lt _ _ _ _ Hwf Ho) as Hlt.
    destruct (lookup_lt_is_Some_2 _ _ Hlt) as [obj Hobj].
    destruct (Hrel _ _ Hobj) as (obj' & Hobj' & _ & _ & Hk).
    rewrite (same_kind_spine_at _ _ _ _ _ Hobj Hobj' Hk).
    eapply Forall_forall in Hty; eauto.
Qed.

Lemma entry_wf_distinct h s d :
  entry_wf h s d ->
  parentDebugContainer d <> bones d /\
  (parentDebugContainer d ∉ surfaces d) /\
  (parentDebugContainer d ∉ children_of h (bones d)) /\
  (s ∉ entry_objects h d).
Proof.
  intros (Hnd & _).
  apply NoDup_cons in Hnd as [Hs Hnd].
  apply NoDup_cons in Hnd as [HP Hnd].
  rewrite not_elem_of_cons, not_elem_of_app in HP.
  destruct HP as (H1 & H2 & H3). auto.
Qed.

(** The clearing part keeps a well-formed entry well formed; it changes
    objects of the entry only, and leaves the bones container empty. *)
Lemma clearDebugDisplayObjects_wf d s st :
  entry_wf (heap st) s d ->
  Forall (fun o => spine_at (heap st) o = None) (entry_objects (heap st) d) ->
  exists hc,
    clearDebugDisplayObjects d st = (with_heap hc st, Normal tt) /\
    length hc = length (heap st) /\
    (forall x, x ∉ entry_objects (heap st) d -> hc !! x = heap st !! x) /\
    entry_wf hc s d /\ children_of hc (bones d) = [] /\
    Forall (fun o => spine_at hc o = None) (entry_objects hc d).
Proof.
  intros Hwf Hty.
  set (h0 := cleared d (heap st)).
  assert (Hrel : heap_rel same_links (heap st) h0).
  { apply heap_rel_foldl_alter; [exact _|]. apply same_links_clear_cmds. }
  destruct (entry_wf_same_links _ _ _ _ Hrel Hwf) as (Hwf0 & Hobjs0 & Hty0).
  specialize (Hty0 Hty).
  assert (Hch0 : children_of h0 (bones d) = children_of (heap st) (bones d)).
  { unfold h0, cleared. apply children_of_foldl_alter, clear_cmds_children. }
  assert (Hframe0 : forall x, x ∉ surfaces d -> h0 !! x = heap st !! x).
  { intros x Hx. apply lookup_foldl_alter_notin. exact Hx. }
  destruct (entry_wf_surfaces _ _ _ Hwf0) as (Hnds & Hbs & Hgr & Hndc & Hbc & Hcs & Hblt).
  destruct (entry_wf_distinct _ _ _ Hwf0) as (HPb & HPs & HPc & Hs0).
  pose proof Hwf0 as (Hnd0 & (oP & HoP & HpP & HcP) & (ob & Hob & Hpb) & Hsurf0 & Hleaf0).
  rewrite clearDebugDisplayObjects_cleared. fold h0.
  destruct (destroyBoneChildren_spec (bones d) (children_of h0 (bones d))
              (with_heap h0 st))
    as (hc & Hrun & Hlen & Hch & _ & Hframe & Hb').
  { rewrite heap_with_heap. reflexivity. }
  { exact Hndc. }
  { exact Hbc. }
  { intros c Hc. rewrite heap_with_heap.
    eapply Forall_forall in Hleaf0; [|exact Hc]. exact Hleaf0. }
  rewrite heap_with_heap in Hlen, Hframe, Hb'.
  destruct (Hb' _ Hob) as (ob' & Hob' & Hpb' & Hpayb').
  exists hc. rewrite Hrun, with_heap_with_heap.
  split; [reflexivity|].
  split; [rewrite Hlen; apply length_foldl_alter|].
  assert (HhcP : hc !! parentDebugContainer d = h0 !! parentDebugContainer d)
    by (apply Hframe; auto).
  assert (Hhcs : forall g, g ∈ surfaces d -> hc !! g = h0 !! g).
  { intros g Hg. apply Hframe; [intros ->; contradiction|].
    intros Hin. exact (Hcs g Hin Hg). }
  split.
  { intros x Hx. unfold entry_objects in Hx.
    rewrite !not_elem_of_cons, not_elem_of_app in Hx.
    destruct Hx as (_ & Hxb & Hxs & Hxc).
    rewrite Hframe; [apply Hframe0; exact Hxs|exact Hxb|].
    rewrite Hch0. exact Hxc. }
  split.
  { unfold entry_wf. rewrite Hch, app_nil_r. split.
    { rewrite !app_comm_cons in Hnd0. apply NoDup_app in Hnd0 as [H _]. exact H. }
    split; [exists oP; rewrite HhcP; auto|].
    split; [exists ob'; split; [exact Hob'|congruence]|].
    split; [|constructor].
    apply Forall_forall. intros g Hg. rewrite (Hhcs g Hg).
    eapply Forall_forall in Hsurf0; [|exact Hg]. exact Hsurf0. }
  split; [exact Hch|].
  unfold entry_objects in *. rewrite Hch, app_nil_r.
  apply Forall_cons in Hty0 as [HtP Hty0].
  apply Forall_cons in Hty0 as [Htb Hty0].
  apply Forall_app in Hty0 as [Hts _].
  apply Forall_cons; split.
  { rewrite (spine_at_frame _ _ _ HhcP). exact HtP. }
  apply Forall_cons; split.
  { rewrite <- Htb. unfold spine_at. rewrite Hob, Hob', Hpayb'. reflexivity. }
  apply Forall_forall. intros g Hg.
  rewrite (spine_at_frame _ _ _ (Hhcs g Hg)).
  eapply Forall_forall in Hts; eauto.
Qed.

Lemma same_links_foldl_add_cmd (cs : list GCmd) x (h : Heap) :
  heap_rel same_links h (foldl (fun h' c => alter (add_cmd c) x h') h cs).
Proof.
  revert h. induction cs as [|c cs IH]; intros h; simpl; [reflexivity|].
  etransitivity; [|apply IH].
  apply heap_rel_alter; [exact _|]. apply same_links_add_cmd.
Qed.

(** The drawing of the bones, on a well-formed entry whose bones container
    is empty: the entry stays well formed, with the new graphics under the
    bones container. *)
Lemma drawBonesFunc_wf acos this s d lw scale st sp :
  spine_at (heap st) s = Some sp ->
  entry_wf (heap st) s d ->
  children_of (heap st) (bones d) = [] ->
  Forall (fun o => spine_at (heap st) o = None) (entry_objects (heap st) d) ->
  exists hb,
    drawBonesFunc acos this s d lw scale st = (with_heap hb st, Normal tt) /\
    length (heap st) <= length hb /\
    (forall x, x < length (heap st) -> x ∉ entry_objects (heap st) d ->
               hb !! x = heap st !! x) /\
    entry_wf hb s d /\
    Forall (fun o => spine_at hb o = None) (entry_objects hb d) /\
    (forall o, o ∈ entry_objects hb d ->
               length (heap st) <= o \/ o ∈ entry_objects (heap st) d).
Proof.
  intros Hsp Hwf Hempty Hty.
  destruct (entry_wf_surfaces _ _ _ Hwf) as (_ & Hbs & _ & _ & _ & _ & Hblt).
  destruct (drawBonesFunc_run acos this s d lw scale st sp Hsp Hblt) as (os & Hrun & Hos).
  set (n := length (heap st)) in *.
  set (k := length (filter _ _)) in *.
  set (X := skeletonXY d) in *.
  assert (HX : X ∈ surfaces d) by apply list_elem_of_here.
  set (H1 := alter (add_cmd (LineStyle (Some lw) (Some (skeletonXYColor this)) (Some 1%float)))
                   X (heap st)) in *.
  set (H3 := alter (add_children (seq n k)) (bones d) H1 ++ os) in *.
  set (hb := foldl (fun h c => alter (add_cmd c) X h) H3 _) in *.
  exists hb. split; [exact Hrun|].
  assert (Hlen1 : length H1 = n) by apply length_alter.
  assert (Hlenos : length os = k) by (eapply Forall2_length; exact Hos).
  assert (Hlen3 : length H3 = n + k).
  { unfold H3. rewrite length_app, length_alter. lia. }
  assert (Hlenb : length hb = n + k).
  { unfold hb. rewrite length_foldl_add_cmd. exact Hlen3. }
  (* the entry before the new graphics are hung *)
  assert (Hrel1 : heap_rel same_links (heap st) H1).
  { apply heap_rel_alter; [exact _|]. apply same_links_add_cmd. }
  destruct (entry_wf_same_links _ _ _ _ Hrel1 Hwf) as (Hwf1 & Hobjs1 & Hty1).
  specialize (Hty1 Hty).
  assert (Hempty1 : children_of H1 (bones d) = []).
  { unfold H1. rewrite children_of_alter_ne; [exact Hempty|].
    intros E. apply Hbs. rewrite <- E. exact HX. }
  (* the entry with the new graphics *)
  assert (Hold3 : forall x, x < n -> x <> bones d -> H3 !! x = H1 !! x).
  { intros x Hx Hne. unfold H3.
    rewrite lookup_app_l by (rewrite length_alter; lia).
    apply list_lookup_alter_ne. auto. }
  assert (Hnew3 : forall i, i < k -> exists o,
            H3 !! (n + i) = Some o /\ parent o = Some (bones d) /\ children o = [] /\
            exists cs, payload o = PGraphics cs).
  { intros i Hi. destruct (lookup_lt_is_Some_2 os i) as [o Ho]; [lia|].
    destruct (Forall2_lookup_l _ _ _ _ _ Hos Ho) as (bone & _ & Hg).
    destruct Hg as (Hp & Hc & _ & _ & _ & cs & Hcs & _).
    exists o. split; [|eauto].
    unfold H3. rewrite <- Hlen1 at 1.
    rewrite <- (length_alter (add_children (seq n k)) H1 (bones d)) at 1.
    rewrite lookup_app_plus. exact Ho. }
  pose proof Hwf1 as (Hnd1 & (oP & HoP & HpP & HcP) & (ob & Hob & Hpb) & Hsurf1 & _).
  destruct (entry_wf_distinct _ _ _ Hwf1) as (HPb & HPs & _ & Hs1).
  assert (Hch3 : children_of H3 (bones d) = seq n k).
  { unfold children_of, H3. rewrite lookup_app_l by (rewrite length_alter; lia).
    rewrite list_lookup_alter_eq, Hob. cbn.
    unfold children_of in Hempty1. rewrite Hob in Hempty1. rewrite Hempty1. reflexivity. }
  assert (Hlt1 : forall o, o ∈ parentDebugContainer d :: bones d :: surfaces d -> o < n).
  { intros o Ho. rewrite <- Hlen1. eapply (entry_objects_lt _ _ _ _ Hwf1).
    unfold entry_objects. rewrite Hempty1, app_nil_r. exact Ho. }
  assert (Hwf3 : entry_wf H3 s d).
  { unfold entry_wf. rewrite Hch3. split.
    { rewrite Hempty1, app_nil_r in Hnd1.
      change (NoDup ((s :: parentDebugContainer d :: bones d :: surfaces d) ++ seq n k)).
      apply NoDup_app. split; [exact Hnd1|]. split; [|apply NoDup_seq].
      intros x Hx Hseq. apply elem_of_seq in Hseq.
      apply elem_of_cons in Hx as [->|Hx].
      - apply lookup_lt_Some in Hob. unfold spine_at in Hsp.
        destruct (heap st !! s) eqn:E; [|discriminate].
        apply lookup_lt_Some in E. lia.
      - apply Hlt1 in Hx. lia. }
    split.
    { exists oP. rewrite Hold3; auto.
      apply Hlt1, list_elem_of_here. }
    split.
    { eexists. split.
      - unfold H3. rewrite lookup_app_l by (rewrite length_alter; lia).
        rewrite list_lookup_alter_eq, Hob. reflexivity.
      - exact Hpb. }
    split.
    - apply Forall_forall. intros g Hg.
      eapply Forall_forall in Hsurf1; [|exact Hg].
      rewrite Hold3; [exact Hsurf1| |intros ->; contradiction].
      apply Hlt1. apply list_elem_of_further, list_elem_of_further. exact Hg.
    - apply Forall_forall. intros c Hc. apply elem_of_seq in Hc.
      destruct (Hnew3 (c - n)) as (o & Ho & Hp & Hcn & _); [lia|].
      replace (n + (c - n)) with c in Ho by lia. eauto. }
  assert (Hty3 : Forall (fun o => spine_at H3 o = None) (entry_objects H3 d)).
  { unfold entry_objects in *. rewrite Hch3. rewrite Hempty1, app_nil_r in Hty1.
    rewrite !app_comm_cons. apply Forall_app. split.
    - apply Forall_forall. intros o Ho.
      destruct (decide (o = bones d)) as [->|Hne].
      + apply Forall_cons in Hty1 as [_ Hty1]. apply Forall_cons in Hty1 as [Htb _].
        rewrite <- Htb. unfold spine_at, H3.
        rewrite lookup_app_l by (rewrite length_alter; lia).
        rewrite list_lookup_alter_eq, Hob. reflexivity.
      + rewrite (spine_at_frame H1); [eapply Forall_forall in Hty1; eauto|].
        apply Hold3; [apply Hlt1; exact Ho|exact Hne].
    - apply Forall_forall. intros c Hc. apply elem_of_seq in Hc.
      destruct (Hnew3 (c - n)) as (o & Ho & _ & _ & cs & Hcs); [lia|].
      replace (n + (c - n)) with c in Ho by lia.
      unfold spine_at. rewrite Ho, Hcs. reflexivity. }
  (* the marker *)
  assert (Hrelb : heap_rel same_links H3 hb) by apply same_links_foldl_add_cmd.
  split; [lia|].
  split.
  { intros x Hx Hnot. unfold entry_objects in Hnot.
    rewrite !not_elem_of_cons, not_elem_of_app in Hnot.
    destruct Hnot as (_ & Hxb & Hxs & _).
    assert (HxX : x <> X) by (intros ->; contradiction).
    unfold hb. rewrite lookup_foldl_add_cmd_ne by auto.
    rewrite Hold3 by auto. unfold H1. apply list_lookup_alter_ne. auto. }
  destruct (entry_wf_same_links _ _ _ _ Hrelb Hwf3) as (Hwfb & Hobjsb & Htyb).
  split; [exact Hwfb|]. split; [exact (Htyb Hty3)|].
  intros o. rewrite Hobjsb. unfold entry_objects. rewrite Hch3, Hempty, app_nil_r.
  rewrite !app_comm_cons, elem_of_app, elem_of_seq. intros [Ho|Ho]; [auto|left; lia].
Qed.

(** The calls after the bones keep every object in its place. *)
Section LinksAfterBones.

Variable SkeletonBounds_update : Skeleton -> list Attachment -> SkeletonBounds.
Variable Float32Array_refused : nat -> option string.
Variable this : Config.

Lemma links_gfx g c : stable (lift_heap_rel same_links) (gfx g c).
Proof. apply lift_gfx; [exact _|]. apply same_links_add_cmd. Qed.

Lemma links_updateOffset a att :
  stable (lift_heap_rel same_links) (call_updateOffset a att).
Proof. apply lift_updateOffset. exact _. Qed.

Lemma links_drawRegionSlot d slot :
  stable (lift_heap_rel same_links) (drawRegionSlot d slot).
Proof.
  apply (@stable_drawRegionSlot (lift_heap_rel same_links) _ (fun _ => True));
    auto using links_gfx, links_updateOffset.
Qed.

Lemma links_draw_after_bones spine d lw :
  stable (lift_heap_rel same_links)
         (draw_after_bones SkeletonBounds_update Float32Array_refused this spine d lw).
Proof.
  unfold draw_after_bones.
  repeat lazymatch goal with
  | |- stable _ (drawPathsFunc _ _ _ _ _) =>
      apply (@stable_drawPathsFunc _ (lift_heap_rel same_links) _ (fun _ => True));
      auto using links_gfx
  | |- stable _ (drawBoundingBoxesFunc _ _ _ _ _) =>
      apply (stable_drawBoundingBoxesFunc SkeletonBounds_update
               (lift_heap_rel same_links) (fun _ => True));
      auto using links_gfx; exact _
  | |- stable _ (drawClippingFunc _ _ _ _ _) =>
      apply (@stable_drawClippingFunc _ (lift_heap_rel same_links) _ (fun _ => True));
      auto using links_gfx
  | |- stable _ (drawMeshHullAndMeshTriangles _ _ _ _ _) =>
      apply (@stable_drawMeshHullAndMeshTriangles _ (lift_heap_rel same_links) _
               (fun _ => True));
      auto using links_gfx
  | |- stable _ (drawRegionAttachmentsFunc _ _ _ _) =>
      apply (@stable_drawRegionAttachmentsFunc (lift_heap_rel same_links) _
               (fun _ => True));
      auto using links_gfx, links_drawRegionSlot
  | |- _ => stable_step
  end.
Qed.

End LinksAfterBones.

Lemma heap_rel_length Q (h h' : Heap) : heap_rel Q h h' -> length h <= length h'.
Proof.
  intros Hrel. destruct (decide (length h <= length h')) as [|Hgt]; [assumption|].
  destruct (lookup_lt_is_Some_2 h (length h')) as [obj Hobj]; [lia|].
  destruct (Hrel _ _ Hobj) as (obj' & Hobj' & _).
  apply lookup_lt_Some in Hobj'. lia.
Qed.

Lemma entry_kept_refl s d h :
  entry_wf h s d -> Forall (fun o => spine_at h o = None) (entry_objects h d) ->
  entry_kept s d h h.
Proof.
  intros Hwf Hty. split; [split; [lia|reflexivity]|]. split; [exact Hwf|].
  split; [exact Hty|auto].
Qed.

Lemma entry_kept_trans s d h1 h2 h3 :
  entry_kept s d h1 h2 -> entry_kept s d h2 h3 -> entry_kept s d h1 h3.
Proof.
  intros ([Hl12 Hf12] & Hwf2 & Hty2 & Hw2) ([Hl23 Hf23] & Hwf3 & Hty3 & Hw3).
  split; [split; [lia|]|split; [exact Hwf3|split; [exact Hty3|]]].
  - intros x Hx Hnot. rewrite Hf23; [apply Hf12; assumption|lia|].
    intros Hin. destruct (Hw2 x Hin); [lia|contradiction].
  - intros o Ho. destruct (Hw3 o Ho) as [H|H]; [left; lia|].
    destruct (Hw2 o H); auto.
Qed.

Lemma entry_kept_same_links s d h h' :
  entry_wf h s d -> Forall (fun o => spine_at h o = None) (entry_objects h d) ->
  heap_rel same_links h h' ->
  (forall x, x ∉ surfaces d -> h' !! x = h !! x) ->
  entry_kept s d h h'.
Proof.
  intros Hwf Hty Hrel Hframe.
  destruct (entry_wf_same_links _ _ _ _ Hrel Hwf) as (Hwf' & Hobjs & Hty').
  split; [split|].
  - eapply heap_rel_length; eauto.
  - intros x _ Hx. apply Hframe. intros Hin. apply Hx.
    unfold entry_objects. rewrite !elem_of_cons, elem_of_app. auto.
  - split; [exact Hwf'|]. split; [exact (Hty' Hty)|].
    intros o. rewrite Hobjs. auto.
Qed.

Lemma draw_after_bones_frame bounds refused this s d lw st x :
  x ∉ surfaces d ->
  heap (fst (draw_after_bones bounds refused this s d lw st)) !! x = heap st !! x.
Proof.
  intros Hx. unfold surfaces in Hx. rewrite !not_elem_of_cons in Hx.
  apply (untouched_draw_after_bones bounds refused this x s d lw); intros _; intuition.
Qed.

Lemma draw_after_bones_entry_kept bounds refused this s d lw st :
  entry_wf (heap st) s d ->
  Forall (fun o => spine_at (heap st) o = None) (entry_objects (heap st) d) ->
  entry_kept s d (heap st) (heap (fst (draw_after_bones bounds refused this s d lw st))).
Proof.
  intros Hwf Hty. apply entry_kept_same_links; auto.
  - apply (links_draw_after_bones bounds refused this s d lw st).
  - intros x Hx. apply draw_after_bones_frame. exact Hx.
Qed.

(** A frame on a registered spine, however it completes, leaves the entry
    of the spine in the map and well formed. *)
Lemma renderDebug_entry_kept acos bounds refused this s st d sp :
  Map_get s (registeredSpines st) = Some d ->
  spine_at (heap st) s = Some sp ->
  entry_wf (heap st) s d ->
  Forall (fun o => spine_at (heap st) o = None) (entry_objects (heap st) d) ->
  let st' := fst (renderDebug acos bounds refused this s st) in
  registeredSpines st' = registeredSpines st /\
  entry_kept s d (heap st) (heap st').
Proof.
  intros Hget Hsp Hwf Hty st'. subst st'.
  rewrite (renderDebug_of_registered _ _ _ _ _ _ _ Hget).
  split; [apply (same_map_clear_draw acos bounds refused this s d st)|].
  destruct (clearDebugDisplayObjects_wf d s st Hwf Hty)
    as (hc & Hclear & Hlenc & Hframec & Hwfc & Hemptyc & Htyc).
  assert (Hkc : entry_kept s d (heap st) hc).
  { split; [split; [lia|intros x _ Hx; apply Hframec; exact Hx]|].
    split; [exact Hwfc|]. split; [exact Htyc|].
    intros o. unfold entry_objects. rewrite Hemptyc, app_nil_r.
    rewrite !elem_of_cons, elem_of_app. tauto. }
  assert (Hspc : spine_at hc s = Some sp).
  { rewrite <- Hsp. apply spine_at_frame. apply Hframec.
    apply (entry_wf_distinct _ _ _ Hwf). }
  unfold bind at 1. rewrite Hclear. cbv beta iota.
  rewrite drawDebugDisplayObjects_unfold.
  rewrite (bind_read_spine _ _ (with_heap hc st) sp) by exact Hspc.
  destruct (drawBones this); unfold when.
  - destruct (drawBonesFunc_wf acos this s d (frame_lineWidth this sp) (frame_scale sp)
                (with_heap hc st) sp)
      as (hb & Hrun & Hlenb & Hframeb & Hwfb & Htyb & Hwb); auto.
    rewrite heap_with_heap in *.
    unfold bind at 1. rewrite Hrun. cbv beta iota. rewrite with_heap_with_heap.
    eapply entry_kept_trans; [exact Hkc|].
    eapply entry_kept_trans.
    + split; [split; [exact Hlenb|exact Hframeb]|]. split; [exact Hwfb|].
      split; [exact Htyb|exact Hwb].
    + apply (draw_after_bones_entry_kept bounds refused this s d _ (with_heap hb st)); assumption.
  - unfold bind at 1, ret at 1. cbv beta iota.
    eapply entry_kept_trans; [exact Hkc|].
    apply (draw_after_bones_entry_kept bounds refused this s d _ (with_heap hc st)); assumption.
Qed.

Lemma scene_wf_method s st st' (P : oid -> Prop) :
  scene_wf st ->
  is_Some (spine_at (heap st) s) ->
  changes_only P (heap st) (heap st') ->
  (forall o, P o -> o = s \/
     exists d, Map_get s (registeredSpines st) = Some d /\
               o ∈ entry_objects (heap st) d) ->
  NoDup (keys st') ->
  (forall k, k <> s ->
     Map_get k (registeredSpines st') = Map_get k (registeredSpines st)) ->
  (forall d', Map_get s (registeredSpines st') = Some d' ->
     entry_wf (heap st') s d' /\
     Forall (fun o => spine_at (heap st') o = None) (entry_objects (heap st') d') /\
     forall o, o ∈ entry_objects (heap st') d' ->
       length (heap st) <= o \/
       exists d, Map_get s (registeredSpines st) = Some d /\
                 o ∈ entry_objects (heap st) d) ->
  scene_wf st'.
Proof. destruct st'. apply scene_wf_update. Qed.

Lemma spine_at_registered spine st sp :
  spine_at (heap st) spine = Some sp ->
  spine_at (heap (registered spine st)) spine = Some sp.
Proof.
  unfold spine_at, registered. cbn [heap].
  destruct (heap st !! spine) as [obj|] eqn:E; [|discriminate].
  rewrite lookup_app_l by (rewrite length_alter; eapply lookup_lt_Some; eauto).
  rewrite list_lookup_alter_eq, E. auto.
Qed.

Lemma spine_at_lt h o sp : spine_at h o = Some sp -> o < length h.
Proof.
  unfold spine_at. destruct (h !! o) eqn:E; [|discriminate].
  intros _. eapply lookup_lt_Some; eauto.
Qed.

(** On a spine that is not registered, [renderDebug] goes on as on the
    spine just registered. *)
Lemma renderDebug_unregistered acos bounds refused this spine st :
  Map_get spine (registeredSpines st) = None ->
  spine < length (heap st) ->
  renderDebug acos bounds refused this spine st =
  renderDebug acos bounds refused this spine (registered spine st).
Proof.
  intros Hget Hlt.
  assert (Hget' : Map_get spine (registeredSpines (registered spine st)) =
                  Some (fresh_entry (length (heap st))))
    by apply Map_get_set.
  rewrite (renderDebug_of_registered _ _ _ _ _ _ _ Hget').
  unfold renderDebug.
  unfold bind at 1. unfold get_state at 1. cbv beta iota.
  unfold Map_has. rewrite Hget. simpl negb. unfold when.
  unfold bind at 1. rewrite (registerSpine_registered spine st Hlt). cbv beta iota.
  unfold bind at 1. unfold get_state. cbv beta iota.
  rewrite Hget'. reflexivity.
Qed.

Lemma scene_wf_renderDebug_registered acos bounds refused this s st d :
  scene_wf st -> is_Some (spine_at (heap st) s) ->
  Map_get s (registeredSpines st) = Some d ->
  scene_wf (fst (renderDebug acos bounds refused this s st)).
Proof.
  intros Hwf [sp Hsp] Hget.
  pose proof Hwf as (Hnd & Hent & _).
  destruct (Hent _ _ Hget) as [Hd Hty].
  destruct (renderDebug_entry_kept acos bounds refused this s st d sp Hget Hsp Hd Hty)
    as (Hmap & Hch & Hwf' & Hty' & Hwhere).
  apply (scene_wf_method s st _ (fun o => o ∈ entry_objects (heap st) d)); eauto.
  - unfold keys. rewrite Hmap. exact Hnd.
  - intros k _. rewrite Hmap. reflexivity.
  - intros d'. rewrite Hmap, Hget. intros [= <-].
    split; [exact Hwf'|]. split; [exact Hty'|].
    intros o Ho. destruct (Hwhere o Ho); eauto.
Qed.

Lemma scene_wf_renderDebug acos bounds refused this s st :
  scene_wf st -> is_Some (spine_at (heap st) s) ->
  scene_wf (fst (renderDebug acos bounds refused this s st)).
Proof.
  intros Hwf Hs.
  destruct (Map_get s (registeredSpines st)) as [d|] eqn:Hget.
  - eapply scene_wf_renderDebug_registered; eauto.
  - destruct Hs as [sp Hsp].
    rewrite renderDebug_unregistered by (eauto using spine_at_lt).
    eapply (scene_wf_renderDebug_registered _ _ _ _ _ _ (fresh_entry (length (heap st)))).
    + apply scene_wf_registered; eauto.
    + exists sp. apply spine_at_registered. exact Hsp.
    + apply Map_get_set.
Qed.

Lemma spines_kept_call acos bounds refused c st :
  spines_kept st (fst (call acos bounds refused c st)).
Proof.
  apply lift_keeps_spine_spines_kept.
  assert (Hgfx : forall g c, stable (lift_heap_rel keeps_spine) (gfx g c)).
  { intros g c0. apply lift_gfx; [exact _|]. apply keeps_spine_add_cmd. }
  revert st. change (stable (lift_heap_rel keeps_spine) (call acos bounds refused c)).
  apply (stable_call acos bounds refused (lift_heap_rel keeps_spine) (fun _ => True));
    try apply lift_heap_rel_preorder; try exact _; auto;
    try (intros; apply lift_set_prop; [exact _|]; intros o;
         apply keeps_spine_same_payload; reflexivity);
    try (intros; first [apply lift_new_obj | apply lift_addChild | apply lift_destroy
                       | apply lift_console_warn | apply lift_modify_map ];
         try exact _; intros; apply keeps_spine_same_payload; reflexivity).
  - intros g. apply lift_gfx_clear; [exact _|]. apply keeps_spine_clear_cmds.
  - intros d slot.
    apply (stable_drawRegionSlot (lift_heap_rel keeps_spine) (fun _ => True));
      try apply lift_heap_rel_preorder; try exact _; auto.
    intros. apply lift_updateOffset. exact _.
Qed.

Lemma scene_wf_call acos bounds refused c st :
  scene_wf st -> is_Some (spine_at (heap st) (call_spine c)) ->
  scene_wf (fst (call acos bounds refused c st)).
Proof.
  intros Hwf Hs. destruct c as [s|s|this s]; cbn [call call_spine] in *.
  - destruct Hs as [sp Hsp].
    rewrite registerSpine_registered by (eauto using spine_at_lt).
    apply scene_wf_registered; eauto.
  - apply scene_wf_unregisterSpine; assumption.
  - apply scene_wf_renderDebug; assumption.
Qed.

Lemma scene_wf_new h atts : scene_wf (new_renderer h atts).
Proof.
  split; [apply NoDup_nil_2|]. split; [intros s d [=]|intros s1 d1 s2 d2 o _ [=]].
Qed.

(** In every state that the renderer reaches through calls of its methods
    on spine objects, the bundle of each registered spine is well formed,
    as the theorems on [renderDebug] and [unregisterSpine] ask. *)
Lemma scene_wf_run acos bounds refused (calls : list Call) h atts :
  Forall (fun c => is_Some (spine_at h (call_spine c))) calls ->
  scene_wf (run acos bounds refused calls (new_renderer h atts)).
Proof.
  assert (Hgen : forall st,
            scene_wf st ->
            Forall (fun c => is_Some (spine_at (heap st) (call_spine c))) calls ->
            scene_wf (run acos bounds refused calls st)).
  { induction calls as [|c calls IH]; intros st Hst Hcs; simpl; [exact Hst|].
    apply Forall_cons in Hcs as [Hc Hcs].
    apply IH; [apply scene_wf_call; assumption|].
    eapply Forall_impl; [exact Hcs|]. intros c' [sp Hsp].
    exists sp. apply (spines_kept_call acos bounds refused c st). exact Hsp. }
  intros Hcs. apply Hgen; [apply scene_wf_new|exact Hcs].
Qed.

Lemma set_children_same o : set_children (children o) o = o.
Proof. destruct o; reflexivity. Qed.

Lemma length_fresh_objects spine n : length (fresh_objects spine n) = 12.
Proof. reflexivity. Qed.

Lemma length_registered spine st :
  length (heap (registered spine st)) = length (heap st) + 12.
Proof.
  unfold registered. cbn [heap]. rewrite length_app, length_alter. reflexivity.
Qed.

Lemma entry_objects_fresh spine st :
  spine < length (heap st) ->
  entry_objects (heap (registered spine st)) (fresh_entry (length (heap st))) =
  seq (length (heap st)) 12.
Proof.
  intros Hlt. destruct (registered_entry_wf spine st Hlt) as (_ & Hch & _).
  unfold entry_objects. rewrite Hch, app_nil_r.
  unfold surfaces, fresh_entry. cbn.
  rewrite <- (Nat.add_0_r (length (heap st))) at 1.
  repeat (f_equal; try lia).
Qed.

(** ** What [destroy] leaves of the rest of the scene *)

Lemma foldl_heap_destroy_frame (D P : oid -> Prop) fuel cs : forall h,
  (forall o, D o -> P o) ->
  links_within D P h -> (forall c, c ∈ cs -> D c) ->
  links_within D P (foldl (fun h' c => heap_destroy fuel c h') h cs) /\
  forall x, ~ P x -> foldl (fun h' c => heap_destroy fuel c h') h cs !! x = h !! x.
Proof.
  induction cs as [|c cs IH]; intros h HDP Hl Hcs; simpl.
  - split; [exact Hl|reflexivity].
  - destruct (heap_destroy_frame D P HDP fuel c h Hl) as [Hl1 Hf1].
    { apply Hcs, list_elem_of_here. }
    destruct (IH (heap_destroy fuel c h) HDP Hl1) as [Hl2 Hf2].
    { intros c' Hc'. apply Hcs, list_elem_of_further, Hc'. }
    split; [exact Hl2|]. intros x Hx. rewrite Hf2 by exact Hx. apply Hf1, Hx.
Qed.

(** The destruction of the root [o] of a subtree [D] of the scene: outside
    [D], the scene is as before but for the parent of [o], which loses
    this child. *)
Lemma heap_destroy_root_frame (D : oid -> Prop) fuel o h obj :
  h !! o = Some obj -> D o ->
  (forall o' obj', D o' -> h !! o' = Some obj' ->
     (forall c, c ∈ children obj' -> D c) /\
     (o' <> o -> forall q, parent obj' = Some q -> D q)) ->
  forall x, ~ D x ->
    heap_destroy (S fuel) o h !! x =
    match parent obj with
    | Some q => alter (remove_child o) q h
    | None => h
    end !! x.
Proof.
  intros Hobj Ho Hsub x Hx.
  rewrite heap_destroy_S, Hobj.
  set (h1 := match parent obj with
             | Some q => alter (remove_child o) q h
             | None => h
             end).
  set (h2 := alter mark_destroyed o h1).
  assert (Hl2 : links_within D D h2).
  { intros o' obj' Ho' Hobj'. unfold h2 in Hobj'.
    rewrite list_lookup_alter in Hobj'.
    destruct (decide (o = o')) as [<-|Hne].
    - destruct (h1 !! o) as [ob1|]; [|discriminate]. injection Hobj' as <-.
      split; [discriminate|]. intros c Hc. apply elem_of_nil in Hc. contradiction.
    - assert (Hfrom : exists ob0, h !! o' = Some ob0 /\ parent obj' = parent ob0 /\
                        forall c, c ∈ children obj' -> c ∈ children ob0).
      { unfold h1 in Hobj'. destruct (parent obj) as [q|]; [|eauto].
        rewrite list_lookup_alter in Hobj'.
        destruct (decide (q = o')) as [->|]; [|eauto].
        destruct (h !! o') as [ob0|]; [|discriminate]. injection Hobj' as <-.
        exists ob0. split; [reflexivity|]. split; [reflexivity|].
        intros c. apply elem_of_remove_first. }
      destruct Hfrom as (ob0 & Hob0 & Hp & Hc).
      destruct (Hsub o' ob0 Ho' Hob0) as [Hch Hpar]. split.
      + intros q. rewrite Hp. apply Hpar. auto.
      + intros c Hin. apply Hch, Hc, Hin. }
  destruct (Hsub o obj Ho Hobj) as [Hch _].
  set (h3 := foldl (fun h' c => alter (set_parent None) c h') h2 (children obj)).
  assert (Hl3 : links_within D D h3).
  { apply links_within_foldl_alter; [discriminate|auto|exact Hl2]. }
  destruct (foldl_heap_destroy_frame D D fuel (children obj) h3) as [_ Hf]; auto.
  rewrite Hf by exact Hx. unfold h3.
  rewrite lookup_foldl_alter_notin by (intros Hin; apply Hx, Hch, Hin).
  unfold h2. apply list_lookup_alter_ne. intros ->. contradiction.
Qed.

Lemma entry_subtree h s d :
  entry_wf h s d ->
  forall o' obj', o' ∈ entry_objects h d -> h !! o' = Some obj' ->
    (forall c, c ∈ children obj' -> c ∈ entry_objects h d) /\
    (o' <> parentDebugContainer d ->
     forall q, parent obj' = Some q -> q ∈ entry_objects h d).
Proof.
  intros Hwf o' obj' Ho' Hobj'.
  destruct (entry_links_within h s d Hwf o' obj' Ho' Hobj') as [Hpar Hch].
  split; [exact Hch|]. intros Hne q Hq.
  destruct (Hpar q Hq) as [->|H]; [|exact H].
  (* the parent is the spine: only the container hangs under it *)
  exfalso.
  destruct Hwf as (Hnd & (oP & HoP & HpP & HcP) & (ob & Hob & Hpb) & Hsurf & Hbc).
  apply NoDup_cons in Hnd as [Hs Hnd].
  apply NoDup_cons in Hnd as [HP _].
  unfold entry_objects in Ho'. rewrite !elem_of_cons, elem_of_app in Ho'.
  destruct Ho' as [->|[->|[Ho'|Ho']]].
  - contradiction.
  - rewrite Hob in Hobj'. injection Hobj' as <-. rewrite Hpb in Hq.
    injection Hq as <-. apply Hs. apply list_elem_of_here.
  - eapply Forall_forall in Hsurf; [|exact Ho'].
    destruct Hsurf as (o2 & cs & Ho2 & Hp2 & _).
    rewrite Ho2 in Hobj'. injection Hobj' as <-. rewrite Hp2 in Hq.
    injection Hq as <-. apply Hs. apply list_elem_of_here.
  - eapply Forall_forall in Hbc; [|exact Ho'].
    destruct Hbc as (o2 & Ho2 & Hp2 & _).
    rewrite Ho2 in Hobj'. injection Hobj' as <-. rewrite Hp2 in Hq.
    injection Hq as <-. apply Hs.
    apply list_elem_of_further, list_elem_of_here.
Qed.

(** The scene after [unregisterSpine] on a registered spine, outside the
    bundle: the spine loses the container of the bundle, the rest is as
    before. *)
Lemma unregisterSpine_scene spine st d :
  Map_get spine (registeredSpines st) = Some d ->
  entry_wf (heap st) spine d ->
  forall x, x ∉ entry_objects (heap st) d ->
    heap (fst (unregisterSpine spine st)) !! x =
    alter (remove_child (parentDebugContainer d)) spine (heap st) !! x.
Proof.
  intros Hget Hwf x Hx.
  rewrite (unregisterSpine_of_registered _ _ _ Hget). cbn [fst heap].
  pose proof Hwf as (_ & (oP & HoP & HpP & HcP) & _).
  pose proof (lookup_lt_Some _ _ _ HoP) as Hlt.
  destruct (length (heap st)) as [|fuel] eqn:Hlen; [lia|].
  rewrite (heap_destroy_root_frame (fun o => o ∈ entry_objects (heap st) d)
             fuel _ _ oP HoP).
  - rewrite HpP. reflexivity.
  - apply list_elem_of_here.
  - apply entry_subtree with (s := spine). exact Hwf.
  - exact Hx.
Qed.

Lemma unregisterSpine_of_unregistered spine st :
  Map_get spine (registeredSpines st) = None ->
  unregisterSpine spine st =
  (mkSt (registeredSpines st) (heap st) (attachments st)
        (console st ++
         [("SpineDebugRenderer.unregisterSpine() - spine is not registered, can't unregister!"%string,
           spine)]),
   Throw (TypeError "Cannot read properties of undefined (reading 'parentDebugContainer')")).
Proof.
  intros Hget. unfold unregisterSpine, bind, get_state, when, console_warn.
  unfold Map_has. rewrite Hget. cbn. rewrite Hget. reflexivity.
Qed.

(** X1: on a spine that is not registered, [registerSpine] followed by
    [unregisterSpine] is a round trip: the second call completes normally,
    the registration map, the console and every object that was there,
    the spine with its list of children included, are as before, and the
    twelve objects that the registration created are all destroyed. *)
Theorem register_unregister_roundtrip spine st sp :
  spine_at (heap st) spine = Some sp ->
  Map_get spine (registeredSpines st) = None ->
  (forall c, c ∈ children_of (heap st) spine -> c < length (heap st)) ->
  let n := length (heap st) in
  let st1 := fst (registerSpine spine st) in
  let st2 := fst (unregisterSpine spine st1) in
  snd (unregisterSpine spine st1) = Normal tt /\
  registeredSpines st2 = registeredSpines st /\
  console st2 = console st /\
  attachments st2 = attachments st /\
  length (heap st2) = n + 12 /\
  (forall o, o < n -> heap st2 !! o = heap st !! o) /\
  (forall i, i < 12 -> is_destroyed (heap st2) (n + i) = true).
Proof.
  intros Hsp Hget Hkids n st1 st2.
  pose proof (spine_at_lt _ _ _ Hsp) as Hlt.
  assert (Hst1 : st1 = registered spine st).
  { unfold st1. rewrite (registerSpine_registered spine st Hlt). reflexivity. }
  assert (Hget1 : Map_get spine (registeredSpines st1) = Some (fresh_entry n)).
  { rewrite Hst1. apply Map_get_set. }
  destruct (registered_entry_wf spine st Hlt) as (Hwf & Hch & _).
  fold n in Hwf, Hch. rewrite <- Hst1 in Hwf, Hch.
  assert (Hlen1 : length (heap st1) = n + 12).
  { rewrite Hst1. apply length_registered. }
  assert (Hobjs : entry_objects (heap st1) (fresh_entry n) = seq n 12).
  { rewrite Hst1. apply entry_objects_fresh. exact Hlt. }
  pose proof (unregisterSpine_scene spine st1 _ Hget1 Hwf) as Hscene.
  rewrite Hobjs in Hscene. fold st2 in Hscene.
  pose proof (unregisterSpine_of_registered spine st1 _ Hget1) as Hrun.
  assert (Hheap2 : heap st2 = heap_destroy (n + 12) n (heap st1)).
  { unfold st2. rewrite Hrun, Hlen1. reflexivity. }
  split; [rewrite Hrun; reflexivity|].
  split.
  { unfold st2. rewrite Hrun. cbn [fst registeredSpines].
    rewrite Hst1. unfold registered. cbn [registeredSpines].
    rewrite (Map_set_absent _ _ _ Hget).
    clear -Hget. induction (registeredSpines st) as [|[k v] m IH]; simpl.
    - rewrite Nat.eqb_refl. reflexivity.
    - simpl in Hget. destruct (Nat.eqb k spine); [discriminate|].
      rewrite IH by exact Hget. reflexivity. }
  split.
  { unfold st2. rewrite Hrun. cbn [fst console].
    rewrite Hst1. unfold registered. cbn [console].
    unfold Map_has. rewrite Hget. apply app_nil_r. }
  split; [unfold st2; rewrite Hrun, Hst1; reflexivity|].
  split; [rewrite Hheap2, length_heap_destroy; exact Hlen1|].
  split.
  - intros o Ho. rewrite Hscene by (rewrite elem_of_seq; lia).
    change (parentDebugContainer (fresh_entry n)) with n.
    rewrite Hst1. unfold registered. cbn [heap]. fold n.
    rewrite alter_app_l by (rewrite length_alter; exact Hlt).
    rewrite lookup_app_l by (rewrite !length_alter; exact Ho).
    rewrite !list_lookup_alter.
    destruct (decide (spine = o)) as [<-|Hne]; [|reflexivity].
    destruct (heap st !! spine) as [obj|] eqn:Hobj;
      [|apply lookup_ge_None in Hobj; lia].
    rewrite decide_True by reflexivity.
    cbn. f_equal. unfold remove_child, push_child. cbn.
    rewrite remove_first_last; [destruct obj; reflexivity|].
    intros Hin. assert (n < n); [|lia]. apply Hkids.
    unfold children_of. rewrite Hobj. exact Hin.
  - intros i Hi. rewrite Hheap2.
    pose proof Hwf as (_ & (oP & HoP & HpP & HcP) & _).
    change (parentDebugContainer (fresh_entry n)) with n in HoP.
    replace (n + 12) with (S (S (n + 10))) by lia.
    destruct i as [|i].
    + rewrite Nat.add_0_r. apply heap_destroy_marks. lia.
    + apply (heap_destroy_marks_children _ _ _ oP); [exact HoP| |lia].
      rewrite HcP. unfold surfaces, fresh_entry. cbn.
      do 11 (destruct i as [|i]; [rewrite !elem_of_cons; auto 20|]). lia.
Qed.

Lemma register_unregister_roundtrip_witness :
  let st := sample_world [] in
  let st2 := fst (unregisterSpine 0 (fst (registerSpine 0 st))) in
  registeredSpines st2 = [] /\ children_of (heap st2) 0 = [].
Proof.
  intros st st2.
  destruct (register_unregister_roundtrip 0 st
              (mkSpine 1%float 1%float (sample_skeleton [])))
    as (_ & Hmap & _ & _ & _ & Hold & _).
  - reflexivity.
  - reflexivity.
  - intros c Hc. apply elem_of_nil in Hc. contradiction.
  - split; [exact Hmap|].
    unfold children_of. unfold st2. rewrite (Hold 0 ltac:(simpl; lia)). reflexivity.
Defined.

(** X2: [unregisterSpine] on a registered spine detaches the container of
    the bundle from the spine and changes nothing else of the spine; every
    object that is neither the spine nor an object of the bundle is as
    before. *)
Theorem unregisterSpine_detaches spine st d obj :
  Map_get spine (registeredSpines st) = Some d ->
  entry_wf (heap st) spine d ->
  heap st !! spine = Some obj ->
  let st' := fst (unregisterSpine spine st) in
  heap st' !! spine = Some (remove_child (parentDebugContainer d) obj) /\
  (forall x, x <> spine -> x ∉ entry_objects (heap st) d ->
             heap st' !! x = heap st !! x).
Proof.
  intros Hget Hwf Hobj st'. split.
  - unfold st'. rewrite (unregisterSpine_scene _ _ _ Hget Hwf)
      by apply (entry_wf_distinct _ _ _ Hwf).
    rewrite list_lookup_alter_eq, Hobj. reflexivity.
  - intros x Hne Hx. unfold st'.
    rewrite (unregisterSpine_scene _ _ _ Hget Hwf) by exact Hx.
    apply list_lookup_alter_ne. auto.
Qed.

Lemma unregisterSpine_detaches_witness :
  children_of (heap (fst (unregisterSpine 0 sample_rendered))) 0 = [].
Proof.
  destruct (unregisterSpine_detaches 0 sample_rendered sample_entry
              (mkObj None [1] false 0%float 0%float 0%float 0%float
                     (PSpine (mkSpine 1%float 1%float (sample_skeleton sample_slots)))))
    as [Hs _].
  - reflexivity.
  - exact sample_rendered_wf.
  - reflexivity.
  - unfold children_of. rewrite Hs. reflexivity.
Defined.

(** X3: [unregisterSpine] is not idempotent.  After it has removed the
    entry of a registered spine, a second call on the same spine finds no
    entry: it logs the warning and raises a [TypeError], leaving the map
    and the scene as the first call left them. *)
Theorem unregisterSpine_twice_throws spine st d :
  Map_get spine (registeredSpines st) = Some d ->
  NoDup (keys st) ->
  let st1 := fst (unregisterSpine spine st) in
  let r := unregisterSpine spine st1 in
  snd r = Throw (TypeError "Cannot read properties of undefined (reading 'parentDebugContainer')") /\
  registeredSpines (fst r) = registeredSpines st1 /\
  heap (fst r) = heap st1 /\
  length (console (fst r)) = S (length (console st)).
Proof.
  intros Hget Hnd st1 r.
  assert (Hget1 : Map_get spine (registeredSpines st1) = None).
  { unfold st1. rewrite (unregisterSpine_of_registered _ _ _ Hget). cbn.
    apply Map_get_delete. exact Hnd. }
  unfold r. rewrite (unregisterSpine_of_unregistered _ _ Hget1). cbn.
  repeat split. rewrite length_app. cbn.
  unfold st1. rewrite (unregisterSpine_of_registered _ _ _ Hget). cbn. lia.
Qed.

Lemma unregisterSpine_twice_throws_witness :
  snd (unregisterSpine 0 (fst (unregisterSpine 0 sample_rendered))) =
  Throw (TypeError "Cannot read properties of undefined (reading 'parentDebugContainer')").
Proof.
  apply (unregisterSpine_twice_throws 0 sample_rendered sample_entry).
  - reflexivity.
  - apply (bool_decide_unpack _). vm_compute. exact I.
Defined.

(** ** The states that the renderer reaches *)

(** X4: in every state that the renderer reaches from its creation through
    calls of [registerSpine], [unregisterSpine] and [renderDebug] on spine
    objects, however each call completes, the bundle of every registered
    spine is well formed: its container hangs under the spine and holds
    the bones container and the ten graphics, and the children of the
    bones container are childless objects of their own. *)
Theorem reachable_entries_wf acos bounds refused (calls : list Call) h atts s d :
  Forall (fun c => is_Some (spine_at h (call_spine c))) calls ->
  let st := run acos bounds refused calls (new_renderer h atts) in
  Map_get s (registeredSpines st) = Some d ->
  entry_wf (heap st) s d.
Proof.
  intros Hcs st Hget.
  destruct (scene_wf_run acos bounds refused calls h atts Hcs) as (_ & Hent & _).
  apply (Hent s d Hget).
Qed.

Lemma reachable_entries_wf_witness :
  let st := run sample_acos sample_bounds sample_refused
                [Register 0; Render default_config 0; Register 0]
                (sample_world sample_slots) in
  entry_wf (heap st) 0 (fresh_entry 14).
Proof.
  intros st.
  apply (reachable_entries_wf sample_acos sample_bounds sample_refused
           [Register 0; Render default_config 0; Register 0]
           (heap (sample_world sample_slots)) sample_attachments 0 (fresh_entry 14)).
  - repeat constructor; eexists; reflexivity.
  - vm_compute. reflexivity.
Defined.

(** X5: in every such state the bundles of two registered spines share no
    object, and no object of a bundle is a spine object. *)
Theorem reachable_entries_disjoint acos bounds refused (calls : list Call) h atts s1 d1 s2 d2 o :
  Forall (fun c => is_Some (spine_at h (call_spine c))) calls ->
  let st := run acos bounds refused calls (new_renderer h atts) in
  s1 <> s2 ->
  Map_get s1 (registeredSpines st) = Some d1 ->
  Map_get s2 (registeredSpines st) = Some d2 ->
  o ∈ entry_objects (heap st) d1 ->
  (o ∉ entry_objects (heap st) d2) /\ spine_at (heap st) o = None.
Proof.
  intros Hcs st Hne H1 H2 Ho.
  destruct (scene_wf_run acos bounds refused calls h atts Hcs) as (_ & Hent & Hdis).
  split; [exact (Hdis s1 d1 s2 d2 o Hne H1 H2 Ho)|].
  destruct (Hent s1 d1 H1) as [_ Hty].
  eapply Forall_forall in Hty; eauto.
Qed.

Lemma reachable_entries_disjoint_witness :
  let h := [new_object (PSpine (mkSpine 1%float 1%float (sample_skeleton [])));
            new_object (PSpine (mkSpine 1%float 1%float (sample_skeleton [])))] in
  let st := run sample_acos sample_bounds sample_refused
                [Render default_config 0; Render default_config 1]
                (new_renderer h sample_attachments) in
  bones (fresh_entry 2) ∉ entry_objects (heap st) (fresh_entry 15).
Proof.
  intros h st.
  apply (reachable_entries_disjoint sample_acos sample_bounds sample_refused
           [Render default_config 0; Render default_config 1]
           h sample_attachments 0 (fresh_entry 2) 1 (fresh_entry 15)).
  - repeat constructor; eexists; reflexivity.
  - discriminate.
  - vm_compute. reflexivity.
  - vm_compute. reflexivity.
  - apply list_elem_of_further, list_elem_of_here.
Defined.

(** ** What a frame leaves alone *)

(** X6: a frame on a registered spine, however it completes, changes only
    objects of the bundle of that spine, and adds new objects: the spine
    object itself, the bundles of the other spines and every other object
    of the scene are as before. *)
Theorem renderDebug_changes_own_bundle acos bounds refused this spine st d sp :
  scene_wf st ->
  Map_get spine (registeredSpines st) = Some d ->
  spine_at (heap st) spine = Some sp ->
  let st' := fst (renderDebug acos bounds refused this spine st) in
  length (heap st) <= length (heap st') /\
  heap st' !! spine = heap st !! spine /\
  (forall o, o < length (heap st) -> o ∉ entry_objects (heap st) d ->
             heap st' !! o = heap st !! o) /\
  (forall s2 d2, s2 <> spine -> Map_get s2 (registeredSpines st) = Some d2 ->
     entry_objects (heap st') d2 = entry_objects (heap st) d2 /\
     forall o, o ∈ entry_objects (heap st) d2 -> heap st' !! o = heap st !! o).
Proof.
  intros Hwf Hget Hsp st'.
  pose proof Hwf as (_ & Hent & Hdis).
  destruct (Hent _ _ Hget) as [Hd Hty].
  destruct (renderDebug_entry_kept acos bounds refused this spine st d sp Hget Hsp Hd Hty)
    as (_ & [Hlen Hframe] & _).
  fold st' in Hlen, Hframe.
  split; [exact Hlen|]. split.
  { apply Hframe; [eapply spine_at_lt; eauto|].
    apply (entry_wf_distinct _ _ _ Hd). }
  split; [exact Hframe|].
  intros s2 d2 Hne Hget2.
  destruct (Hent _ _ Hget2) as [Hd2 _].
  assert (Hkeep : forall o, o ∈ entry_objects (heap st) d2 -> heap st' !! o = heap st !! o).
  { intros o Ho. apply Hframe; [eapply entry_objects_lt; eauto|].
    intros Hin. exact (Hdis _ _ _ _ o Hne Hget2 Hget Ho Hin). }
  split; [|exact Hkeep].
  apply (entry_wf_frame _ _ _ _ Hkeep Hd2).
Qed.

Lemma sample_rendered_scene_wf : scene_wf sample_rendered.
Proof.
  assert (E : sample_rendered =
              run sample_acos sample_bounds sample_refused [Render default_config 0]
                  (new_renderer (heap (sample_world sample_slots)) sample_attachments))
    by (vm_compute; reflexivity).
  rewrite E. apply scene_wf_run.
  repeat constructor. eexists. reflexivity.
Qed.

Lemma renderDebug_changes_own_bundle_witness :
  heap (fst (renderDebug sample_acos sample_bounds sample_refused default_config 0 sample_rendered)) !! 0 =
  heap sample_rendered !! 0.
Proof.
  destruct (renderDebug_changes_own_bundle sample_acos sample_bounds sample_refused default_config 0
              sample_rendered sample_entry
              (mkSpine 1%float 1%float (sample_skeleton sample_slots)))
    as (_ & Hs & _).
  - exact sample_rendered_scene_wf.
  - reflexivity.
  - reflexivity.
  - exact Hs.
Defined.

#[global] Instance same_console_preorder : PreOrder same_console.
Proof.
  split.
  - intros st. reflexivity.
  - intros st1 st2 st3 H12 H23. unfold same_console in *. congruence.
Qed.

Lemma same_console_clear_draw acos bounds refused this spine d :
  stable same_console
    (clearDebugDisplayObjects d >> drawDebugDisplayObjects acos bounds refused this spine d).
Proof.
  assert (Hupd : forall a att, stable same_console (call_updateOffset a att)).
  { intros a att st. unfold call_updateOffset.
    destruct (updateOffset att); reflexivity. }
  apply stable_bind; [exact _| |intros _].
  - apply stable_clearDebugDisplayObjects; try exact _; intros; intros st; reflexivity.
  - apply (stable_drawDebugDisplayObjects acos bounds refused same_console (fun _ => True));
      try exact _; auto; try (intros; intros st; reflexivity).
    intros _ slot. apply (stable_drawRegionSlot same_console (fun _ => True));
      try exact _; auto.
    intros; intros st; reflexivity.
Qed.

(** X7: a frame on a registered spine, however it completes, leaves the
    registration map as it is and logs nothing: [renderDebug] registers
    only a spine that has no entry, and never unregisters. *)
Theorem renderDebug_keeps_registrations acos bounds refused this spine st d :
  Map_get spine (registeredSpines st) = Some d ->
  let st' := fst (renderDebug acos bounds refused this spine st) in
  registeredSpines st' = registeredSpines st /\ console st' = console st.
Proof.
  intros Hget st'. unfold st'.
  rewrite (renderDebug_of_registered _ _ _ _ _ _ _ Hget). split.
  - apply (same_map_clear_draw acos bounds refused this spine d st).
  - apply (same_console_clear_draw acos bounds refused this spine d st).
Qed.

Lemma renderDebug_keeps_registrations_witness :
  registeredSpines
    (fst (renderDebug sample_acos sample_bounds sample_refused default_config 0 sample_rendered)) =
  [(0, sample_entry)].
Proof.
  destruct (renderDebug_keeps_registrations sample_acos sample_bounds sample_refused default_config 0
              sample_rendered sample_entry) as [Hmap _].
  - reflexivity.
  - rewrite Hmap. reflexivity.
Defined.

(** ** The scale of a frame *)

Lemma truthy_js_or a b : truthy b = true -> truthy (js_or a b) = true.
Proof. intros Hb. unfold js_or. destruct (truthy a) eqn:Ha; assumption. Qed.

(** X8: the scale by which [renderDebug] divides the line width,
    [spine.scale.x || spine.scale.y || 1], is never zero and never NaN: it
    is [scale.x] unless that is zero or NaN, else [scale.y] unless that is
    zero or NaN, else 1. *)
Theorem frame_scale_never_zero sp :
  PrimFloat.eqb (frame_scale sp) 0 = false /\
  PrimFloat.is_nan (frame_scale sp) = false /\
  (truthy (scale_x sp) = true -> frame_scale sp = scale_x sp) /\
  (truthy (scale_x sp) = false -> truthy (scale_y sp) = true ->
   frame_scale sp = scale_y sp) /\
  (truthy (scale_x sp) = false -> truthy (scale_y sp) = false ->
   frame_scale sp = 1%float).
Proof.
  assert (Ht : truthy (frame_scale sp) = true).
  { unfold frame_scale. apply truthy_js_or. vm_compute. reflexivity. }
  unfold truthy in Ht. apply negb_true_iff, orb_false_iff in Ht as [H0 Hn].
  split; [exact H0|]. split; [exact Hn|].
  unfold frame_scale, js_or.
  split; [intros Hx; rewrite !Hx; reflexivity|].
  split; intros Hx Hy; rewrite Hx, Hy; reflexivity.
Qed.

Lemma frame_scale_never_zero_witness :
  frame_scale (mkSpine 0%float 2%float (sample_skeleton [])) = 2%float /\
  frame_scale (mkSpine 0%float nan (sample_skeleton [])) = 1%float.
Proof.
  split.
  - destruct (frame_scale_never_zero (mkSpine 0%float 2%float (sample_skeleton [])))
      as (_ & _ & _ & H & _).
    apply H; reflexivity.
  - destruct (frame_scale_never_zero (mkSpine 0%float nan (sample_skeleton [])))
      as (_ & _ & _ & _ & H).
    apply H; reflexivity.
Defined.

(** ** Computations that cannot fail *)

Lemma never_throws_ret {A} (a : A) : never_throws (ret a).
Proof. intros st. exists a. reflexivity. Qed.

Lemma never_throws_bind {A B} (m : M A) (k : A -> M B) :
  never_throws m -> (forall a, never_throws (k a)) -> never_throws (bind m k).
Proof.
  intros Hm Hk st. unfold bind. destruct (Hm st) as [a Ha].
  destruct (m st) as [st1 r]. simpl in Ha. subst r. apply Hk.
Qed.

Lemma never_throws_modify_heap f : never_throws (modify_heap f).
Proof. intros st. exists tt. reflexivity. Qed.

Lemma never_throws_new_obj p : never_throws (new_obj p).
Proof. intros st. eexists. reflexivity. Qed.

Lemma never_throws_getAttachment slot : never_throws (getAttachment slot).
Proof. intros st. eexists. reflexivity. Qed.

Lemma never_throws_get_attachments : never_throws get_attachments.
Proof. intros st. eexists. reflexivity. Qed.

Lemma never_throws_when b (m : M unit) : never_throws m -> never_throws (when b m).
Proof. destruct b; simpl; auto using never_throws_ret. Qed.

Lemma never_throws_for_each {A} (l : list A) (body : A -> M unit) :
  (forall a, never_throws (body a)) -> never_throws (for_each l body).
Proof.
  intros Hb. induction l as [|a l IH]; simpl.
  - apply never_throws_ret.
  - apply never_throws_bind; auto.
Qed.

Lemma never_throws_for_loop {S} fuel n step (body : Z -> S -> M S) i s :
  (forall i s, never_throws (body i s)) -> never_throws (for_loop fuel n step body i s).
Proof.
  intros Hb. revert i s. induction fuel as [|fuel IH]; intros i s; simpl.
  - apply never_throws_ret.
  - destruct (i <? n)%Z; [|apply never_throws_ret].
    apply never_throws_bind; auto.
Qed.

Ltac never_throws_step :=
  lazymatch goal with
  | |- never_throws (ret _) => apply never_throws_ret
  | |- never_throws (bind _ _) => apply never_throws_bind; [|intros; cbv beta]
  | |- never_throws (gfx _ _) => apply never_throws_modify_heap
  | |- never_throws (set_prop _ _) => apply never_throws_modify_heap
  | |- never_throws (addChild _ _) => apply never_throws_modify_heap
  | |- never_throws (new_obj _) => apply never_throws_new_obj
  | |- never_throws (getAttachment _) => apply never_throws_getAttachment
  | |- never_throws get_attachments => apply never_throws_get_attachments
  | |- never_throws (when _ _) => apply never_throws_when
  | |- never_throws (for_each _ _) => apply never_throws_for_each; intros; cbv beta
  | |- never_throws (for_loop _ _ _ _ _ _) => apply never_throws_for_loop; intros; cbv beta
  | |- never_throws (if ?b then _ else _) => destruct b
  | |- never_throws (match ?x with _ => _ end) => destruct x
  | |- never_throws (let _ := _ in _) => cbv zeta
  end.

Lemma never_throws_after_read_spine {B} spine (k : SpineBase -> M B) st sp :
  spine_at (heap st) spine = Some sp ->
  (forall sp, never_throws (k sp)) ->
  exists b, snd (bind (read_spine spine) k st) = Normal b.
Proof. intros Hsp Hk. rewrite (bind_read_spine _ _ _ _ Hsp). apply Hk. Qed.


(** ** The error of the bounding boxes *)

Lemma spine_at_add_cmd c g h o : spine_at (alter (add_cmd c) g h) o = spine_at h o.
Proof.
  unfold spine_at. rewrite list_lookup_alter.
  destruct (decide (g = o)) as [->|]; [|reflexivity].
  destruct (h !! o) as [obj|]; [|reflexivity]. cbn.
  unfold add_cmd. destruct (payload obj) eqn:E; cbn; rewrite ?E; reflexivity.
Qed.

Lemma for_each_normal {A} (l : list A) (body : A -> M unit) st :
  (forall a st0, a ∈ l -> snd (body a st0) = Normal tt) ->
  snd (for_each l body st) = Normal tt.
Proof.
  revert st. induction l as [|a l IH]; intros st Hb; simpl; [reflexivity|].
  unfold bind. pose proof (Hb a st (list_elem_of_here _ _)) as Ha.
  destruct (body a st) as [st1 r]. simpl in Ha. subst r.
  apply IH. intros a' st0 Hin. apply Hb. apply list_elem_of_further, Hin.
Qed.

Lemma for_each_throws {A} (l : list A) (body : A -> M unit) (bad : A -> Prop) e st :
  (forall a st0, bad a -> snd (body a st0) = Throw e) ->
  (forall a st0, ~ bad a -> snd (body a st0) = Normal tt) ->
  (forall a, Decision (bad a)) ->
  Exists bad l -> snd (for_each l body st) = Throw e.
Proof.
  intros Hbad Hgood Hdec. revert st.
  induction l as [|a l IH]; intros st Hex; [inversion Hex|].
  simpl. unfold bind. destruct (decide (bad a)) as [Ha|Ha].
  - pose proof (Hbad a st Ha) as H.
    destruct (body a st) as [st1 r]. simpl in H. subst r. reflexivity.
  - pose proof (Hgood a st Ha) as H.
    destruct (body a st) as [st1 r]. simpl in H. subst r.
    apply IH. apply Exists_cons in Hex as [Hex|Hex]; [contradiction|exact Hex].
Qed.

(** X10: on a spine object, [drawBoundingBoxesFunc] completes normally
    when every polygon of the skeleton bounds has at least three
    coordinates, and raises the error "Polygon must contain at least 3
    vertices" when one of them has fewer: the number compared with 3 is
    the length of the polygon's array, so the error is raised for the
    polygons of one vertex or none, and a polygon of two vertices passes. *)
Theorem drawBoundingBoxesFunc_error_iff bounds this spine d lw st sp :
  spine_at (heap st) spine = Some sp ->
  let polys := polygons (bounds (skeleton sp) (attachments st)) in
  let r := snd (drawBoundingBoxesFunc bounds this spine d lw st) in
  (Forall (fun p => 3 <= length p) polys -> r = Normal tt) /\
  (Exists (fun p => length p < 3) polys ->
   r = Throw (Error "Polygon must contain at least 3 vertices")).
Proof.
  intros Hsp polys r. unfold r, drawBoundingBoxesFunc.
  rewrite bind_gfx.
  rewrite (bind_read_spine _ _ _ sp)
    by (rewrite heap_with_heap, spine_at_add_cmd; exact Hsp).
  unfold bind at 1, get_attachments at 1. cbv beta iota zeta.
  cbn [attachments with_heap]. rewrite bind_gfx. fold polys.
  split.
  - intros Hall. apply for_each_normal. intros p st0 Hp.
    apply drawPolygon_count_ge_3. eapply Forall_forall in Hall; eauto.
  - intros Hex.
    apply (for_each_throws _ _ (fun p => length p < 3)); [| |intros; exact _|exact Hex].
    + intros p st0 Hp. apply drawPolygon_count_lt_3. exact Hp.
    + intros p st0 Hp. apply drawPolygon_count_ge_3. lia.
Qed.

Lemma drawBoundingBoxesFunc_error_iff_witness :
  snd (drawBoundingBoxesFunc sample_bounds default_config 0 sample_entry 1%float
         (sample_registered [Some 1; Some 2])) = Normal tt.
Proof.
  destruct (drawBoundingBoxesFunc_error_iff sample_bounds default_config 0 sample_entry
              1%float (sample_registered [Some 1; Some 2])
              (mkSpine 1%float 1%float (sample_skeleton [Some 1; Some 2])))
    as [Hok _].
  - reflexivity.
  - apply Hok. repeat constructor; simpl; lia.
Defined.

Lemma for_each_app_normal {A} (l1 l2 : list A) (body : A -> M unit) st :
  snd (for_each l1 body st) = Normal tt ->
  for_each (l1 ++ l2) body st = for_each l2 body (fst (for_each l1 body st)).
Proof.
  revert st. induction l1 as [|a l1 IH]; intros st; simpl; [reflexivity|].
  unfold bind. destruct (body a st) as [st1 [[]|e]]; [|discriminate].
  apply IH.
Qed.

Lemma is_graphics_only_grows st st' g :
  lift_heap_rel only_grows st st' -> is_graphics (heap st) g -> is_graphics (heap st') g.
Proof.
  intros Hrel (obj & cs & Hobj & Hcs).
  destruct (Hrel g obj Hobj) as (obj' & Hobj' & _ & Hg).
  destruct (Hg cs Hcs) as [cs' Hcs']. exists obj'. eauto.
Qed.

(** X11: when [drawBoundingBoxesFunc] raises its error, the polygons that
    come before the short one have been drawn, and the graphic of the
    polygons is left with the style call and the [beginFill] of the short
    polygon as its last calls: the fill that was begun is not ended, and
    the polygons that follow are not drawn. *)
Theorem drawBoundingBoxesFunc_error_state bounds this spine d lw st sp pre p post :
  spine_at (heap st) spine = Some sp ->
  polygons (bounds (skeleton sp) (attachments st)) = pre ++ p :: post ->
  Forall (fun q => 3 <= length q) pre ->
  length p < 3 ->
  is_graphics (heap st) (boundingBoxesPolygon d) ->
  let r := drawBoundingBoxesFunc bounds this spine d lw st in
  snd r = Throw (Error "Polygon must contain at least 3 vertices") /\
  exists cs,
    commands_of (heap (fst r)) (boundingBoxesPolygon d) =
    cs ++ [style lw (boundingBoxesPolygonColor this) 1;
           BeginFill (Some (boundingBoxesPolygonColor this)) (Some 0.1%float)].
Proof.
  intros Hsp Hpolys Hpre Hp Hg r.
  set (body := fun polygon : list number =>
                 drawPolygon this d lw polygon 0 (length polygon)).
  assert (Hunf : exists st0,
            r = for_each (pre ++ p :: post) body st0 /\
            is_graphics (heap st0) (boundingBoxesPolygon d)).
  { unfold r, drawBoundingBoxesFunc.
    rewrite bind_gfx.
    rewrite (bind_read_spine _ _ _ sp)
      by (rewrite heap_with_heap, spine_at_add_cmd; exact Hsp).
    unfold bind at 1, get_attachments at 1. cbv beta iota zeta.
    cbn [attachments with_heap]. rewrite bind_gfx. rewrite Hpolys.
    eexists. split; [reflexivity|].
    cbn [heap with_heap].
    repeat (apply is_graphics_alter; [apply add_cmd_graphics|]). exact Hg. }
  destruct Hunf as (st0 & -> & Hg0).
  assert (Hprenormal : snd (for_each pre body st0) = Normal tt).
  { apply for_each_normal. intros q st1 Hq. apply drawPolygon_count_ge_3.
    eapply Forall_forall in Hpre; eauto. }
  rewrite (for_each_app_normal pre (p :: post) body st0 Hprenormal).
  set (st1 := fst (for_each pre body st0)).
  assert (Hg1 : is_graphics (heap st1) (boundingBoxesPolygon d)).
  { apply (is_graphics_only_grows st0); [|exact Hg0].
    apply (stable_for_each (lift_heap_rel only_grows)). intros q.
    apply (@stable_drawPolygon (lift_heap_rel only_grows) _ (fun _ => True));
      auto using grows_gfx. }
  assert (Hrun : for_each (p :: post) body st1 =
            (with_heap
               (alter (add_cmd (BeginFill (Some (boundingBoxesPolygonColor this))
                                          (Some 0.1%float)))
                  (boundingBoxesPolygon d)
                  (alter (add_cmd (style lw (boundingBoxesPolygonColor this) 1))
                     (boundingBoxesPolygon d) (heap st1))) st1,
             Throw (Error "Polygon must contain at least 3 vertices"))).
  { cbn [for_each]. unfold bind at 1. unfold body at 1, drawPolygon. rewrite !bind_gfx.
    apply Nat.ltb_lt in Hp. unfold bind at 1. rewrite Hp. reflexivity. }
  rewrite Hrun. cbn [fst snd]. split; [reflexivity|].
  exists (commands_of (heap st1) (boundingBoxesPolygon d)).
  rewrite heap_with_heap.
  rewrite commands_of_add_cmd
    by (apply is_graphics_alter; [apply add_cmd_graphics|exact Hg1]).
  rewrite commands_of_add_cmd by exact Hg1.
  rewrite <- app_assoc. reflexivity.
Qed.

Lemma drawBoundingBoxesFunc_error_state_witness :
  let bounds := fun (_ : Skeleton) (_ : list Attachment) =>
                  mkBounds 0%float 0%float 0%float 0%float
                           [[0; 0; 1; 0; 0; 1]; [5; 5]; [2; 2; 3; 3; 4; 4]]%float in
  snd (drawBoundingBoxesFunc bounds default_config 0 sample_entry 1%float
         (sample_registered [])) =
  Throw (Error "Polygon must contain at least 3 vertices").
Proof.
  intros bounds.
  destruct (drawBoundingBoxesFunc_error_state bounds default_config 0 sample_entry
              1%float (sample_registered [])
              (mkSpine 1%float 1%float (sample_skeleton []))
              [[0; 0; 1; 0; 0; 1]]%float [5; 5]%float [[2; 2; 3; 3; 4; 4]]%float)
    as [Hthrow _].
  - reflexivity.
  - reflexivity.
  - repeat constructor.
  - simpl. lia.
  - eexists _, _. split; reflexivity.
  - exact Hthrow.
Defined.

(** ** The region attachments *)

Lemma drawRegionSlot_skip d slot st :
  region_of (attachments st) slot = None ->
  drawRegionSlot d slot st = (st, Normal tt).
Proof.
  unfold region_of, drawRegionSlot, bind, getAttachment. intros H.
  destruct (slot_attachment slot) as [a|]; [|reflexivity].
  destruct (attachments st !! a) as [att|]; [|reflexivity].
  destruct (AttachmentType_eqb (att_type (att_data att)) Region); [discriminate|].
  reflexivity.
Qed.

Lemma for_each_skip {A} (l : list A) (body : A -> M unit) st :
  Forall (fun a => body a st = (st, Normal tt)) l ->
  for_each l body st = (st, Normal tt).
Proof.
  induction 1 as [|a l Ha _ IH]; simpl; [reflexivity|].
  unfold bind. rewrite Ha. exact IH.
Qed.

(** X12: [regionAttachment?.updateOffset()] calls the method whenever the
    attachment is there, so a region attachment without an [updateOffset]
    method makes [drawRegionAttachmentsFunc] fail: at the first slot that
    holds a region attachment, if that attachment has no such method, a
    [TypeError] is raised, and all that the function has done is the style
    call on the graphic of the regions. *)
Theorem drawRegionAttachmentsFunc_missing_updateOffset
        this spine d lw st sp pre slot post a att :
  spine_at (heap st) spine = Some sp ->
  sk_slots (skeleton sp) = pre ++ slot :: post ->
  Forall (fun s => region_of (attachments st) s = None) pre ->
  region_of (attachments st) slot = Some (a, att) ->
  updateOffset att = None ->
  drawRegionAttachmentsFunc this spine d lw st =
  (with_heap (alter (add_cmd (style lw (regionAttachmentsColor this) 1))
                    (regionAttachmentsShape d) (heap st)) st,
   Throw (TypeError "regionAttachment.updateOffset is not a function")).
Proof.
  intros Hsp Hslots Hpre Hslot Hno.
  unfold drawRegionAttachmentsFunc.
  rewrite (bind_read_spine _ _ _ sp Hsp). cbv zeta. rewrite bind_gfx, Hslots.
  set (st0 := with_heap _ st).
  assert (Hpre0 : for_each pre (drawRegionSlot d) st0 = (st0, Normal tt)).
  { apply for_each_skip. eapply Forall_impl; [exact Hpre|].
    intros s Hs. apply drawRegionSlot_skip. exact Hs. }
  rewrite for_each_app_normal by (rewrite Hpre0; reflexivity).
  rewrite Hpre0. cbn [fst for_each]. unfold bind at 1.
  assert (Hrun : drawRegionSlot d slot st0 =
            (st0, Throw (TypeError "regionAttachment.updateOffset is not a function"))).
  { unfold region_of in Hslot. unfold drawRegionSlot, bind, getAttachment.
    change (attachments st0) with (attachments st).
    destruct (slot_attachment slot) as [a'|]; [|discriminate].
    destruct (attachments st !! a') as [att'|]; [|discriminate].
    destruct (AttachmentType_eqb (att_type (att_data att')) Region); [|discriminate].
    injection Hslot as -> ->. cbn. unfold call_updateOffset. rewrite Hno. reflexivity. }
  rewrite Hrun. reflexivity.
Qed.

Lemma drawRegionAttachmentsFunc_missing_updateOffset_witness :
  let atts := [sample_mesh;
               mkAttachment (att_data sample_region) region_vertices None] in
  let st := with_heap (heap (sample_registered [Some 0; Some 1]))
                      (new_renderer [] atts) in
  snd (drawRegionAttachmentsFunc default_config 0 sample_entry 1%float st) =
  Throw (TypeError "regionAttachment.updateOffset is not a function").
Proof.
  intros atts st.
  rewrite (drawRegionAttachmentsFunc_missing_updateOffset default_config 0 sample_entry
             1%float st (mkSpine 1%float 1%float (sample_skeleton [Some 0; Some 1]))
             [mkSlot hip_bone (Some 0)] (mkSlot hip_bone (Some 1)) [] 1
             (mkAttachment (att_data sample_region) region_vertices None)).
  - reflexivity.
  - reflexivity.
  - reflexivity.
  - repeat constructor.
  - reflexivity.
  - reflexivity.
Defined.

#[global] Instance keeps_eight_numbers_preorder g : PreOrder (keeps_eight_numbers g).
Proof.
  split.
  - intros st H. exact H.
  - intros st1 st2 st3 H12 H23 H. auto.
Qed.

Lemma commands_of_add_cmd_cases c g (h : Heap) x :
  commands_of (alter (add_cmd c) g h) x = commands_of h x \/
  commands_of (alter (add_cmd c) g h) x = commands_of h x ++ [c].
Proof.
  unfold commands_of. rewrite list_lookup_alter.
  destruct (decide (g = x)) as [->|]; [|auto].
  destruct (h !! x) as [obj|]; [|auto]. cbn.
  unfold add_cmd. destruct (payload obj) eqn:E; cbn; rewrite ?E; auto.
Qed.

Lemma keeps_eight_numbers_gfx g x c :
  eight_numbers c -> stable (keeps_eight_numbers g) (gfx x c).
Proof.
  intros Hc st H. cbn [fst gfx modify_heap heap].
  destruct (commands_of_add_cmd_cases c x (heap st) g) as [-> | ->]; [exact H|].
  apply Forall_app. split; [exact H|]. constructor; [exact Hc|constructor].
Qed.

Lemma keeps_eight_numbers_same_heap {A} g (m : M A) :
  (forall st, heap (fst (m st)) = heap st) -> stable (keeps_eight_numbers g) m.
Proof. intros Hm st. unfold keeps_eight_numbers. rewrite Hm. auto. Qed.

Lemma length_Float32Array_after n w : length (Float32Array_after n w) = n.
Proof.
  unfold Float32Array_after. rewrite length_take, length_app, length_replicate. lia.
Qed.

(** X13: every polygon that [drawRegionAttachmentsFunc] draws has eight
    numbers, the four corners of a region, whatever [computeWorldVertices]
    wrote into the buffer: the buffer is a [Float32Array] of length 8, of
    which the first eight places are passed on.  This holds however the
    function completes. *)
Theorem region_polygons_have_eight_numbers this spine d lw st :
  let g := regionAttachmentsShape d in
  Forall eight_numbers (commands_of (heap st) g) ->
  Forall eight_numbers
         (commands_of (heap (fst (drawRegionAttachmentsFunc this spine d lw st))) g).
Proof.
  intros g. revert st.
  change (stable (keeps_eight_numbers g) (drawRegionAttachmentsFunc this spine d lw)).
  unfold drawRegionAttachmentsFunc.
  apply stable_bind; [exact _|apply stable_read_spine; exact _|intros sp; cbv zeta].
  apply stable_bind; [exact _|apply keeps_eight_numbers_gfx; exact I|intros _].
  apply stable_for_each; [exact _|intros slot].
  unfold drawRegionSlot.
  apply stable_bind; [exact _|apply stable_getAttachment; exact _|intros [[a att]|]];
    [|apply stable_ret; exact _].
  destruct (negb _); [apply stable_ret; exact _|].
  apply stable_bind; [exact _| |intros att'; cbv zeta].
  - apply keeps_eight_numbers_same_heap. intros st. unfold call_updateOffset.
    destruct (updateOffset att); reflexivity.
  - apply keeps_eight_numbers_gfx. eexists. split; [reflexivity|].
    rewrite length_take, length_Float32Array_after. reflexivity.
Qed.

Lemma region_polygons_have_eight_numbers_witness :
  Forall eight_numbers
         (commands_of
            (heap (fst (drawRegionAttachmentsFunc default_config 0 sample_entry 1%float
                          (sample_registered [Some 0]))))
            (regionAttachmentsShape sample_entry)).
Proof.
  apply (region_polygons_have_eight_numbers default_config 0 sample_entry 1%float
           (sample_registered [Some 0])).
  constructor.
Defined.

(** ** Slots on inactive bones *)

(** X14: the paths, the clipping polygons and the meshes of slots whose
    bone is not active are skipped.  On a skeleton all of whose slots sit on
    inactive bones, each of the three functions issues its style calls and
    nothing else; no attachment is looked at. *)
Theorem inactive_bones_skipped refused this spine d lw st sp :
  spine_at (heap st) spine = Some sp ->
  Forall (fun slot => bone_active (slot_bone slot) = false) (sk_slots (skeleton sp)) ->
  drawPathsFunc refused this spine d lw st =
    (gfx (pathsCurve d) (style lw (pathsCurveColor this) 1) >>
     gfx (pathsLine d) (style lw (pathsLineColor this) 1)) st /\
  drawClippingFunc refused this spine d lw st =
    gfx (clippingPolygon d) (style lw (clippingPolygonColor this) 1) st /\
  drawMeshHullAndMeshTriangles refused this spine d lw st =
    (gfx (meshHullLine d) (style lw (meshHullColor this) 1) >>
     gfx (meshTrianglesLine d) (style lw (meshTrianglesColor this) 1)) st.
Proof.
  intros Hsp Hall.
  assert (Hskip : forall (body : Slot -> M unit) st0,
            (forall slot st1, bone_active (slot_bone slot) = false ->
                              body slot st1 = (st1, Normal tt)) ->
            for_each (sk_slots (skeleton sp)) body st0 = (st0, Normal tt)).
  { intros body st0 Hbody. apply for_each_skip.
    eapply Forall_impl; [exact Hall|]. intros slot Hs. apply Hbody, Hs. }
  split; [|split].
  - unfold drawPathsFunc. rewrite (bind_read_spine _ _ _ sp Hsp). cbv zeta.
    rewrite !bind_gfx. rewrite Hskip; [reflexivity|].
    intros slot st1 Hs. unfold drawPathSlot. rewrite Hs. reflexivity.
  - unfold drawClippingFunc. rewrite (bind_read_spine _ _ _ sp Hsp). cbv zeta.
    rewrite bind_gfx, gfx_run. rewrite Hskip; [reflexivity|].
    intros slot st1 Hs. unfold drawClippingSlot. rewrite Hs. reflexivity.
  - unfold drawMeshHullAndMeshTriangles. rewrite (bind_read_spine _ _ _ sp Hsp).
    cbv zeta. rewrite !bind_gfx. rewrite Hskip; [reflexivity|].
    intros slot st1 Hs. unfold drawMeshSlot. rewrite Hs. reflexivity.
Qed.

Lemma inactive_bones_skipped_witness :
  let sk := mkSkeleton 0%float 0%float []
                        [mkSlot (mkBone hip_data identity_matrix false) (Some 3)] in
  let st := registered 0 (new_renderer [new_object (PSpine (mkSpine 1%float 1%float sk))]
                                       sample_attachments) in
  commands_of
    (heap (fst (drawMeshHullAndMeshTriangles sample_refused default_config 0 sample_entry
                                              1%float st)))
    (meshTrianglesLine sample_entry) =
  [style 1 (meshTrianglesColor default_config) 1].
Proof.
  intros sk st.
  destruct (inactive_bones_skipped sample_refused default_config 0 sample_entry 1%float st
              (mkSpine 1%float 1%float sk)) as (_ & _ & H).
  - reflexivity.
  - repeat constructor.
  - rewrite H. reflexivity.
Defined.

(** X15: the region attachments are drawn whether or not the bone of the
    slot is active: [drawRegionAttachmentsFunc] has no test of
    [slot.bone.active].  Whatever the bone of a slot that holds a region
    attachment with an [updateOffset] method, the slot is drawn: the method
    is called, the attachment it leaves replaces the former one, and one
    polygon of the corners it computes is added to the graphic. *)
Theorem region_slot_drawn_on_any_bone d slot st a att f :
  region_of (attachments st) slot = Some (a, att) ->
  updateOffset att = Some f ->
  is_graphics (heap st) (regionAttachmentsShape d) ->
  let att' := mkAttachment (f (att_data att)) (computeWorldVertices att) (Some f) in
  let corners :=
    take 8 (Float32Array_after 8
              (computeWorldVertices att (f (att_data att)) (slot_bone slot) 8)) in
  let st' := fst (drawRegionSlot d slot st) in
  snd (drawRegionSlot d slot st) = Normal tt /\
  attachments st' = <[a := att']> (attachments st) /\
  commands_of (heap st') (regionAttachmentsShape d) =
    commands_of (heap st) (regionAttachmentsShape d) ++ [DrawPolygon (map Some corners)].
Proof.
  intros Hslot Hf Hg att' corners st'. unfold st'.
  unfold region_of in Hslot. unfold drawRegionSlot, bind, getAttachment.
  destruct (slot_attachment slot) as [a0|]; [|discriminate].
  destruct (attachments st !! a0) as [att0|]; [|discriminate].
  destruct (AttachmentType_eqb (att_type (att_data att0)) Region); [|discriminate].
  injection Hslot as -> ->. cbn. unfold call_updateOffset. rewrite Hf. cbn.
  split; [reflexivity|]. split; [reflexivity|].
  apply commands_of_add_cmd. exact Hg.
Qed.

Lemma region_slot_drawn_on_any_bone_witness :
  let slot := mkSlot (mkBone hip_data identity_matrix false) (Some 0) in
  snd (drawRegionSlot sample_entry slot (sample_registered [])) = Normal tt.
Proof.
  intros slot.
  apply (region_slot_drawn_on_any_bone sample_entry slot (sample_registered [])
           0 sample_region region_updateOffset).
  - reflexivity.
  - reflexivity.
  - eexists _, _. split; reflexivity.
Defined.

(** ** A bone without length *)

(** X16: a bone whose segment ends where it starts, at a finite position,
    adds nothing: the body of the loop of [drawBonesFunc] goes on to the
    next bone without creating a graphic, whatever the name and the parent
    of the bone. *)
Theorem drawBone_zero_length acos this d lw scale skx sky bone st :
  bone_end skx sky bone = bone_start skx sky bone ->
  PrimFloat.is_finite (fst (bone_start skx sky bone)) = true ->
  PrimFloat.is_finite (snd (bone_start skx sky bone)) = true ->
  drawBone acos this d lw scale skx sky bone st = (st, Normal tt).
Proof.
  intros Heq Hx Hy. apply drawBone_skip.
  unfold bone_end, bone_start in *. simpl in *. injection Heq as Hex Hey.
  unfold bone_has_graphic, bone_c. rewrite Hex, Hey.
  rewrite (finite_sub_self _ Hx), (finite_sub_self _ Hy).
  apply andb_false_r.
Qed.

Lemma drawBone_zero_length_witness :
  drawBone sample_acos default_config sample_entry 1%float 1%float 0%float 0%float
           tip_bone (sample_registered []) =
  (sample_registered [], Normal tt).
Proof.
  apply (drawBone_zero_length sample_acos default_config sample_entry 1%float 1%float
           0%float 0%float tip_bone (sample_registered [])); reflexivity.
Defined.

(** ** A frame with every category off *)

(** X17: with the seven toggles off, a frame on a registered spine object
    is the clearing and nothing else: [renderDebug] does what its ten
    [clear()] calls and its loop over the children of the bones container
    do, and completes as they do. *)
Theorem renderDebug_all_off acos bounds refused this spine st d sp :
  Map_get spine (registeredSpines st) = Some d ->
  spine_at (heap st) spine = Some sp ->
  drawBones this = false -> drawPaths this = false ->
  drawBoundingBoxes this = false -> drawClipping this = false ->
  drawMeshHull this = false -> drawMeshTriangles this = false ->
  drawRegionAttachments this = false ->
  renderDebug acos bounds refused this spine st = clearDebugDisplayObjects d st.
Proof.
  intros Hget Hsp Hb Hp Hbb Hc Hh Ht Hr.
  rewrite (renderDebug_of_registered _ _ _ _ _ _ _ Hget).
  pose proof (keeps_spine_clear d st) as Hk.
  apply lift_keeps_spine_spines_kept in Hk. specialize (Hk _ _ Hsp).
  unfold bind at 1.
  destruct (clearDebugDisplayObjects d st) as [st1 [[]|e]]; [|reflexivity].
  cbn [fst] in Hk.
  rewrite drawDebugDisplayObjects_unfold, (bind_read_spine _ _ _ sp Hk).
  unfold draw_after_bones. rewrite Hb, Hp, Hbb, Hc, Hh, Ht, Hr. reflexivity.
Qed.

Lemma renderDebug_all_off_witness :
  let this := with_all_off default_config in
  snd (renderDebug sample_acos sample_bounds sample_refused this 0 sample_rendered) = Normal tt.
Proof.
  intros this.
  rewrite (renderDebug_all_off sample_acos sample_bounds sample_refused this 0 sample_rendered
             sample_entry (mkSpine 1%float 1%float (sample_skeleton sample_slots)));
    reflexivity.
Defined.

(** ** What is drawn depends on the pose only *)

Section Respects.

Variable E : St -> St -> Prop.

Lemma respects_ret {A} (x : A) : respects E (ret x).
Proof. intros a b H. split; [reflexivity|exact H]. Qed.

Lemma respects_throw {A} (e : Exn) : respects E (@throw A e).
Proof. intros a b H. split; [reflexivity|exact H]. Qed.

Lemma respects_bind {A B} (m : M A) (k : A -> M B) :
  respects E m -> (forall x, respects E (k x)) -> respects E (bind m k).
Proof.
  intros Hm Hk a b H. unfold bind. destruct (Hm a b H) as [Hr HE].
  destruct (m a) as [a1 ra], (m b) as [b1 rb]. cbn [fst snd] in *. subst rb.
  destruct ra as [x|e]; [apply Hk; exact HE|].
  split; [reflexivity|exact HE].
Qed.

Lemma respects_when (c : bool) (m : M unit) : respects E m -> respects E (when c m).
Proof. destruct c; simpl; auto using respects_ret. Qed.

Lemma respects_for_each {A} (l : list A) (body : A -> M unit) :
  (forall x, respects E (body x)) -> respects E (for_each l body).
Proof.
  intros Hb. induction l as [|x l IH]; simpl.
  - apply respects_ret.
  - apply respects_bind; auto.
Qed.

Lemma respects_new_Float32Array refused n : respects E (new_Float32Array refused n).
Proof.
  unfold new_Float32Array. destruct (refused n); [apply respects_throw|apply respects_ret].
Qed.

Lemma respects_for_loop {S} fuel n step (body : Z -> S -> M S) i s :
  (forall i s, respects E (body i s)) -> respects E (for_loop fuel n step body i s).
Proof.
  intros Hb. revert i s. induction fuel as [|fuel IH]; intros i s; simpl.
  - apply respects_ret.
  - destruct (i <? n)%Z; [|apply respects_ret].
    apply respects_bind; auto.
Qed.

End Respects.

Ltac respects_step :=
  lazymatch goal with
  | |- respects _ (ret _) => apply respects_ret
  | |- respects _ (throw _) => apply respects_throw
  | |- respects _ (new_Float32Array _ _) => apply respects_new_Float32Array
  | |- respects _ (bind _ _) => apply respects_bind; [|intros; cbv beta]
  | |- respects _ (when _ _) => apply respects_when
  | |- respects _ (for_each _ _) => apply respects_for_each; intros; cbv beta
  | |- respects _ (for_loop _ _ _ _ _ _) => apply respects_for_loop; intros; cbv beta
  | |- respects _ (if ?b then _ else _) => destruct b
  | |- respects _ (match ?x with _ => _ end) => destruct x
  | |- respects _ (let _ := _ in _) => cbv zeta
  end.

Section SameView.

Variable SkeletonBounds_update : Skeleton -> list Attachment -> SkeletonBounds.
Variable Float32Array_refused : nat -> option string.
Variable this : Config.
Variable spine : oid.
Variable G : list oid.

Local Abbreviation view := (same_view spine G).

Lemma view_gfx g c : g ∈ G -> respects view (gfx g c).
Proof.
  intros Hg a b (Hatt & Hsp & Hsame). split; [reflexivity|].
  cbn [fst gfx modify_heap]. split; [exact Hatt|]. cbn [heap].
  split; [rewrite !spine_at_add_cmd; exact Hsp|].
  intros x Hx. destruct (Hsame x Hx) as (Ha & Hb & Hc).
  split; [apply is_graphics_alter; [apply add_cmd_graphics|exact Ha]|].
  split; [apply is_graphics_alter; [apply add_cmd_graphics|exact Hb]|].
  destruct (decide (g = x)) as [->|Hne].
  - rewrite !commands_of_add_cmd by assumption. rewrite Hc. reflexivity.
  - rewrite !commands_of_alter_ne by exact Hne. exact Hc.
Qed.

Lemma view_read_spine : respects view (read_spine spine).
Proof.
  intros a b H. pose proof H as (_ & Hsp & _). unfold read_spine. rewrite Hsp.
  destruct (spine_at (heap b) spine); (split; [reflexivity|exact H]).
Qed.

Lemma view_get_attachments : respects view get_attachments.
Proof.
  intros a b H. pose proof H as (Hatt & _). unfold get_attachments. cbn.
  rewrite Hatt. split; [reflexivity|exact H].
Qed.

Lemma view_getAttachment slot : respects view (getAttachment slot).
Proof.
  intros a b H. pose proof H as (Hatt & _). unfold getAttachment. cbn.
  rewrite Hatt. split; [reflexivity|exact H].
Qed.

Lemma view_updateOffset x att : respects view (call_updateOffset x att).
Proof.
  intros a b H. unfold call_updateOffset.
  destruct (updateOffset att) as [f|]; [|split; [reflexivity|exact H]].
  destruct H as (Hatt & Hsp & Hsame).
  unfold bind, modify_attachments, ret. cbn. split; [reflexivity|].
  split; [rewrite Hatt; reflexivity|]. split; assumption.
Qed.

Ltac view_step :=
  lazymatch goal with
  | |- respects _ (gfx _ _) => apply view_gfx; assumption
  | |- respects _ (read_spine _) => apply view_read_spine
  | |- respects _ get_attachments => apply view_get_attachments
  | |- respects _ (getAttachment _) => apply view_getAttachment
  | |- respects _ (call_updateOffset _ _) => apply view_updateOffset
  | |- _ => respects_step
  end.

Lemma view_drawPathsFunc d lw :
  pathsCurve d ∈ G -> pathsLine d ∈ G ->
  respects view (drawPathsFunc Float32Array_refused this spine d lw).
Proof.
  intros H1 H2.
  unfold drawPathsFunc, drawPathSlot, drawPathCurve, drawPathSegment.
  repeat view_step.
Qed.

Lemma view_drawPolygonNodes d dot vs paths :
  boundingBoxesCircle d ∈ G ->
  respects view (drawPolygonNodes this d dot vs paths).
Proof.
  intros H1.
  revert paths. induction vs as [vs IH] using (induction_ltof1 _ (@length _)).
  unfold ltof in IH. intros paths.
  destruct vs as [|x1 [|y1 rest]]; simpl; unfold drawPolygonNode; repeat view_step.
  apply IH. simpl. lia.
Qed.

Lemma view_drawBoundingBoxesFunc d lw :
  boundingBoxesRect d ∈ G -> boundingBoxesCircle d ∈ G ->
  boundingBoxesPolygon d ∈ G ->
  respects view (drawBoundingBoxesFunc SkeletonBounds_update this spine d lw).
Proof.
  intros H1 H2 H3. unfold drawBoundingBoxesFunc, drawPolygon.
  repeat first [ apply view_drawPolygonNodes; assumption | view_step ].
Qed.

Lemma view_drawClippingFunc d lw :
  clippingPolygon d ∈ G -> respects view (drawClippingFunc Float32Array_refused this spine d lw).
Proof. intros H1. unfold drawClippingFunc, drawClippingSlot. repeat view_step. Qed.

Lemma view_drawTriangles d vertices ts :
  meshTrianglesLine d ∈ G -> respects view (drawTriangles d vertices ts).
Proof.
  intros H1.
  induction ts as [ts IH] using (induction_ltof1 _ (@length _)).
  unfold ltof in IH.
  destruct ts as [|t1 [|t2 [|t3 rest]]]; simpl; unfold drawTriangle; repeat view_step.
  apply IH. simpl. lia.
Qed.

Lemma view_drawMeshHullAndMeshTriangles d lw :
  meshHullLine d ∈ G -> meshTrianglesLine d ∈ G ->
  respects view (drawMeshHullAndMeshTriangles Float32Array_refused this spine d lw).
Proof.
  intros H1 H2. unfold drawMeshHullAndMeshTriangles, drawMeshSlot, drawHullSegment.
  repeat first [ apply view_drawTriangles; assumption | view_step ].
Qed.

Lemma view_drawRegionAttachmentsFunc d lw :
  regionAttachmentsShape d ∈ G ->
  respects view (drawRegionAttachmentsFunc this spine d lw).
Proof.
  intros H1. unfold drawRegionAttachmentsFunc, drawRegionSlot. repeat view_step.
Qed.

End SameView.

Lemma view_draw_after_bones bounds refused this spine d lw :
  respects (same_view spine (surfaces d)) (draw_after_bones bounds refused this spine d lw).
Proof.
  assert (Hin : forall g, g ∈ surfaces d <->
            g = skeletonXY d \/ g = regionAttachmentsShape d \/
            g = meshTrianglesLine d \/ g = meshHullLine d \/ g = clippingPolygon d \/
            g = boundingBoxesRect d \/ g = boundingBoxesCircle d \/
            g = boundingBoxesPolygon d \/ g = pathsCurve d \/ g = pathsLine d)
    by (intros g; apply elem_of_surfaces).
  unfold draw_after_bones.
  repeat lazymatch goal with
  | |- respects _ (drawPathsFunc _ _ _ _ _) =>
      apply view_drawPathsFunc; apply Hin; tauto
  | |- respects _ (drawBoundingBoxesFunc _ _ _ _ _) =>
      apply view_drawBoundingBoxesFunc; apply Hin; tauto
  | |- respects _ (drawClippingFunc _ _ _ _ _) =>
      apply view_drawClippingFunc; apply Hin; tauto
  | |- respects _ (drawMeshHullAndMeshTriangles _ _ _ _ _) =>
      apply view_drawMeshHullAndMeshTriangles; apply Hin; tauto
  | |- respects _ (drawRegionAttachmentsFunc _ _ _ _) =>
      apply view_drawRegionAttachmentsFunc; apply Hin; tauto
  | |- _ => respects_step
  end.
Qed.

Lemma keeps_spine_drawBonesFunc acos this spine d lw scale :
  stable (lift_heap_rel keeps_spine) (drawBonesFunc acos this spine d lw scale).
Proof.
  assert (Hgfx : forall g c, stable (lift_heap_rel keeps_spine) (gfx g c)).
  { intros g c. apply lift_gfx; [exact _|]. apply keeps_spine_add_cmd. }
  apply (stable_drawBonesFunc acos (lift_heap_rel keeps_spine) (fun _ => True));
    auto; try exact _;
    try (intros; apply lift_set_prop; [exact _|]; intros o;
         apply keeps_spine_same_payload; reflexivity).
  - intros. apply lift_new_obj. exact _.
  - intros. apply lift_addChild; try exact _; intros;
      apply keeps_spine_same_payload; reflexivity.
Qed.

(** The bones: what [drawBonesFunc] leaves on the ten graphics does not
    depend on the rest of the scene. *)
Lemma view_drawBonesFunc acos this spine d lw scale sp a b :
  NoDup (surfaces d) -> bones d ∉ surfaces d ->
  bones d < length (heap a) -> bones d < length (heap b) ->
  spine_at (heap a) spine = Some sp -> spine_at (heap b) spine = Some sp ->
  same_view spine (surfaces d) a b ->
  snd (drawBonesFunc acos this spine d lw scale a) = Normal tt /\
  snd (drawBonesFunc acos this spine d lw scale b) = Normal tt /\
  same_view spine (surfaces d) (fst (drawBonesFunc acos this spine d lw scale a))
                               (fst (drawBonesFunc acos this spine d lw scale b)).
Proof.
  intros Hnd Hbs Hba Hbb Hspa Hspb (Hatt & _ & Hsame).
  assert (HX : skeletonXY d ∈ surfaces d) by apply list_elem_of_here.
  assert (Hside : forall st, bones d < length (heap st) ->
            spine_at (heap st) spine = Some sp ->
            (forall g, g ∈ surfaces d -> is_graphics (heap st) g) ->
            let st' := fst (drawBonesFunc acos this spine d lw scale st) in
            snd (drawBonesFunc acos this spine d lw scale st) = Normal tt /\
            attachments st' = attachments st /\
            spine_at (heap st') spine = Some sp /\
            forall g, g ∈ surfaces d ->
              is_graphics (heap st') g /\
              commands_of (heap st') g =
              if decide (g = skeletonXY d)
              then commands_of (heap st) g
                   ++ LineStyle (Some lw) (Some (skeletonXYColor this)) (Some 1%float)
                   :: skeletonXY_marker lw (sk_x (skeleton sp)) (sk_y (skeleton sp))
              else commands_of (heap st) g).
  { intros st Hb Hsp Hgr st'.
    destruct (drawBonesFunc_run acos this spine d lw scale st sp Hsp Hb)
      as (os & Hrun & _).
    split; [rewrite Hrun; reflexivity|].
    split; [unfold st'; rewrite Hrun; reflexivity|].
    split.
    { pose proof (keeps_spine_drawBonesFunc acos this spine d lw scale st) as Hk.
      apply lift_keeps_spine_spines_kept in Hk. apply Hk, Hsp. }
    intros g Hg. split.
    { apply (is_graphics_only_grows st); [|apply Hgr, Hg].
      apply grows_drawBonesFunc. }
    destruct (decide (g = skeletonXY d)) as [->|Hne].
    - apply (drawBonesFunc_commands acos this spine d lw scale st sp Hsp Hb).
      apply Hgr, HX.
    - unfold commands_of, st'.
      rewrite (drawBonesFunc_untouched acos this spine d lw scale st sp g Hsp Hb);
        [reflexivity| |exact Hne|].
      + apply is_graphics_lt, Hgr, Hg.
      + intros ->. contradiction. }
  destruct (Hside a Hba Hspa) as (Hna & Hatta & Hspa' & Hga).
  { intros g Hg. apply (Hsame g Hg). }
  destruct (Hside b Hbb Hspb) as (Hnb & Hattb & Hspb' & Hgb).
  { intros g Hg. apply (Hsame g Hg). }
  split; [exact Hna|]. split; [exact Hnb|].
  split; [congruence|]. split; [congruence|].
  intros g Hg. destruct (Hga g Hg) as [Hia Hca], (Hgb g Hg) as [Hib Hcb].
  split; [exact Hia|]. split; [exact Hib|].
  rewrite Hca, Hcb. destruct (Hsame g Hg) as (_ & _ & ->). reflexivity.
Qed.

Lemma bind_pair {A B} (E : St -> St -> Prop) (m : M A) (k : A -> M B) x a b :
  snd (m a) = Normal x -> snd (m b) = Normal x ->
  E (fst (m a)) (fst (m b)) -> respects E (k x) ->
  snd (bind m k a) = snd (bind m k b) /\
  E (fst (bind m k a)) (fst (bind m k b)).
Proof.
  intros Ha Hb HE Hk. unfold bind.
  destruct (m a) as [a1 ra], (m b) as [b1 rb]. cbn [fst snd] in *. subst ra rb.
  apply Hk. exact HE.
Qed.

(** From two states in which the spine is registered with the same bundle,
    holds the same scale and skeleton, and the attachments are the same, a
    frame completes in the same way and leaves states that the drawing
    functions cannot tell apart. *)
Lemma view_renderDebug acos bounds refused this spine d sp a b :
  Map_get spine (registeredSpines a) = Some d ->
  Map_get spine (registeredSpines b) = Some d ->
  entry_wf (heap a) spine d -> entry_wf (heap b) spine d ->
  spine_at (heap a) spine = Some sp -> spine_at (heap b) spine = Some sp ->
  attachments a = attachments b ->
  snd (renderDebug acos bounds refused this spine a) = snd (renderDebug acos bounds refused this spine b) /\
  same_view spine (surfaces d) (fst (renderDebug acos bounds refused this spine a))
                               (fst (renderDebug acos bounds refused this spine b)).
Proof.
  intros Hga Hgb Hwa Hwb Hspa Hspb Hatt.
  assert (Hclear : forall st, entry_wf (heap st) spine d ->
            spine_at (heap st) spine = Some sp ->
            exists hc,
              clearDebugDisplayObjects d st = (with_heap hc st, Normal tt) /\
              bones d < length hc /\
              spine_at hc spine = Some sp /\
              forall g, g ∈ surfaces d -> blank hc g /\ is_graphics hc g).
  { intros st Hwf Hsp.
    destruct (clearDebugDisplayObjects_spec d spine st Hwf)
      as (hc & Hrun & Hlen & Hsurf & _ & _).
    exists hc. split; [exact Hrun|].
    split; [rewrite Hlen; apply (entry_wf_surfaces _ _ _ Hwf)|].
    split; [|exact Hsurf].
    pose proof (keeps_spine_clear d st) as Hk. rewrite Hrun in Hk.
    apply lift_keeps_spine_spines_kept in Hk. apply (Hk _ _ Hsp). }
  destruct (Hclear a Hwa Hspa) as (ha & Hra & Hba & Hsa & Hsurfa).
  destruct (Hclear b Hwb Hspb) as (hb & Hrb & Hbb & Hsb & Hsurfb).
  assert (HE : same_view spine (surfaces d) (with_heap ha a) (with_heap hb b)).
  { split; [exact Hatt|]. split; [cbn; congruence|].
    intros g Hg. destruct (Hsurfa g Hg) as [Hb1 Hg1], (Hsurfb g Hg) as [Hb2 Hg2].
    split; [exact Hg1|]. split; [exact Hg2|]. cbn. unfold blank in *. congruence. }
  assert (Hdraw : forall st st',
            (st, st') = (with_heap ha a, with_heap hb b) ->
            snd (drawDebugDisplayObjects acos bounds refused this spine d st) =
            snd (drawDebugDisplayObjects acos bounds refused this spine d st') /\
            same_view spine (surfaces d)
              (fst (drawDebugDisplayObjects acos bounds refused this spine d st))
              (fst (drawDebugDisplayObjects acos bounds refused this spine d st'))).
  { intros st st' [= -> ->].
    rewrite drawDebugDisplayObjects_unfold.
    rewrite !(bind_read_spine _ _ _ sp) by assumption.
    destruct (entry_wf_surfaces _ _ _ Hwa) as (Hnds & Hbs & _).
    destruct (drawBones this); unfold when.
    - destruct (view_drawBonesFunc acos this spine d (frame_lineWidth this sp)
                  (frame_scale sp) sp (with_heap ha a) (with_heap hb b))
        as (Hna & Hnb & HE1); auto.
      apply (bind_pair _ _ _ tt); auto. apply view_draw_after_bones.
    - apply (bind_pair _ _ _ tt); auto. apply view_draw_after_bones. }
  rewrite (renderDebug_of_registered _ _ _ _ _ _ _ Hga).
  rewrite (renderDebug_of_registered _ _ _ _ _ _ _ Hgb).
  unfold bind. rewrite Hra, Hrb.
  exact (Hdraw _ _ eq_refl).
Qed.


(** X18: what a frame draws depends on the pose only.  From two states in
    which the spine is registered with the same bundle, holds the same
    scale and skeleton, and the attachments are the same, [renderDebug]
    completes in the same way, leaves the same attachments and leaves the
    same calls on each of the ten graphics, whatever the graphics and the
    bones container held before and whatever else the two scenes hold. *)
Theorem renderDebug_drawing_depends_on_pose acos bounds refused this spine d sp a b :
  Map_get spine (registeredSpines a) = Some d ->
  Map_get spine (registeredSpines b) = Some d ->
  entry_wf (heap a) spine d -> entry_wf (heap b) spine d ->
  spine_at (heap a) spine = Some sp -> spine_at (heap b) spine = Some sp ->
  attachments a = attachments b ->
  let ra := renderDebug acos bounds refused this spine a in
  let rb := renderDebug acos bounds refused this spine b in
  snd ra = snd rb /\
  attachments (fst ra) = attachments (fst rb) /\
  forall g, g ∈ surfaces d ->
    commands_of (heap (fst ra)) g = commands_of (heap (fst rb)) g.
Proof.
  intros Hga Hgb Hwa Hwb Hspa Hspb Hatt ra rb.
  destruct (view_renderDebug acos bounds refused this spine d sp a b)
    as (Hr & Hatt' & _ & Hsame); auto.
  split; [exact Hr|]. split; [exact Hatt'|].
  intros g Hg. apply (Hsame g Hg).
Qed.

Lemma sample_rendered_twice_wf :
  entry_wf
    (heap (fst (renderDebug sample_acos sample_bounds sample_refused default_config 0 sample_rendered)))
    0 sample_entry.
Proof.
  assert (Hwf : scene_wf
            (fst (renderDebug sample_acos sample_bounds sample_refused default_config 0 sample_rendered))).
  { apply scene_wf_renderDebug; [exact sample_rendered_scene_wf|].
    eexists. reflexivity. }
  destruct Hwf as (_ & Hent & _). apply Hent. vm_compute. reflexivity.
Qed.

Lemma renderDebug_drawing_depends_on_pose_witness :
  let r1 := renderDebug sample_acos sample_bounds sample_refused default_config 0 sample_rendered in
  let r2 := renderDebug sample_acos sample_bounds sample_refused default_config 0 (fst r1) in
  commands_of (heap (fst r1)) (meshHullLine sample_entry) =
  commands_of (heap (fst r2)) (meshHullLine sample_entry).
Proof.
  intros r1 r2.
  destruct (renderDebug_drawing_depends_on_pose sample_acos sample_bounds sample_refused default_config
              0 sample_entry (mkSpine 1%float 1%float (sample_skeleton sample_slots))
              sample_rendered (fst r1))
    as (_ & _ & H).
  - reflexivity.
  - vm_compute. reflexivity.
  - exact sample_rendered_wf.
  - exact sample_rendered_twice_wf.
  - reflexivity.
  - vm_compute. reflexivity.
  - vm_compute. reflexivity.
  - apply H. unfold surfaces. rewrite !elem_of_cons. auto.
Defined.

Lemma children_of_same_links h h' o :
  heap_rel same_links h h' -> children_of h' o = children_of h o \/ length h <= o.
Proof.
  intros Hrel. destruct (h !! o) as [obj|] eqn:Hobj.
  - left. destruct (Hrel _ _ Hobj) as (obj' & Hobj' & _ & Hc & _).
    unfold children_of. rewrite Hobj, Hobj'. exact Hc.
  - right. apply lookup_ge_None in Hobj. exact Hobj.
Qed.

(** The graphics under the bones container after a frame, however the
    frame completes: those of this frame, and no other. *)
Lemma renderDebug_bone_children acos bounds refused this spine st d sp :
  Map_get spine (registeredSpines st) = Some d ->
  entry_wf (heap st) spine d ->
  spine_at (heap st) spine = Some sp ->
  let sk := skeleton sp in
  children_of (heap (fst (renderDebug acos bounds refused this spine st))) (bones d) =
  if drawBones this
  then seq (length (heap st))
           (length (filter (fun b => bone_has_graphic (sk_x sk) (sk_y sk) b = true)
                           (sk_bones sk)))
  else [].
Proof.
  intros Hget Hwf Hsp sk.
  rewrite (renderDebug_of_registered _ _ _ _ _ _ _ Hget).
  destruct (clearDebugDisplayObjects_spec d spine st Hwf)
    as (hc & Hrun & Hlen & Hsurf & Hch & _).
  destruct (entry_wf_surfaces _ _ _ Hwf) as (_ & _ & _ & _ & _ & _ & Hblt).
  assert (Hspc : spine_at hc spine = Some sp).
  { pose proof (keeps_spine_clear d st) as Hk. rewrite Hrun in Hk.
    apply lift_keeps_spine_spines_kept in Hk. apply (Hk _ _ Hsp). }
  assert (Hafter : forall st1, bones d < length (heap st1) ->
            children_of (heap (fst (draw_after_bones bounds refused this spine d
                                      (frame_lineWidth this sp) st1))) (bones d) =
            children_of (heap st1) (bones d)).
  { intros st1 Hb.
    destruct (children_of_same_links (heap st1)
                (heap (fst (draw_after_bones bounds refused this spine d
                              (frame_lineWidth this sp) st1))) (bones d)) as [H|H];
      [apply (links_draw_after_bones bounds refused this spine d _ st1)|exact H|lia]. }
  unfold bind at 1. rewrite Hrun. cbv beta iota.
  rewrite drawDebugDisplayObjects_unfold.
  rewrite (bind_read_spine _ _ (with_heap hc st) sp) by exact Hspc.
  destruct (drawBones this); unfold when.
  - assert (Hx : skeletonXY d < length hc).
    { apply is_graphics_lt. apply (Hsurf (skeletonXY d)). apply list_elem_of_here. }
    pose proof (drawBonesFunc_children acos this spine d (frame_lineWidth this sp)
                  (frame_scale sp) (with_heap hc st) sp Hspc
                  ltac:(cbn; lia) Hx) as Hc.
    cbn [heap with_heap] in Hc. rewrite Hch, Hlen in Hc. fold sk in Hc.
    destruct (drawBonesFunc_run acos this spine d (frame_lineWidth this sp)
                (frame_scale sp) (with_heap hc st) sp Hspc ltac:(cbn; lia))
      as (os & Hb & _).
    unfold bind at 1. rewrite Hb in *. cbv beta iota. cbn [fst] in Hc.
    rewrite Hafter; [exact Hc|].
    rewrite heap_with_heap, length_foldl_add_cmd, length_app, !length_alter.
    rewrite heap_with_heap. lia.
  - unfold bind at 1, ret at 1. cbv beta iota.
    rewrite Hafter by (cbn; lia). exact Hch.
Qed.

(** X19: frames do not pile up.  When a frame on a registered spine has
    left the attachments as they were (no region attachment was changed by
    its [updateOffset]), a second frame on the same pose completes as the
    first did and leaves each of the ten graphics with the calls that the
    first frame left there, and as many graphics under the bones
    container. *)
Theorem renderDebug_twice_same_drawing acos bounds refused this spine st d sp :
  scene_wf st ->
  Map_get spine (registeredSpines st) = Some d ->
  spine_at (heap st) spine = Some sp ->
  let r1 := renderDebug acos bounds refused this spine st in
  let r2 := renderDebug acos bounds refused this spine (fst r1) in
  attachments (fst r1) = attachments st ->
  snd r2 = snd r1 /\
  attachments (fst r2) = attachments (fst r1) /\
  (forall g, g ∈ surfaces d ->
     commands_of (heap (fst r2)) g = commands_of (heap (fst r1)) g) /\
  length (children_of (heap (fst r2)) (bones d)) =
  length (children_of (heap (fst r1)) (bones d)).
Proof.
  intros Hwf Hget Hsp r1 r2 Hatt.
  pose proof Hwf as (_ & Hent & _).
  destruct (Hent _ _ Hget) as [Hd Hty].
  destruct (renderDebug_entry_kept acos bounds refused this spine st d sp Hget Hsp Hd Hty)
    as (Hmap & _ & Hd1 & _).
  fold r1 in Hmap, Hd1.
  assert (Hget1 : Map_get spine (registeredSpines (fst r1)) = Some d)
    by (rewrite Hmap; exact Hget).
  assert (Hsp1 : spine_at (heap (fst r1)) spine = Some sp)
    by (apply (spines_kept_renderDebug acos bounds refused this spine st); exact Hsp).
  destruct (view_renderDebug acos bounds refused this spine d sp (fst r1) st)
    as (Hr & Hatt' & _ & Hsame); auto.
  fold r1 r2 in Hr, Hatt', Hsame.
  split; [exact Hr|]. split; [exact Hatt'|].
  split; [intros g Hg; apply (Hsame g Hg)|].
  pose proof (renderDebug_bone_children acos bounds refused this spine _ d sp Hget1 Hd1 Hsp1)
    as H2.
  pose proof (renderDebug_bone_children acos bounds refused this spine st d sp Hget Hd Hsp)
    as H1.
  cbv zeta in H1, H2. fold r1 in H1. fold r2 in H2. rewrite H1, H2.
  destruct (drawBones this); [rewrite !length_seq|]; reflexivity.
Qed.

Lemma renderDebug_twice_same_drawing_witness :
  let r1 := renderDebug sample_acos sample_bounds sample_refused default_config 0 sample_rendered in
  let r2 := renderDebug sample_acos sample_bounds sample_refused default_config 0 (fst r1) in
  commands_of (heap (fst r2)) (regionAttachmentsShape sample_entry) =
  commands_of (heap (fst r1)) (regionAttachmentsShape sample_entry).
Proof.
  intros r1 r2.
  destruct (renderDebug_twice_same_drawing sample_acos sample_bounds sample_refused default_config 0
              sample_rendered sample_entry
              (mkSpine 1%float 1%float (sample_skeleton sample_slots)))
    as (_ & _ & H & _).
  - exact sample_rendered_scene_wf.
  - reflexivity.
  - reflexivity.
  - vm_compute. reflexivity.
  - apply H. unfold surfaces. rewrite !elem_of_cons. auto.
Defined.

(** ** A spine registered twice *)

(** X20: a second [registerSpine] on a registered spine leaks the first
    bundle.  After two registrations and one [unregisterSpine], the spine
    has no entry in the map any more, the second bundle is destroyed, and
    the container of the first bundle is still a child of the spine, not
    destroyed, with no entry of the map left to reach it. *)
Theorem double_registration_leaks spine st sp :
  spine_at (heap st) spine = Some sp ->
  NoDup (keys st) ->
  (forall c, c ∈ children_of (heap st) spine -> c < length (heap st)) ->
  let n := length (heap st) in
  let st2 := fst (registerSpine spine (fst (registerSpine spine st))) in
  let r := unregisterSpine spine st2 in
  snd r = Normal tt /\
  Map_get spine (registeredSpines (fst r)) = None /\
  is_destroyed (heap (fst r)) (n + 12) = true /\
  is_destroyed (heap (fst r)) n = false /\
  children_of (heap (fst r)) spine = children_of (heap st) spine ++ [n] /\
  exists o, heap (fst r) !! n = Some o /\ parent o = Some spine /\
            children o = bones (fresh_entry n) :: surfaces (fresh_entry n).
Proof.
  intros Hsp Hnd Hkids n st2 r.
  pose proof (spine_at_lt _ _ _ Hsp) as Hlt.
  set (st1 := registered spine st).
  assert (Hlen1 : length (heap st1) = n + 12) by apply length_registered.
  assert (Hlt1 : spine < length (heap st1)) by lia.
  assert (Hst2 : st2 = registered spine st1).
  { unfold st2. rewrite (registerSpine_registered spine st Hlt). cbn [fst].
    fold st1. rewrite (registerSpine_registered spine st1 Hlt1). reflexivity. }
  assert (Hget2 : Map_get spine (registeredSpines st2) = Some (fresh_entry (n + 12))).
  { rewrite Hst2. unfold registered at 1. cbn [registeredSpines]. rewrite Hlen1.
    apply Map_get_set. }
  destruct (registered_entry_wf spine st1 Hlt1) as (Hwf2 & _ & _).
  rewrite Hlen1, <- Hst2 in Hwf2.
  assert (Hobjs2 : entry_objects (heap st2) (fresh_entry (n + 12)) = seq (n + 12) 12).
  { rewrite Hst2, <- Hlen1. apply entry_objects_fresh. exact Hlt1. }
  pose proof (unregisterSpine_scene spine st2 _ Hget2 Hwf2) as Hscene.
  rewrite Hobjs2 in Hscene. fold r in Hscene.
  pose proof (unregisterSpine_of_registered spine st2 _ Hget2) as Hrun. fold r in Hrun.
  assert (Hn : heap (fst r) !! n = fresh_objects spine n !! 0).
  { rewrite Hscene by (rewrite elem_of_seq; lia).
    rewrite list_lookup_alter_ne by lia.
    rewrite Hst2. rewrite lookup_registered_old by lia.
    rewrite <- (Nat.add_0_r n) at 1. apply lookup_registered_new. }
  split; [rewrite Hrun; reflexivity|].
  split.
  { rewrite Hrun. cbn [fst registeredSpines]. apply Map_get_delete.
    rewrite Hst2. unfold registered. cbn [registeredSpines].
    apply Map_set_NoDup, Map_set_NoDup, Hnd. }
  split.
  { rewrite Hrun. cbn [fst heap]. change (parentDebugContainer (fresh_entry (n + 12)))
      with (n + 12).
    assert (Hl2 : length (heap st2) = S (n + 23)).
    { rewrite Hst2, length_registered, Hlen1. lia. }
    rewrite Hl2. apply heap_destroy_marks. lia. }
  split; [unfold is_destroyed; rewrite Hn; reflexivity|].
  split.
  { unfold children_of at 1.
    rewrite Hscene by (rewrite elem_of_seq; lia).
    rewrite list_lookup_alter_eq.
    change (parentDebugContainer (fresh_entry (n + 12))) with (n + 12).
    pose proof (children_of_registered spine st1 Hlt1) as Hc2.
    rewrite <- Hst2, Hlen1 in Hc2.
    pose proof (children_of_registered spine st Hlt) as Hc1. fold st1 n in Hc1.
    unfold children_of in Hc2 at 1.
    destruct (heap st2 !! spine) as [obj|]; cbn.
    - rewrite Hc2, Hc1. apply remove_first_last.
      rewrite elem_of_app, list_elem_of_singleton. intros [Hin|Heq]; [|lia].
      apply Hkids in Hin. fold n in Hin. lia.
    - symmetry in Hc2. apply app_eq_nil in Hc2 as [_ [=]]. }
  eexists. split; [exact Hn|]. split; reflexivity.
Qed.

Lemma double_registration_leaks_witness :
  let st2 := fst (registerSpine 0 (fst (registerSpine 0 (sample_world [])))) in
  children_of (heap (fst (unregisterSpine 0 st2))) 0 = [1].
Proof.
  intros st2.
  destruct (double_registration_leaks 0 (sample_world [])
              (mkSpine 1%float 1%float (sample_skeleton [])))
    as (_ & _ & _ & _ & H & _).
  - reflexivity.
  - apply NoDup_nil_2.
  - intros c Hc. apply elem_of_nil in Hc. contradiction.
  - exact H.
Defined.

(** ** The polygon of a bounding box *)

Lemma commands_of_foldl_add_cmd (cs : list GCmd) g (h : Heap) :
  is_graphics h g ->
  commands_of (foldl (fun h' c => alter (add_cmd c) g h') h cs) g = commands_of h g ++ cs.
Proof.
  revert h. induction cs as [|c cs IH]; intros h Hg; simpl.
  - rewrite app_nil_r. reflexivity.
  - rewrite IH by (apply is_graphics_alter; [apply add_cmd_graphics|exact Hg]).
    rewrite commands_of_add_cmd by exact Hg. rewrite <- app_assoc. reflexivity.
Qed.

Lemma drawPolygonNode_run this d dot x y st :
  drawPolygonNode this d dot x y st =
  (with_heap (foldl (fun h c => alter (add_cmd c) (boundingBoxesCircle d) h) (heap st)
                    [LineStyle (Some 0%float) None None;
                     BeginFill (Some (boundingBoxesCircleColor this)) None;
                     DrawCircle x y (Some dot);
                     EndFill]) st,
   Normal tt).
Proof. unfold drawPolygonNode. rewrite !bind_gfx, gfx_run. reflexivity. Qed.

Lemma drawPolygonNodes_even this d dot : forall n vs paths st,
  length vs = 2 * n ->
  drawPolygonNodes this d dot vs paths st =
  (with_heap (foldl (fun h c => alter (add_cmd c) (boundingBoxesCircle d) h) (heap st)
                    (vertex_dots (boundingBoxesCircleColor this) dot vs)) st,
   Normal (paths ++ map Some vs)).
Proof.
  induction n as [|n IH]; intros vs paths st Hlen.
  - destruct vs; [|discriminate]. cbn. rewrite app_nil_r. destruct st; reflexivity.
  - destruct vs as [|x [|y rest]]; try (cbn in Hlen; lia).
    cbn [drawPolygonNodes]. unfold bind at 1. rewrite drawPolygonNode_run.
    cbv beta iota. rewrite IH by (cbn in Hlen; lia).
    cbn [vertex_dots app foldl map heap with_heap]. rewrite with_heap_with_heap.
    rewrite <- app_assoc. reflexivity.
Qed.

(** X21: a polygon of whole vertices, three coordinates or more, is drawn
    by the inner [drawPolygon] coordinate for coordinate: the graphic of
    the polygons gets its style call, a fill and the polygon as the skeleton
    bounds hold it; the graphic of the dots gets one filled circle per
    vertex, of radius twice the line width. *)
Theorem drawPolygon_draws_polygon this d lw p st n :
  length p = 2 * n -> 3 <= length p ->
  boundingBoxesCircle d <> boundingBoxesPolygon d ->
  is_graphics (heap st) (boundingBoxesPolygon d) ->
  is_graphics (heap st) (boundingBoxesCircle d) ->
  let r := drawPolygon this d lw p 0 (length p) st in
  snd r = Normal tt /\
  commands_of (heap (fst r)) (boundingBoxesPolygon d) =
    commands_of (heap st) (boundingBoxesPolygon d)
    ++ [style lw (boundingBoxesPolygonColor this) 1;
        BeginFill (Some (boundingBoxesPolygonColor this)) (Some 0.1%float);
        DrawPolygon (map Some p);
        EndFill] /\
  commands_of (heap (fst r)) (boundingBoxesCircle d) =
    commands_of (heap st) (boundingBoxesCircle d)
    ++ vertex_dots (boundingBoxesCircleColor this) (lw * 2)%float p.
Proof.
  intros Hlen H3 Hne Hgp Hgc r.
  set (P := boundingBoxesPolygon d) in *. set (C := boundingBoxesCircle d) in *.
  set (h2 := alter (add_cmd (BeginFill (Some (boundingBoxesPolygonColor this))
                                       (Some 0.1%float))) P
               (alter (add_cmd (style lw (boundingBoxesPolygonColor this) 1)) P (heap st))).
  set (h3 := foldl (fun h c => alter (add_cmd c) C h) h2
                   (vertex_dots (boundingBoxesCircleColor this) (lw * 2)%float p)).
  assert (Hrun : r = (with_heap (alter (add_cmd EndFill) P
                                   (alter (add_cmd (DrawPolygon (map Some p))) P h3)) st,
                      Normal tt)).
  { unfold r, drawPolygon. rewrite !bind_gfx.
    apply Nat.ltb_ge in H3. rewrite H3.
    unfold bind at 1, ret at 1. cbv beta iota zeta.
    unfold bind at 1. rewrite (drawPolygonNodes_even this d _ n) by exact Hlen.
    cbv beta iota. rewrite bind_gfx, gfx_run. reflexivity. }
  rewrite Hrun. cbn [fst snd]. rewrite heap_with_heap.
  assert (Hgp2 : is_graphics h2 P).
  { unfold h2. repeat (apply is_graphics_alter; [apply add_cmd_graphics|]). exact Hgp. }
  assert (Hgc2 : is_graphics h2 C).
  { unfold h2. repeat (apply is_graphics_alter; [apply add_cmd_graphics|]). exact Hgc. }
  assert (Hgp3 : is_graphics h3 P).
  { unfold is_graphics, h3. rewrite lookup_foldl_add_cmd_ne by exact Hne. exact Hgp2. }
  split; [reflexivity|]. split.
  - rewrite commands_of_add_cmd
      by (apply is_graphics_alter; [apply add_cmd_graphics|exact Hgp3]).
    rewrite commands_of_add_cmd by exact Hgp3.
    assert (H32 : commands_of h3 P = commands_of h2 P).
    { unfold commands_of, h3. rewrite lookup_foldl_add_cmd_ne by exact Hne. reflexivity. }
    rewrite H32. unfold h2.
    rewrite commands_of_add_cmd
      by (apply is_graphics_alter; [apply add_cmd_graphics|exact Hgp]).
    rewrite commands_of_add_cmd by exact Hgp.
    rewrite <- !app_assoc. reflexivity.
  - rewrite !commands_of_alter_ne by auto.
    unfold h3. rewrite commands_of_foldl_add_cmd by exact Hgc2.
    unfold h2. rewrite !commands_of_alter_ne by auto. reflexivity.
Qed.

Lemma drawPolygon_draws_polygon_witness :
  let p := [0; 0; 10; 0; 0; 10]%float in
  commands_of
    (heap (fst (drawPolygon default_config sample_entry 1%float p 0 (length p)
                  (sample_registered []))))
    (boundingBoxesPolygon sample_entry) =
  [style 1 (boundingBoxesPolygonColor default_config) 1;
   BeginFill (Some (boundingBoxesPolygonColor default_config)) (Some 0.1%float);
   DrawPolygon (map Some p);
   EndFill].
Proof.
  intros p.
  destruct (drawPolygon_draws_polygon default_config sample_entry 1%float p
              (sample_registered []) 3) as (_ & H & _).
  - reflexivity.
  - simpl. lia.
  - discriminate.
  - eexists _, _. split; reflexivity.
  - eexists _, _. split; reflexivity.
  - etransitivity; [exact H | reflexivity].
Defined.

Lemma emit_app l1 l2 h : emit (l1 ++ l2) h = emit l2 (emit l1 h).
Proof. unfold emit. apply foldl_app. Qed.

Lemma emit_cons g c l h : emit ((g, c) :: l) h = emit l (alter (add_cmd c) g h).
Proof. reflexivity. Qed.









Lemma spine_at_emit l h o : spine_at (emit l h) o = spine_at h o.
Proof.
  revert h. induction l as [|[g c] l IH]; intros h; [reflexivity|].
  rewrite emit_cons, IH. apply spine_at_add_cmd.
Qed.


(** ** Drawing functions as lists of calls *)

Lemma drawn_nil st : drawn [] (attachments st) st = st.
Proof. destruct st. reflexivity. Qed.

Lemma drawn_drawn l1 a1 l2 a2 st : drawn l2 a2 (drawn l1 a1 st) = drawn (l1 ++ l2) a2 st.
Proof. unfold drawn. cbn. rewrite emit_app. reflexivity. Qed.

Lemma spine_at_drawn l a st o : spine_at (heap (drawn l a st)) o = spine_at (heap st) o.
Proof. apply spine_at_emit. Qed.

Section Performs.

Variables (spine : oid) (sp : SpineBase).

Local Abbreviation performs := (performs spine sp).

Lemma performs_ret {A} (a : A) atts : performs atts (ret a) [] atts (Normal a).
Proof. intros st _ <-. rewrite drawn_nil. reflexivity. Qed.


Lemma performs_gfx g c atts : performs atts (gfx g c) [(g, c)] atts (Normal tt).
Proof. intros st _ <-. reflexivity. Qed.

Lemma performs_read_spine atts : performs atts (read_spine spine) [] atts (Normal sp).
Proof. intros st Hsp <-. rewrite drawn_nil. apply read_spine_at, Hsp. Qed.


Lemma performs_bind {A B} (m : M A) (k : A -> M B) atts l1 a1 a l2 a2 c :
  performs atts m l1 a1 (Normal a) ->
  performs a1 (k a) l2 a2 c ->
  performs atts (bind m k) (l1 ++ l2) a2 c.
Proof.
  intros Hm Hk st Hsp Hatts. unfold bind. rewrite (Hm st Hsp Hatts).
  rewrite (Hk (drawn l1 a1 st)); [|rewrite spine_at_drawn; exact Hsp|reflexivity].
  rewrite drawn_drawn. reflexivity.
Qed.

Lemma performs_bind_throw {A B} (m : M A) (k : A -> M B) atts l1 a1 e :
  performs atts m l1 a1 (Throw e) ->
  performs atts (bind m k) l1 a1 (Throw e).
Proof. intros Hm st Hsp Hatts. unfold bind. rewrite (Hm st Hsp Hatts). reflexivity. Qed.

(** A loop whose body leaves the attachments as they are. *)
Lemma performs_for_each {A} (l : list A) (body : A -> M unit) atts
      (log : A -> Log) (err : A -> option Exn) :
  (forall a, performs atts (body a) (log a) atts (outcome (err a))) ->
  performs atts (for_each l body) (each_log log err l) atts (outcome (each_error err l)).
Proof.
  intros Hb. induction l as [|a l IH]; [apply performs_ret|].
  cbn [for_each each_log each_error]. specialize (Hb a).
  destruct (err a) as [e|].
  - rewrite app_nil_r. apply performs_bind_throw. exact Hb.
  - eapply performs_bind; [exact Hb|exact IH].
Qed.

End Performs.

(** ** The loops over the slots *)

Lemma each_log_slots refused ty draw atts slots :
  each_log (slot_log refused ty draw atts) (slot_error refused ty atts) slots =
  flat_map draw (allocated refused (posed ty atts slots)).
Proof.
  induction slots as [|slot slots IH]; [reflexivity|].
  cbn [each_log posed]. unfold slot_log at 1, slot_error at 1.
  destruct (shown ty atts slot) as [att|]; [|exact IH].
  cbn [allocated snd].
  destruct (refused _); [rewrite app_nil_r; reflexivity|].
  cbn [flat_map]. rewrite IH. reflexivity.
Qed.

Lemma each_error_slots refused ty atts slots :
  each_error (slot_error refused ty atts) slots = refusal refused (posed ty atts slots).
Proof.
  induction slots as [|slot slots IH]; [reflexivity|].
  cbn [each_error posed]. unfold slot_error at 1.
  destruct (shown ty atts slot) as [att|]; [|exact IH].
  cbn [refusal snd].
  destruct (refused _); [reflexivity|exact IH].
Qed.

(** The turn of such a loop: the tests on the bone and on the attachment,
    the allocation of the buffer, and the drawing [F]. *)
Lemma performs_slot spine sp refused ty (F : Attachment -> M unit) draw atts slot :
  (forall att, shown ty atts slot = Some att ->
               refused (worldVerticesLength (att_data att)) = None ->
               performs spine sp atts (F att) (draw (slot, att)) atts (Normal tt)) ->
  performs spine sp atts
    (if negb (bone_active (slot_bone slot)) then ret tt
     else
       let* attachment := getAttachment slot in
       match attachment with
       | None => ret tt
       | Some (_, att) =>
           if negb (AttachmentType_eqb (att_type (att_data att)) ty) then ret tt
           else new_Float32Array refused (worldVerticesLength (att_data att)) >> F att
       end)
    (slot_log refused ty draw atts slot) atts (outcome (slot_error refused ty atts slot)).
Proof.
  intros HF st Hsp Hatts. unfold slot_log, slot_error. revert HF. unfold shown.
  destruct (bone_active (slot_bone slot)); cbn [negb];
    [|intros _; subst atts; rewrite drawn_nil; reflexivity].
  unfold bind at 1, getAttachment. rewrite Hatts.
  destruct (slot_attachment slot) as [a|];
    [|intros _; subst atts; rewrite drawn_nil; reflexivity].
  destruct (atts !! a) as [att|];
    [|intros _; subst atts; rewrite drawn_nil; reflexivity].
  destruct (AttachmentType_eqb (att_type (att_data att)) ty); cbn [negb];
    [|intros _; subst atts; rewrite drawn_nil; reflexivity].
  intros HF. specialize (HF att eq_refl).
  unfold bind, new_Float32Array.
  destruct (refused (worldVerticesLength (att_data att))) as [msg|].
  - subst atts. rewrite drawn_nil. reflexivity.
  - cbn. apply (HF eq_refl st Hsp Hatts).
Qed.

(** *** drawClippingFunc *)

Lemma performs_drawClippingSlot spine sp refused d atts slot :
  performs spine sp atts (drawClippingSlot refused d slot)
    (slot_log refused Clipping
       (fun sa => [(clippingPolygon d, DrawPolygon (map Some (world_vertices sa)))])
       atts slot)
    atts (outcome (slot_error refused Clipping atts slot)).
Proof.
  unfold drawClippingSlot.
  apply (performs_slot spine sp refused Clipping
           (fun att =>
              gfx (clippingPolygon d)
                  (DrawPolygon (map Some (world_vertices (slot, att)))))).
  intros att _ _. apply performs_gfx.
Qed.

Lemma flat_map_singleton {A B} (f : A -> B) (l : list A) :
  flat_map (fun a => [f a]) l = map f l.
Proof. induction l as [|a l IH]; [reflexivity|]. cbn. rewrite IH. reflexivity. Qed.

Lemma flat_map_on {A} g (f : A -> list GCmd) (l : list A) :
  flat_map (fun a => on g (f a)) l = on g (flat_map f l).
Proof.
  unfold on. induction l as [|a l IH]; [reflexivity|].
  cbn [flat_map]. rewrite IH, map_app. reflexivity.
Qed.

Lemma flat_map_map_l {A B C} (f : B -> list C) (g : A -> B) (l : list A) :
  flat_map f (map g l) = flat_map (fun a => f (g a)) l.
Proof. induction l as [|a l IH]; [reflexivity|]. cbn. rewrite IH. reflexivity. Qed.

Lemma flat_map_seq_S {B} (f : nat -> list B) n :
  flat_map f (seq 0 (S n)) = f 0 ++ flat_map (fun k => f (S k)) (seq 0 n).
Proof.
  cbn [seq flat_map]. f_equal. rewrite <- fmap_S_seq.
  generalize (seq 0 n). intros l. induction l as [|a l IH]; [reflexivity|].
  cbn. rewrite IH. reflexivity.
Qed.

Lemma flat_map_ext_seq {B} (f g : nat -> list B) n :
  (forall k, k < n -> f k = g k) -> flat_map f (seq 0 n) = flat_map g (seq 0 n).
Proof.
  intros H.
  assert (Hgen : forall start, (forall k, start <= k < start + n -> f k = g k) ->
                               flat_map f (seq start n) = flat_map g (seq start n)).
  { clear H. induction n as [|n IH]; intros start H; [reflexivity|].
    cbn [seq flat_map]. rewrite (H start) by lia. f_equal.
    apply IH. intros k Hk. apply H. lia. }
  apply Hgen. intros k Hk. apply H. lia.
Qed.

Lemma performs_drawClippingFunc spine sp refused this d lw atts :
  performs spine sp atts (drawClippingFunc refused this spine d lw)
    (clipping_log refused this d lw atts (sk_slots (skeleton sp)))
    atts (outcome (refusal refused (posed Clipping atts (sk_slots (skeleton sp))))).
Proof.
  unfold drawClippingFunc, clipping_log.
  replace (on _ _) with
    ([] ++ [(clippingPolygon d, style lw (clippingPolygonColor this) 1)]
        ++ each_log (slot_log refused Clipping
                       (fun sa => [(clippingPolygon d,
                                    DrawPolygon (map Some (world_vertices sa)))]) atts)
                    (slot_error refused Clipping atts) (sk_slots (skeleton sp))).
  2:{ rewrite each_log_slots. unfold clipping_polygons, on. cbn [app map]. f_equal.
      rewrite flat_map_singleton, map_map. reflexivity. }
  rewrite <- each_error_slots.
  eapply performs_bind; [apply performs_read_spine|]. cbv zeta.
  eapply performs_bind; [apply performs_gfx|].
  apply performs_for_each. intros slot. apply performs_drawClippingSlot.
Qed.

(** *** drawMeshHullAndMeshTriangles *)

Section PerformsLoop.

Variables (spine : oid) (sp : SpineBase).

Lemma performs_for_loop {S} (body : Z -> S -> M S) atts log next fuel n step i s :
  (forall i s, performs spine sp atts (body i s) (log i s) atts (Normal (next i s))) ->
  performs spine sp atts (for_loop fuel n step body i s)
           (loop_log fuel n step log next i s) atts
           (Normal (loop_end fuel n step next i s)).
Proof.
  intros Hb. revert i s. induction fuel as [|fuel IH]; intros i s.
  - apply performs_ret.
  - cbn [for_loop loop_log loop_end]. destruct (i <? n)%Z; [|apply performs_ret].
    eapply performs_bind; [apply Hb|apply IH].
Qed.

End PerformsLoop.

(** A counted loop that makes [cnt] turns: its calls, turn by turn. *)
Lemma loop_log_turns {V} (log : Z -> V -> Log) (next : Z -> V -> V) n step cnt :
  (0 < step)%Z ->
  forall fuel start (vars : nat -> V),
    cnt <= fuel ->
    (n <= start + step * Z.of_nat cnt)%Z ->
    (0 < cnt -> (start + step * Z.of_nat (cnt - 1) < n)%Z) ->
    (forall k, k < cnt ->
       next (start + step * Z.of_nat k)%Z (vars k) = vars (S k)) ->
    loop_log fuel n step log next start (vars 0) =
    flat_map (fun k => log (start + step * Z.of_nat k)%Z (vars k)) (seq 0 cnt).
Proof.
  intros Hstep. induction cnt as [|cnt IH]; intros fuel start vars Hfuel Hn Hlast Hnext.
  - destruct fuel as [|fuel]; [reflexivity|]. cbn [loop_log seq flat_map].
    replace (start <? n)%Z with false; [reflexivity|].
    symmetry. apply Z.ltb_ge. lia.
  - destruct fuel as [|fuel]; [lia|]. cbn [loop_log].
    replace (start <? n)%Z with true by (symmetry; apply Z.ltb_lt; nia).
    rewrite flat_map_seq_S. f_equal.
    + replace (start + step * Z.of_nat 0)%Z with start by lia. reflexivity.
    + pose proof (Hnext 0 ltac:(lia)) as H0.
      replace (start + step * Z.of_nat 0)%Z with start in H0 by lia. rewrite H0.
      rewrite (IH fuel (start + step)%Z (fun k => vars (S k))).
      * apply flat_map_ext_seq. intros k Hk.
        replace (start + step + step * Z.of_nat k)%Z
          with (start + step * Z.of_nat (S k))%Z by lia.
        reflexivity.
      * lia.
      * replace (start + step + step * Z.of_nat cnt)%Z
          with (start + step * Z.of_nat (S cnt))%Z by lia. exact Hn.
      * intros Hc. specialize (Hlast ltac:(lia)).
        replace (start + step + step * Z.of_nat (cnt - 1))%Z
          with (start + step * Z.of_nat (S cnt - 1))%Z by (destruct cnt; lia). exact Hlast.
      * intros k Hk. specialize (Hnext (S k) ltac:(lia)).
        replace (start + step + step * Z.of_nat k)%Z
          with (start + step * Z.of_nat (S k))%Z by lia. exact Hnext.
Qed.

Lemma triangle_calls_cons3 vertices t1 t2 t3 rest :
  triangle_calls vertices (t1 :: t2 :: t3 :: rest) =
  [MoveTo (tri_vertex vertices (Some t1) 0) (tri_vertex vertices (Some t1) 1);
   LineTo (tri_vertex vertices (Some t2) 0) (tri_vertex vertices (Some t2) 1);
   LineTo (tri_vertex vertices (Some t3) 0) (tri_vertex vertices (Some t3) 1)]
  ++ triangle_calls vertices rest.
Proof.
  unfold triangle_calls. cbn [length].
  replace (S (S (S (length rest))) + 2) with (length rest + 2 + 1 * 3) by lia.
  rewrite Nat.div_add by lia. rewrite Nat.add_1_r.
  rewrite flat_map_seq_S. f_equal.
  apply flat_map_ext_seq. intros k _.
  replace (3 * S k + 0) with (S (S (S (3 * k + 0)))) by lia.
  replace (3 * S k + 1) with (S (S (S (3 * k + 1)))) by lia.
  replace (3 * S k + 2) with (S (S (S (3 * k + 2)))) by lia.
  reflexivity.
Qed.

Lemma performs_drawTriangles spine sp d vertices triangles atts :
  performs spine sp atts (drawTriangles d vertices triangles)
           (on (meshTrianglesLine d) (triangle_calls vertices triangles)) atts (Normal tt).
Proof.
  induction triangles as [triangles IH] using (induction_ltof1 _ (@length _)).
  unfold ltof in IH.
  assert (Hone : forall t1 t2 t3,
            performs spine sp atts (drawTriangle d vertices t1 t2 t3)
              (on (meshTrianglesLine d)
                  [MoveTo (tri_vertex vertices t1 0) (tri_vertex vertices t1 1);
                   LineTo (tri_vertex vertices t2 0) (tri_vertex vertices t2 1);
                   LineTo (tri_vertex vertices t3 0) (tri_vertex vertices t3 1)])
              atts (Normal tt)).
  { intros t1 t2 t3. unfold drawTriangle.
    eapply (performs_bind _ _ _ _ _ [_]); [apply performs_gfx|].
    eapply (performs_bind _ _ _ _ _ [_]); [apply performs_gfx|].
    apply performs_gfx. }
  destruct triangles as [|t1 [|t2 [|t3 rest]]].
  - apply performs_ret.
  - apply Hone.
  - apply Hone.
  - rewrite triangle_calls_cons3. unfold on. rewrite map_app.
    cbn [drawTriangles]. eapply performs_bind; [apply Hone|].
    apply IH. cbn. lia.
Qed.

Lemma performs_drawHullSegment spine sp d vertices i last atts :
  performs spine sp atts (drawHullSegment d vertices i last)
    (on (meshHullLine d)
        [MoveTo (arr_get vertices i) (arr_get vertices (i + 1));
         LineTo (fst last) (snd last)])
    atts (Normal (arr_get vertices i, arr_get vertices (i + 1)%Z)).
Proof.
  unfold drawHullSegment.
  eapply (performs_bind _ _ _ _ _ [_]); [apply performs_gfx|].
  eapply (performs_bind _ _ _ _ _ [_] _ _ []); [apply performs_gfx|].
  apply performs_ret.
Qed.

(** The loop over the hull, with its variables [lastX] and [lastY], draws
    the outline. *)
Lemma hull_loop_log d vertices (m : Z) :
  loop_log (Z.to_nat (m * 2)) (m * 2) 2
    (fun i last => on (meshHullLine d)
                      [MoveTo (arr_get vertices i) (arr_get vertices (i + 1));
                       LineTo (fst last) (snd last)])
    (fun i _ => (arr_get vertices i, arr_get vertices (i + 1)%Z))
    0 (arr_get vertices (m * 2 - 2), arr_get vertices (m * 2 - 1)%Z) =
  on (meshHullLine d) (flat_map (hull_edge vertices m) (seq 0 (Z.to_nat m))).
Proof.
  set (vars := fun k : nat =>
                 hull_vertex vertices (if (k =? 0)%nat then m - 1 else Z.of_nat k - 1)%Z).
  assert (Hv0 : (arr_get vertices (m * 2 - 2), arr_get vertices (m * 2 - 1)%Z) = vars 0).
  { unfold vars, hull_vertex. cbn [Nat.eqb].
    replace (2 * (m - 1))%Z with (m * 2 - 2)%Z by lia.
    replace (m * 2 - 2 + 1)%Z with (m * 2 - 1)%Z by lia. reflexivity. }
  rewrite Hv0.
  rewrite (loop_log_turns _ _ (m * 2) 2 (Z.to_nat m) ltac:(lia) _ 0%Z vars).
  - rewrite <- flat_map_on. apply flat_map_ext_seq. intros k Hk.
    unfold hull_edge, vars, hull_vertex. cbn [fst snd]. cbv zeta.
    replace (0 + 2 * Z.of_nat k)%Z with (2 * Z.of_nat k)%Z by lia. reflexivity.
  - lia.
  - lia.
  - lia.
  - intros k Hk. unfold vars, hull_vertex. cbn [Nat.eqb].
    replace (0 + 2 * Z.of_nat k)%Z with (2 * (Z.of_nat (S k) - 1))%Z by lia.
    reflexivity.
Qed.

Lemma performs_drawMeshSlot spine sp refused this d atts slot :
  performs spine sp atts (drawMeshSlot refused this d slot)
    (slot_log refused Mesh (mesh_slot_log this d) atts slot)
    atts (outcome (slot_error refused Mesh atts slot)).
Proof.
  unfold drawMeshSlot.
  apply (performs_slot spine sp refused Mesh
           (fun att =>
              let vertices := world_vertices (slot, att) in
              when (drawMeshTriangles this)
                   (drawTriangles d vertices (triangles (att_data att))) >>
              if drawMeshHull this && (0 <? hullLength (att_data att))%Z
              then
                let hl := (sar1 (hullLength (att_data att)) * 2)%Z in
                for_loop (Z.to_nat hl) hl 2 (drawHullSegment d vertices) 0%Z
                         (arr_get vertices (hl - 2), arr_get vertices (hl - 1)%Z) >>
                ret tt
              else ret tt)).
  intros att _ _. cbv zeta. unfold mesh_slot_log. cbn [snd].
  eapply performs_bind.
  { unfold when. destruct (drawMeshTriangles this);
      [apply performs_drawTriangles|apply performs_ret]. }
  unfold hull_calls.
  destruct (drawMeshHull this); cbn [andb]; [|apply performs_ret].
  destruct (0 <? hullLength (att_data att))%Z; [|apply performs_ret].
  rewrite <- hull_loop_log.
  rewrite <- (app_nil_r (loop_log _ _ _ _ _ _ _)).
  eapply performs_bind; [|apply performs_ret].
  apply performs_for_loop. intros i s. apply performs_drawHullSegment.
Qed.

(** *** drawPathsFunc *)

Lemma performs_drawPathSegment spine sp d x1 y1 cx1 cy1 cx2 cy2 x2 y2 atts :
  performs spine sp atts (drawPathSegment d x1 y1 cx1 cy1 cx2 cy2 x2 y2)
           (segment_log d (mkSegment x1 y1 cx1 cy1 cx2 cy2 x2 y2)) atts (Normal tt).
Proof.
  unfold drawPathSegment, segment_log, curve_calls, handle_calls, on. cbn [map app].
  do 5 (eapply (performs_bind _ _ _ _ _ [_]); [apply performs_gfx|]).
  apply performs_gfx.
Qed.

Lemma performs_drawPathCurve spine sp d world ii s atts :
  performs spine sp atts (drawPathCurve d world ii s)
    (segment_log d
       (mkSegment (fst (fst (fst s))) (snd (fst (fst s)))
                  (arr_get world ii) (arr_get world (ii + 1))
                  (arr_get world (ii + 2)) (arr_get world (ii + 3))
                  (arr_get world (ii + 4)) (arr_get world (ii + 5))))
    atts
    (Normal (arr_get world (ii + 4), arr_get world (ii + 5),
             arr_get world (ii + 4), arr_get world (ii + 5))%Z).
Proof.
  destruct s as [[[x1 y1] x2] y2]. unfold drawPathCurve. cbn [fst snd].
  rewrite <- (app_nil_r (segment_log _ _)).
  eapply performs_bind; [apply performs_drawPathSegment|apply performs_ret].
Qed.

(** The loop over the control points, with its variables [x1], [y1], [x2]
    and [y2], draws the segments of the path in turn. *)
Lemma path_loop_log d world (n : nat) x2 y2 :
  loop_log (Z.to_nat (Z.of_nat n - 4)) (Z.of_nat n - 4) 6
    (fun ii (s : value * value * value * value) =>
       segment_log d
         (mkSegment (fst (fst (fst s))) (snd (fst (fst s)))
                    (arr_get world ii) (arr_get world (ii + 1))
                    (arr_get world (ii + 2)) (arr_get world (ii + 3))
                    (arr_get world (ii + 4)) (arr_get world (ii + 5))))
    (fun ii _ => (arr_get world (ii + 4), arr_get world (ii + 5),
                  arr_get world (ii + 4), arr_get world (ii + 5))%Z)
    4 (arr_get world 2, arr_get world 3, x2, y2) =
  flat_map (segment_log d) (map (path_segment world) (seq 0 ((n - 3) / 6))).
Proof.
  set (vars := fun k : nat =>
                 match k with
                 | O => (arr_get world 2, arr_get world 3, x2, y2)
                 | S _ => (arr_get world (4 + 6 * Z.of_nat k - 2),
                           arr_get world (4 + 6 * Z.of_nat k - 1),
                           arr_get world (4 + 6 * Z.of_nat k - 2),
                           arr_get world (4 + 6 * Z.of_nat k - 1))%Z
                 end).
  change (arr_get world 2, arr_get world 3, x2, y2) with (vars 0).
  assert (Hdiv : 6 * ((n - 3) / 6) <= n - 3) by (apply Nat.Div0.mul_div_le).
  assert (Hdiv' : n - 3 < 6 * ((n - 3) / 6) + 6).
  { pose proof (Nat.mod_upper_bound (n - 3) 6 ltac:(lia)).
    pose proof (Nat.div_mod_eq (n - 3) 6). lia. }
  rewrite (loop_log_turns _ _ (Z.of_nat n - 4) 6 ((n - 3) / 6) ltac:(lia) _ 4%Z vars).
  - rewrite flat_map_map_l.
    apply flat_map_ext_seq. intros k Hk. unfold path_segment.
    destruct k as [|k]; reflexivity.
  - lia.
  - lia.
  - lia.
  - intros k Hk. unfold vars.
    replace (4 + 6 * Z.of_nat (S k) - 2)%Z with (4 + 6 * Z.of_nat k + 4)%Z by lia.
    replace (4 + 6 * Z.of_nat (S k) - 1)%Z with (4 + 6 * Z.of_nat k + 5)%Z by lia.
    reflexivity.
Qed.

Lemma performs_drawPathSlot spine sp refused d atts slot :
  performs spine sp atts (drawPathSlot refused d slot)
    (slot_log refused Path
       (fun sa => flat_map (segment_log d)
                    (path_segments (world_vertices sa) (closed (att_data (snd sa)))))
       atts slot)
    atts (outcome (slot_error refused Path atts slot)).
Proof.
  unfold drawPathSlot.
  apply (performs_slot spine sp refused Path
           (fun att =>
              let nn := Z.of_nat (worldVerticesLength (att_data att)) in
              let world := world_vertices (slot, att) in
              let x1 := arr_get world 2 in
              let y1 := arr_get world 3 in
              let* s :=
                (if closed (att_data att)
                 then
                   drawPathSegment d x1 y1 (arr_get world 0) (arr_get world 1)
                                   (arr_get world (nn - 2)) (arr_get world (nn - 1))
                                   (arr_get world (nn - 4)) (arr_get world (nn - 3)) >>
                   ret (x1, y1, arr_get world (nn - 4), arr_get world (nn - 3))
                 else ret (x1, y1, Some 0%float, Some 0%float)) in
              for_loop (Z.to_nat (nn - 4)) (nn - 4) 6 (drawPathCurve d world) 4%Z s >>
              ret tt)).
  intros att _ _. cbv zeta. cbn [snd].
  set (world := world_vertices (slot, att)).
  assert (Hlen : length world = worldVerticesLength (att_data att)).
  { unfold world, world_vertices. apply length_Float32Array_after. }
  unfold path_segments. rewrite flat_map_app, Hlen.
  assert (Hloop : forall x2 y2,
            performs spine sp atts
              (for_loop (Z.to_nat (Z.of_nat (worldVerticesLength (att_data att)) - 4))
                        (Z.of_nat (worldVerticesLength (att_data att)) - 4) 6
                        (drawPathCurve d world) 4%Z
                        (arr_get world 2, arr_get world 3, x2, y2) >> ret tt)
              (flat_map (segment_log d)
                 (map (path_segment world)
                      (seq 0 ((worldVerticesLength (att_data att) - 3) / 6))))
              atts (Normal tt)).
  { intros x2 y2. rewrite <- (path_loop_log d world _ x2 y2).
    rewrite <- (app_nil_r (loop_log _ _ _ _ _ _ _)).
    eapply performs_bind; [|apply performs_ret].
    apply performs_for_loop. intros i s. apply performs_drawPathCurve. }
  destruct (closed (att_data att)).
  - eapply performs_bind; [|apply Hloop].
    cbn [flat_map]. rewrite app_nil_r.
    unfold closing_segment. rewrite Hlen.
    rewrite <- (app_nil_r (segment_log _ _)).
    eapply performs_bind; [apply performs_drawPathSegment|apply performs_ret].
  - cbn [flat_map app]. rewrite <- (app_nil_l (flat_map _ _)).
    eapply performs_bind; [apply performs_ret|apply Hloop].
Qed.

Lemma performs_drawPathsFunc spine sp refused this d lw atts :
  performs spine sp atts (drawPathsFunc refused this spine d lw)
    (paths_log refused this d lw atts (sk_slots (skeleton sp)))
    atts (outcome (refusal refused (posed Path atts (sk_slots (skeleton sp))))).
Proof.
  unfold drawPathsFunc, paths_log.
  rewrite <- each_log_slots, <- each_error_slots.
  rewrite <- (app_nil_l (_ ++ _)).
  eapply performs_bind; [apply performs_read_spine|]. cbv zeta.
  eapply (performs_bind _ _ _ _ _ [_]); [apply performs_gfx|].
  eapply (performs_bind _ _ _ _ _ [_]); [apply performs_gfx|].
  apply performs_for_each. intros slot. apply performs_drawPathSlot.
Qed.

Lemma performs_drawMeshHullAndMeshTriangles spine sp refused this d lw atts :
  performs spine sp atts (drawMeshHullAndMeshTriangles refused this spine d lw)
    (mesh_log refused this d lw atts (sk_slots (skeleton sp)))
    atts (outcome (refusal refused (posed Mesh atts (sk_slots (skeleton sp))))).
Proof.
  unfold drawMeshHullAndMeshTriangles, mesh_log.
  rewrite <- each_log_slots, <- each_error_slots.
  rewrite <- (app_nil_l (_ ++ _)).
  eapply performs_bind; [apply performs_read_spine|]. cbv zeta.
  eapply (performs_bind _ _ _ _ _ [_]); [apply performs_gfx|].
  eapply (performs_bind _ _ _ _ _ [_]); [apply performs_gfx|].
  apply performs_for_each. intros slot. apply performs_drawMeshSlot.
Qed.

(** *** drawBoundingBoxesFunc *)






(** *** drawRegionAttachmentsFunc *)



(** ** The part of a frame that follows the bones *)

Section PerformsSeq.

Variables (spine : oid) (sp : SpineBase).



End PerformsSeq.



(** ** The calls made on each graphic *)



























(** ** A frame on a registered spine *)








(** ** The errors of the drawing functions that read the pose *)

Lemma refusal_None refused l :
  Forall (fun sa => refused (worldVerticesLength (att_data (snd sa))) = None) l ->
  refusal refused l = None.
Proof.
  induction 1 as [|sa l Hsa _ IH]; [reflexivity|].
  cbn [refusal]. rewrite Hsa. exact IH.
Qed.

Lemma refusal_Some refused pre sa post msg :
  Forall (fun sa => refused (worldVerticesLength (att_data (snd sa))) = None) pre ->
  refused (worldVerticesLength (att_data (snd sa))) = Some msg ->
  refusal refused (pre ++ sa :: post) = Some (RangeError msg).
Proof.
  intros Hpre Hsa. induction Hpre as [|sa0 pre Hsa0 _ IH].
  - cbn [app refusal]. rewrite Hsa. reflexivity.
  - cbn [app refusal]. rewrite Hsa0. exact IH.
Qed.

(** X9: the only error that the drawing of the paths, of the clipping
    polygons and of the meshes can raise on a spine object is the
    [RangeError] of [new Float32Array].  Each of the three functions
    completes normally when the engine allocates the vertex buffer of every
    attachment that it draws (the attachments of its type on the slots
    whose bone is active), and otherwise raises the error of the first
    length that the engine refuses; an index out of range raises nothing
    ([undefined] is passed on to the graphics).  The drawing of the bones
    allocates no buffer and cannot fail. *)
Theorem pose_drawing_errors acos refused this spine d lw scale st sp :
  spine_at (heap st) spine = Some sp ->
  let drawn_by ty := posed ty (attachments st) (sk_slots (skeleton sp)) in
  let allocates (sa : Slot * Attachment) :=
    refused (worldVerticesLength (att_data (snd sa))) = None in
  snd (drawBonesFunc acos this spine d lw scale st) = Normal tt /\
  snd (drawPathsFunc refused this spine d lw st) =
    outcome (refusal refused (drawn_by Path)) /\
  snd (drawClippingFunc refused this spine d lw st) =
    outcome (refusal refused (drawn_by Clipping)) /\
  snd (drawMeshHullAndMeshTriangles refused this spine d lw st) =
    outcome (refusal refused (drawn_by Mesh)) /\
  (forall ty, Forall allocates (drawn_by ty) -> refusal refused (drawn_by ty) = None) /\
  (forall ty pre sa post msg,
     drawn_by ty = pre ++ sa :: post -> Forall allocates pre ->
     refused (worldVerticesLength (att_data (snd sa))) = Some msg ->
     refusal refused (drawn_by ty) = Some (RangeError msg)).
Proof.
  intros Hsp drawn_by allocates.
  split; [|split; [|split; [|split; [|split]]]].
  - assert (Hunit : forall (m : M unit) st0,
              (exists b, snd (m st0) = Normal b) -> snd (m st0) = Normal tt).
    { intros m st0 [[] H]. exact H. }
    apply Hunit. unfold drawBonesFunc.
    apply (never_throws_after_read_spine _ _ _ sp Hsp).
    intros sp0. cbv zeta. unfold drawBone, new_Graphics. repeat never_throws_step.
  - rewrite (performs_drawPathsFunc spine sp refused this d lw (attachments st) st Hsp
               eq_refl). reflexivity.
  - rewrite (performs_drawClippingFunc spine sp refused this d lw (attachments st) st Hsp
               eq_refl). reflexivity.
  - rewrite (performs_drawMeshHullAndMeshTriangles spine sp refused this d lw
               (attachments st) st Hsp eq_refl). reflexivity.
  - intros ty. apply refusal_None.
  - intros ty pre sa post msg -> Hpre Hsa. apply refusal_Some; assumption.
Qed.

Lemma pose_drawing_errors_witness :
  snd (drawMeshHullAndMeshTriangles sample_refused default_config 0 sample_entry 1%float
         (sample_scene [Some 3])) = Normal tt /\
  snd (drawClippingFunc sample_refused default_config 0 sample_entry 1%float
         (sample_scene [Some 5; Some 7; Some 5])) =
  Throw (RangeError "Array buffer allocation failed").
Proof.
  split.
  - destruct (pose_drawing_errors sample_acos sample_refused default_config 0 sample_entry
                1%float 1%float (sample_scene [Some 3])
                (mkSpine 1%float 1%float (sample_skeleton [Some 3])))
      as (_ & _ & _ & H & _).
    + reflexivity.
    + exact H.
  - destruct (pose_drawing_errors sample_acos sample_refused default_config 0 sample_entry
                1%float 1%float (sample_scene [Some 5; Some 7; Some 5])
                (mkSpine 1%float 1%float (sample_skeleton [Some 5; Some 7; Some 5])))
      as (_ & _ & H & _).
    + reflexivity.
    + exact H.
Defined.
